(** * Telemetry transport of the pedestrian-detection demo

    A shallow embedding of the metadata dumper (src/results): the streaming
    JSON writer and the per-frame document (metadump.cpp), the queued socket
    senders (network.cpp) and the HTTP client (http.cpp, http_util.cpp),
    followed by the properties established about them. *)

From Stdlib Require Import ZArith String Ascii List DecimalString Floats Lia.
From stdpp Require Import gmap strings list.

Open Scope Z_scope.

(* ===================================================================== *)
(** * Outcomes of a C++ call *)
(* ===================================================================== *)

(** A call either returns, stops on a failed [assert], leaves by an
    exception, or leaves the behaviour of the program undefined (back() of
    an empty vector, a null or past-the-end dereference). *)
Inductive outcome (A : Type) : Type :=
  | Returns (a : A)
  | AssertionFailure
  | Throws (what : string)
  | Undefined.
Arguments Returns {A} a.
Arguments AssertionFailure {A}.
Arguments Throws {A} what.
Arguments Undefined {A}.

#[export] Instance outcome_ret : MRet outcome := fun _ a => Returns a.
#[export] Instance outcome_bind : MBind outcome := fun _ _ f m =>
  match m with
  | Returns a => f a
  | AssertionFailure => AssertionFailure
  | Throws what => Throws what
  | Undefined => Undefined
  end.

(* ===================================================================== *)
(** * Machine integers and stream formatting *)
(* ===================================================================== *)

(** [int] is 32 bits wide; arithmetic on it is kept in range by wrapping. *)
Definition wrap_int (z : Z) : Z := (z + 2^31) mod 2^32 - 2^31.

(** [unsigned char] arithmetic, as in [line0[9] - '0']. *)
Definition wrap_uchar (z : Z) : Z := z mod 256.

(** [m_out << val] for [int] and [long]: the decimal numeral. *)
Definition show_int (z : Z) : string := NilZero.string_of_int (Z.to_int z).

Definition code (c : ascii) : Z := Z.of_N (N_of_ascii c).

(* ===================================================================== *)
(** * metadump.cpp: JSONWriter *)
(* ===================================================================== *)

Module JSON.

Inductive EnclosureType := OBJECT | ARRAY.

(** The writer owns the characters sent to [m_out] so far and the two
    vectors; the back of a vector is the last element of the list. *)
Record JSONWriter := {
  m_out : string;
  m_stack : list EnclosureType;
  m_first : list bool
}.

Definition put (c : ascii) (w : JSONWriter) : JSONWriter :=
  {| m_out := m_out w +:+ String c EmptyString;
     m_stack := m_stack w; m_first := m_first w |}.

Definition put_str (s : string) (w : JSONWriter) : JSONWriter :=
  {| m_out := m_out w +:+ s; m_stack := m_stack w; m_first := m_first w |}.

Definition push (t : EnclosureType) (w : JSONWriter) : JSONWriter :=
  {| m_out := m_out w; m_stack := m_stack w ++ [t];
     m_first := m_first w ++ [true] |}.

(** [m_first.back() = false] *)
Definition clear_first (w : JSONWriter) : JSONWriter :=
  {| m_out := m_out w; m_stack := m_stack w;
     m_first := removelast (m_first w) ++ [false] |}.

Definition emit_begin (w : JSONWriter) : outcome JSONWriter :=
  match last (m_first w) with
  | None => Undefined
  | Some false => Returns (put "," w)
  | Some true => Returns (clear_first w)
  end.

Definition emit_open (t : EnclosureType) (w : JSONWriter) : JSONWriter :=
  match t with OBJECT => put "{" w | ARRAY => put "[" w end.

Definition emit_close (t : EnclosureType) (w : JSONWriter) : JSONWriter :=
  match t with OBJECT => put "}" w | ARRAY => put "]" w end.

(** The double quote character. *)
Definition dquote : ascii := "034".

Fixpoint escape (s : string) : string :=
  match s with
  | EmptyString => EmptyString
  | String c r =>
      if Ascii.eqb c dquote then String "\" (String dquote (escape r))
      else String c (escape r)
  end.

Definition emit_str (s : string) (w : JSONWriter) : JSONWriter :=
  put dquote (put_str (escape s) (put dquote w)).

Definition emit_key (s : string) (w : JSONWriter) : outcome JSONWriter :=
  w1 ← emit_begin w; Returns (put ":" (emit_str s w1)).

(** The constructor. *)
Definition new (root : EnclosureType) : JSONWriter :=
  let w :=
    emit_open root {| m_out := EmptyString; m_stack := []; m_first := [] |} in
  {| m_out := m_out w; m_stack := m_stack w ++ [root];
     m_first := m_first w ++ [true] |}.

(** The destructor: closes what is still open, then a newline. *)
Fixpoint close_all (stack : list EnclosureType) (first : list bool)
    (out : string) (n : nat) : outcome string :=
  match n with
  | O => Returns out
  | S n' =>
      match last stack with
      | None => Returns out
      | Some t =>
          match first with
          | [] => Undefined
          | _ =>
              close_all (removelast stack) (removelast first)
                (m_out (emit_close t {| m_out := out; m_stack := stack;
                                        m_first := first |})) n'
          end
      end
  end.

Definition destroy (w : JSONWriter) : outcome string :=
  out ← close_all (m_stack w) (m_first w) (m_out w) (length (m_stack w));
  Returns (out +:+ String "010" EmptyString).

(** Array elements. *)
Definition value_str (val : string) (w : JSONWriter) : outcome JSONWriter :=
  w1 ← emit_begin w; Returns (emit_str val w1).
Definition value_int (val : Z) (w : JSONWriter) : outcome JSONWriter :=
  w1 ← emit_begin w; Returns (put_str (show_int val) w1).
Definition value_bool (val : bool) (w : JSONWriter) : outcome JSONWriter :=
  w1 ← emit_begin w; Returns (put_str (if val then "1" else "0") w1).

Definition array (w : JSONWriter) : outcome JSONWriter :=
  w1 ← emit_begin w; Returns (push ARRAY (emit_open ARRAY w1)).
Definition object (w : JSONWriter) : outcome JSONWriter :=
  w1 ← emit_begin w; Returns (push OBJECT (emit_open OBJECT w1)).

(** Members of an object. *)
Definition key_str (key val : string) (w : JSONWriter) : outcome JSONWriter :=
  w1 ← emit_key key w; Returns (emit_str val w1).
Definition key_int (key : string) (val : Z) (w : JSONWriter)
    : outcome JSONWriter :=
  w1 ← emit_key key w; Returns (put_str (show_int val) w1).
Definition key_bool (key : string) (val : bool) (w : JSONWriter)
    : outcome JSONWriter :=
  w1 ← emit_key key w; Returns (put_str (if val then "true" else "false") w1).

Definition array_key (key : string) (w : JSONWriter) : outcome JSONWriter :=
  w1 ← emit_key key w; Returns (push ARRAY (emit_open ARRAY w1)).
Definition object_key (key : string) (w : JSONWriter) : outcome JSONWriter :=
  w1 ← emit_key key w; Returns (push OBJECT (emit_open OBJECT w1)).

(** [end()]: closes the back of [m_stack] and pops it; [m_first] is left
    as it is.  Nothing is checked: on an empty stack [m_stack.back()] is
    read all the same. *)
Definition end_ (w : JSONWriter) : outcome JSONWriter :=
  match last (m_stack w) with
  | None => Undefined
  | Some t =>
      let w1 := emit_close t w in
      Returns {| m_out := m_out w1; m_stack := removelast (m_stack w1);
                 m_first := m_first w1 |}
  end.

(** The [double] overloads hand the value to the stream, whose rendering
    belongs to the C++ library; it is taken as an argument. *)
Section Doubles.
Context {double : Type} (show_double : double → string).

Definition value_double (val : double) (w : JSONWriter)
    : outcome JSONWriter :=
  w1 ← emit_begin w; Returns (put_str (show_double val) w1).

Definition key_double (key : string) (val : double) (w : JSONWriter)
    : outcome JSONWriter :=
  w1 ← emit_key key w; Returns (put_str (show_double val) w1).

(** A call on the public interface, for sequences of calls. *)
Inductive call :=
  | c_object | c_array | c_end
  | c_object_key (k : string) | c_array_key (k : string)
  | c_key_int (k : string) (v : Z) | c_key_bool (k : string) (v : bool)
  | c_key_str (k v : string) | c_key_double (k : string) (v : double)
  | c_value_int (v : Z) | c_value_bool (v : bool) | c_value_str (v : string)
  | c_value_double (v : double).

Definition do_call (c : call) (w : JSONWriter) : outcome JSONWriter :=
  match c with
  | c_object => object w
  | c_array => array w
  | c_end => end_ w
  | c_object_key k => object_key k w
  | c_array_key k => array_key k w
  | c_key_int k v => key_int k v w
  | c_key_bool k v => key_bool k v w
  | c_key_str k v => key_str k v w
  | c_key_double k v => key_double k v w
  | c_value_int v => value_int v w
  | c_value_bool v => value_bool v w
  | c_value_str v => value_str v w
  | c_value_double v => value_double v w
  end.

Fixpoint do_calls (cs : list call) (w : JSONWriter) : outcome JSONWriter :=
  match cs with
  | [] => Returns w
  | c :: r => w1 ← do_call c w; do_calls r w1
  end.

Definition opens (c : call) : bool :=
  match c with
  | c_object | c_array | c_object_key _ | c_array_key _ => true
  | _ => false
  end.

Definition is_end (c : call) : bool :=
  match c with c_end => true | _ => false end.

End Doubles.
Arguments c_object {double}.
Arguments c_array {double}.
Arguments c_end {double}.
Arguments c_object_key {double} k.
Arguments c_array_key {double} k.
Arguments c_key_int {double} k v.
Arguments c_key_bool {double} k v.
Arguments c_key_str {double} k v.
Arguments c_value_int {double} v.
Arguments c_value_bool {double} v.
Arguments c_value_str {double} v.

End JSON.

(* ===================================================================== *)
(** * sink.hpp: result records *)
(* ===================================================================== *)

Module ml.

(** [cv::Rect]: corner, width and height; [tl()] is the corner and [br()]
    the corner moved by the size. *)
Record Rect := { x : Z; y : Z; width : Z; height : Z }.

Definition tl (r : Rect) : Z * Z := (x r, y r).
Definition br (r : Rect) : Z * Z :=
  (wrap_int (x r + width r), wrap_int (y r + height r)).

Record BoundingBox := { id : Z; tag : Z; bounds : Rect }.

Record Classification := { cls_name : string; cls_id : Z; cls_tag : Z }.

(** [AlgorithmResult] with its [type] field: one constructor per
    [ResultType]. *)
Inductive AlgorithmResult :=
  | RT_BOUNDING_BOXES (boxes : list BoundingBox)
  | RT_POINTS
  | RT_CLASSIFICATION (classes : list Classification).

End ml.

(* ===================================================================== *)
(** * metadump.cpp: Metadumper *)
(* ===================================================================== *)

(** [DumpTarget::write] is pure virtual: a target is any state that can
    take a document. *)
Class DumpTarget (T : Type) := write : string → T → T.

(** A target that keeps the documents it was given, oldest first. *)
#[export] Instance recording_target : DumpTarget (list string) :=
  fun data written => written ++ [data].

Module Metadumper.
Import JSON ml.

Record Metadumper (T : Type) := { m_tgt : T }.
Arguments m_tgt {T} _.

Definition write_box (json : JSONWriter) (box : BoundingBox)
    : outcome JSONWriter :=
  json ← object json;
  json ← (if negb (id box =? 0) then key_int "id" (id box) json
          else Returns json);
  json ← (if negb (tag box =? 0) then key_int "tag" (tag box) json
          else Returns json);
  json ← object_key "topleft" json;
  json ← key_int "x" (fst (tl (bounds box))) json;
  json ← key_int "y" (snd (tl (bounds box))) json;
  json ← end_ json;
  json ← object_key "btmright" json;
  json ← key_int "x" (fst (br (bounds box))) json;
  json ← key_int "y" (snd (br (bounds box))) json;
  json ← end_ json;
  json ← key_int "area"
           (wrap_int (width (bounds box) * height (bounds box))) json;
  end_ json.

Fixpoint write_boxes (json : JSONWriter) (boxes : list BoundingBox)
    : outcome JSONWriter :=
  match boxes with
  | [] => Returns json
  | box :: r => json ← write_box json box; write_boxes json r
  end.

Definition write_boundboxes (json : JSONWriter) (boxes : list BoundingBox)
    : outcome JSONWriter :=
  json ← object json;
  json ← key_str "type" "bounding-boxes" json;
  json ← array_key "boxes" json;
  json ← write_boxes json boxes;
  json ← end_ json;
  end_ json.

Definition write_result (json : JSONWriter) (res : AlgorithmResult)
    : outcome JSONWriter :=
  match res with
  | RT_BOUNDING_BOXES boxes => write_boundboxes json boxes
  | _ => Returns json
  end.

Fixpoint write_results (json : JSONWriter) (res : list AlgorithmResult)
    : outcome JSONWriter :=
  match res with
  | [] => Returns json
  | r :: rest => json ← write_result json r; write_results json rest
  end.

Section Accept.
Context {double : Type} (show_double : double → string).
Context {T : Type} `{DumpTarget T}.

(** The document built by [accept], up to the writer going out of scope. *)
Definition build (res : list AlgorithmResult) (fps : Z) (fpga : bool)
    (cpu_use framerate : double) (fr_time : Z) : outcome string :=
  let json := new OBJECT in
  json ← object_key "frame" json;
  json ← key_int "fps" fps json;
  json ← key_bool "fpga" fpga json;
  json ← object_key "perf" json;
  json ← key_double show_double "cpu_use" cpu_use json;
  json ← key_double show_double "fps" framerate json;
  json ← key_int "fr_time" fr_time json;
  json ← end_ json;
  json ← array_key "results" json;
  json ← write_results json res;
  json ← end_ json;
  destroy json.

Definition accept (res : list AlgorithmResult) (fps frame : Z) (fpga : bool)
    (cpu_use framerate : double) (fr_time : Z) (m : Metadumper T)
    : outcome (Metadumper T) :=
  doc ← build res fps fpga cpu_use framerate fr_time;
  Returns {| m_tgt := write doc (m_tgt m) |}.
End Accept.

End Metadumper.

(* ===================================================================== *)
(** * Reading a document back *)
(* ===================================================================== *)

(** The yardstick for what a serialized document says: a reader for the
    JSON grammar.  Numbers keep their text. *)
Module Reader.

Inductive json :=
  | JNull
  | JBool (b : bool)
  | JNum (text : string)
  | JStr (s : string)
  | JArr (items : list json)
  | JObj (members : list (string * json)).

Definition is_ws (c : ascii) : bool :=
  (code c =? 32) || (code c =? 9) || (code c =? 10) || (code c =? 13).

Fixpoint skip_ws (s : list ascii) : list ascii :=
  match s with
  | c :: r => if is_ws c then skip_ws r else s
  | [] => []
  end.

Definition is_num_char (c : ascii) : bool :=
  ((48 <=? code c) && (code c <=? 57)) ||
  (code c =? 43) || (code c =? 45) || (code c =? 46) ||
  (code c =? 69) || (code c =? 101).

Fixpoint read_num (s : list ascii) : list ascii * list ascii :=
  match s with
  | c :: r =>
      if is_num_char c then let (n, rest) := read_num r in (c :: n, rest)
      else ([], s)
  | [] => ([], [])
  end.

(** After the opening quote: the characters up to the closing quote. *)
Fixpoint read_str (s : list ascii) : option (list ascii * list ascii) :=
  match s with
  | [] => None
  | c :: r =>
      if code c =? 34 then Some ([], r)
      else if code c =? 92 then
        match r with
        | e :: r' =>
            match read_str r' with
            | Some (t, rest) => Some (e :: t, rest)
            | None => None
            end
        | [] => None
        end
      else
        match read_str r with
        | Some (t, rest) => Some (c :: t, rest)
        | None => None
        end
  end.

Definition literal (lit : string) (s : list ascii) : option (list ascii) :=
  let l := list_ascii_of_string lit in
  if decide (take (length l) s = l) then Some (drop (length l) s) else None.

Fixpoint read_value (fuel : nat) (s : list ascii)
    : option (json * list ascii) :=
  match fuel with
  | O => None
  | S n =>
      match skip_ws s with
      | [] => None
      | c :: r =>
          if code c =? 123 then
            match skip_ws r with
            | c' :: r' =>
                if code c' =? 125 then Some (JObj [], r')
                else
                  match read_members n (skip_ws r) with
                  | Some (ms, rest) => Some (JObj ms, rest)
                  | None => None
                  end
            | [] => None
            end
          else if code c =? 91 then
            match skip_ws r with
            | c' :: r' =>
                if code c' =? 93 then Some (JArr [], r')
                else
                  match read_items n (skip_ws r) with
                  | Some (js, rest) => Some (JArr js, rest)
                  | None => None
                  end
            | [] => None
            end
          else if code c =? 34 then
            match read_str r with
            | Some (t, rest) => Some (JStr (string_of_list_ascii t), rest)
            | None => None
            end
          else if is_num_char c then
            let (t, rest) := read_num (c :: r) in
            Some (JNum (string_of_list_ascii t), rest)
          else
            match literal "true" (c :: r) with
            | Some rest => Some (JBool true, rest)
            | None =>
                match literal "false" (c :: r) with
                | Some rest => Some (JBool false, rest)
                | None =>
                    match literal "null" (c :: r) with
                    | Some rest => Some (JNull, rest)
                    | None => None
                    end
                end
            end
      end
  end
with read_members (fuel : nat) (s : list ascii)
    : option (list (string * json) * list ascii) :=
  match fuel with
  | O => None
  | S n =>
      match skip_ws s with
      | q :: r =>
          if code q =? 34 then
            match read_str r with
            | Some (k, r1) =>
                match skip_ws r1 with
                | colon :: r2 =>
                    if code colon =? 58 then
                      match read_value n r2 with
                      | Some (v, r3) =>
                          match skip_ws r3 with
                          | d :: r4 =>
                              if code d =? 125 then
                                Some ([(string_of_list_ascii k, v)], r4)
                              else if code d =? 44 then
                                match read_members n r4 with
                                | Some (ms, rest) =>
                                    Some ((string_of_list_ascii k, v) :: ms,
                                          rest)
                                | None => None
                                end
                              else None
                          | [] => None
                          end
                      | None => None
                      end
                    else None
                | [] => None
                end
            | None => None
            end
          else None
      | [] => None
      end
  end
with read_items (fuel : nat) (s : list ascii)
    : option (list json * list ascii) :=
  match fuel with
  | O => None
  | S n =>
      match read_value n s with
      | Some (v, r1) =>
          match skip_ws r1 with
          | d :: r2 =>
              if code d =? 93 then Some ([v], r2)
              else if code d =? 44 then
                match read_items n r2 with
                | Some (js, rest) => Some (v :: js, rest)
                | None => None
                end
              else None
          | [] => None
          end
      | None => None
      end
  end.

(** A document is one value followed by white space only. *)
Definition read (doc : string) : option json :=
  let s := list_ascii_of_string doc in
  match read_value (S (length s)) s with
  | Some (v, rest) =>
      match skip_ws rest with [] => Some v | _ => None end
  | None => None
  end.

Fixpoint assoc (k : string) (ms : list (string * json)) : option json :=
  match ms with
  | [] => None
  | (k', v) :: r => if String.eqb k k' then Some v else assoc k r
  end.

Definition member (k : string) (j : json) : option json :=
  match j with JObj ms => assoc k ms | _ => None end.

Definition item (i : nat) (j : json) : option json :=
  match j with JArr js => js !! i | _ => None end.

Definition has_key (k : string) (j : json) : bool :=
  match member k j with Some _ => true | None => false end.

(** A way into a document: member names and item positions. *)
Inductive hop := key (k : string) | idx (i : nat).

Fixpoint follow (p : list hop) (j : json) : option json :=
  match p with
  | [] => Some j
  | key k :: r => match member k j with Some v => follow r v | None => None end
  | idx i :: r => match item i j with Some v => follow r v | None => None end
  end.

End Reader.

(* ===================================================================== *)
(** * network.cpp: queued socket senders *)
(* ===================================================================== *)

Module Net.

(** [std::vector<unsigned char>] *)
Definition buffer := list Byte.byte.

Inductive error_code :=
  | success
  | connection_reset
  | broken_pipe
  | eof
  | operation_aborted
  | other_error.

(** [if(ec)] *)
Definition failed (ec : error_code) : bool :=
  match ec with success => false | _ => true end.

(** The two lambdas ever given to [m_retry_timer->async_wait]. *)
Inductive wait_handler :=
  | retry_perform_attempt
  | retry_async_connect.

(** A [deadline_timer]: the absolute expiry and the waits not yet run.
    Time is counted in milliseconds. *)
Record deadline_timer := {
  expiry : Z;
  waiting : list wait_handler
}.

(** One call of [attempt_send]: when, with which buffer, and its result. *)
Record attempt := { at_time : Z; at_buf : buffer; at_ok : bool }.

(** [SocketTarget], with the part of the world its methods touch: the
    clock, the handlers of cancelled waits (they run without waiting for
    the expiry), the calls of [perform_attempt] that a thread has yet to
    make after leaving its critical section, and the log of attempts.
    [child] is the state of the derived class. *)
Record SocketTarget (T : Type) := {
  m_queue : list buffer;
  m_pending : bool;
  m_retry_timer : deadline_timer;
  now : Z;
  aborted : list wait_handler;
  calls : nat;
  attempts : list attempt;
  child : T
}.
Arguments m_queue {T} _.
Arguments m_pending {T} _.
Arguments m_retry_timer {T} _.
Arguments now {T} _.
Arguments aborted {T} _.
Arguments calls {T} _.
Arguments attempts {T} _.
Arguments child {T} _.

(** [attempt_send] is pure virtual. *)
Class Transport (T : Type) := attempt_send : buffer → T → T * bool.

Section Base.
Context {T : Type} `{Transport T}.

Definition set_queue (q : list buffer) (s : SocketTarget T) :=
  {| m_queue := q; m_pending := m_pending s;
     m_retry_timer := m_retry_timer s; now := now s; aborted := aborted s;
     calls := calls s; attempts := attempts s; child := child s |}.

Definition set_pending (p : bool) (s : SocketTarget T) :=
  {| m_queue := m_queue s; m_pending := p;
     m_retry_timer := m_retry_timer s; now := now s; aborted := aborted s;
     calls := calls s; attempts := attempts s; child := child s |}.

Definition set_now (t : Z) (s : SocketTarget T) :=
  {| m_queue := m_queue s; m_pending := m_pending s;
     m_retry_timer := m_retry_timer s; now := t; aborted := aborted s;
     calls := calls s; attempts := attempts s; child := child s |}.

Definition set_calls (n : nat) (s : SocketTarget T) :=
  {| m_queue := m_queue s; m_pending := m_pending s;
     m_retry_timer := m_retry_timer s; now := now s; aborted := aborted s;
     calls := n; attempts := attempts s; child := child s |}.

Definition set_child (c : T) (s : SocketTarget T) :=
  {| m_queue := m_queue s; m_pending := m_pending s;
     m_retry_timer := m_retry_timer s; now := now s; aborted := aborted s;
     calls := calls s; attempts := attempts s; child := c |}.

Definition log_attempt (b : buffer) (ok : bool) (s : SocketTarget T) :=
  {| m_queue := m_queue s; m_pending := m_pending s;
     m_retry_timer := m_retry_timer s; now := now s; aborted := aborted s;
     calls := calls s;
     attempts := attempts s ++ [{| at_time := now s; at_buf := b;
                                   at_ok := ok |}];
     child := child s |}.

(** [m_retry_timer->expires_from_now()] *)
Definition expires_from_now (s : SocketTarget T) : Z :=
  expiry (m_retry_timer s) - now s.

(** [m_retry_timer->expires_from_now(d)]: the waits outstanding are
    cancelled, which runs their handlers, and the expiry moves. *)
Definition set_expires_from_now (d : Z) (s : SocketTarget T) :=
  {| m_queue := m_queue s; m_pending := m_pending s;
     m_retry_timer := {| expiry := now s + d; waiting := [] |};
     now := now s;
     aborted := aborted s ++ waiting (m_retry_timer s);
     calls := calls s; attempts := attempts s; child := child s |}.

Definition async_wait (h : wait_handler) (s : SocketTarget T) :=
  {| m_queue := m_queue s; m_pending := m_pending s;
     m_retry_timer := {| expiry := expiry (m_retry_timer s);
                         waiting := waiting (m_retry_timer s) ++ [h] |};
     now := now s; aborted := aborted s;
     calls := calls s; attempts := attempts s; child := child s |}.

(** [if(expires_from_now().is_negative()) expires_from_now(d);
     async_wait(h)] *)
Definition retry_after (d : Z) (h : wait_handler) (s : SocketTarget T) :=
  async_wait h
    (if expires_from_now s <? 0 then set_expires_from_now d s else s).

Definition perform_attempt (s : SocketTarget T) : SocketTarget T :=
  if m_pending s then s
  else
    match m_queue s with
    | [] => s
    | front :: _ =>
        let (c, ok) := attempt_send front (child s) in
        let s1 := log_attempt front ok (set_child c s) in
        if ok then set_pending true s1
        else retry_after 1000 retry_perform_attempt s1
    end.

(** [enqueue_send] up to the end of its critical section; the call of
    [perform_attempt] that follows is owed. *)
Definition enqueue_push (b : buffer) (s : SocketTarget T) :=
  set_calls (S (calls s)) (set_queue (m_queue s ++ [b]) s).

(** [enqueue_send] run without interruption. *)
Definition enqueue_send (b : buffer) (s : SocketTarget T) :=
  perform_attempt (set_queue (m_queue s ++ [b]) s).

(** [on_transmit_succeed] up to the end of its critical section. *)
(* [pop_front] is only reached from the completion of a send, when the
   buffer sent is still at the front. *)
Definition on_transmit_succeed (s : SocketTarget T) :=
  set_calls (S (calls s)) (set_queue (tail (m_queue s)) (set_pending false s)).

Definition on_transmit_fail (s : SocketTarget T) :=
  retry_after 250 retry_perform_attempt (set_pending false s).

(** The constructor, at time [t0]. *)
Definition init (t0 : Z) (c : T) : SocketTarget T :=
  {| m_queue := []; m_pending := false;
     m_retry_timer := {| expiry := t0 + 0; waiting := [] |};
     now := t0; aborted := []; calls := O; attempts := []; child := c |}.

(** The reactor runs one wait handler that is due: one of a cancelled
    wait, or else, once the expiry is reached, one waiting on the timer. *)
Definition fire (run_wait : wait_handler → SocketTarget T → SocketTarget T)
    (s : SocketTarget T) : option (SocketTarget T) :=
  match aborted s with
  | h :: r =>
      Some (run_wait h
        {| m_queue := m_queue s; m_pending := m_pending s;
           m_retry_timer := m_retry_timer s; now := now s; aborted := r;
           calls := calls s; attempts := attempts s; child := child s |})
  | [] =>
      if expiry (m_retry_timer s) <=? now s then
        match waiting (m_retry_timer s) with
        | h :: r =>
            Some (run_wait h
              {| m_queue := m_queue s; m_pending := m_pending s;
                 m_retry_timer := {| expiry := expiry (m_retry_timer s);
                                     waiting := r |};
                 now := now s; aborted := aborted s;
                 calls := calls s; attempts := attempts s;
                 child := child s |})
        | [] => None
        end
      else None
  end.

End Base.

(** What happens around a sender: time passes, the frame thread queues a
    buffer, a thread makes the call of [perform_attempt] it owes, the
    reactor runs a due wait handler, the oldest outstanding send completes,
    the oldest outstanding connect completes. *)
Inductive event :=
  | ev_tick (d : Z)
  | ev_push (b : buffer)
  | ev_call
  | ev_timer
  | ev_sent (ec : error_code)
  | ev_connected (ec : error_code).

(** ** UDPTarget *)

(** The sends handed to the socket and not yet completed. *)
Record UDPTarget := { udp_sending : list buffer }.

#[export] Instance udp_transport : Transport UDPTarget :=
  fun buf t => ({| udp_sending := udp_sending t ++ [buf] |}, true).

(** The completion lambda of [async_send_to]. *)
Definition udp_sent (ec : error_code) (s : SocketTarget UDPTarget) :=
  if failed ec then on_transmit_fail s else on_transmit_succeed s.

Definition udp_wait (h : wait_handler) (s : SocketTarget UDPTarget) :=
  match h with
  | retry_perform_attempt => perform_attempt s
  | retry_async_connect => s
  end.

Definition udp_step (e : event) (s : SocketTarget UDPTarget)
    : option (SocketTarget UDPTarget) :=
  match e with
  | ev_tick d => if 0 <=? d then Some (set_now (now s + d) s) else None
  | ev_push b => Some (enqueue_push b s)
  | ev_call =>
      match calls s with
      | O => None
      | S n => Some (perform_attempt (set_calls n s))
      end
  | ev_timer => fire udp_wait s
  | ev_sent ec =>
      match udp_sending (child s) with
      | [] => None
      | _ :: r => Some (udp_sent ec (set_child {| udp_sending := r |} s))
      end
  | ev_connected _ => None
  end.

Fixpoint udp_run (evs : list event) (s : SocketTarget UDPTarget)
    : option (SocketTarget UDPTarget) :=
  match evs with
  | [] => Some s
  | e :: r => match udp_step e s with Some s1 => udp_run r s1 | None => None end
  end.

Definition udp_init : SocketTarget UDPTarget :=
  init 0 {| udp_sending := [] |}.

#[export] Instance udp_target : DumpTarget (SocketTarget UDPTarget) :=
  fun data s => enqueue_send (list_byte_of_string data) s.

(** ** TCPTarget *)

(** The flag, the writes handed to the socket and not yet completed, and
    the number of connects outstanding. *)
Record TCPTarget := {
  m_connected : bool;
  tcp_sending : list buffer;
  connecting : nat
}.

#[export] Instance tcp_transport : Transport TCPTarget :=
  fun buf t =>
    if negb (m_connected t) then (t, false)
    else ({| m_connected := m_connected t;
             tcp_sending := tcp_sending t ++ [buf];
             connecting := connecting t |}, true).

(** [m_sock->async_connect(m_tgt, ...)] *)
Definition async_connect (t : TCPTarget) : TCPTarget :=
  {| m_connected := m_connected t; tcp_sending := tcp_sending t;
     connecting := S (connecting t) |}.

Definition set_connected (b : bool) (t : TCPTarget) : TCPTarget :=
  {| m_connected := b; tcp_sending := tcp_sending t;
     connecting := connecting t |}.

(** The completion lambda of [async_write]. *)
Definition tcp_sent (ec : error_code) (s : SocketTarget TCPTarget) :=
  if failed ec then
    let s1 :=
      match ec with
      | connection_reset | broken_pipe =>
          set_child (async_connect (set_connected false (child s))) s
      | _ => s
      end in
    on_transmit_fail s1
  else on_transmit_succeed s.

Definition handle_connect_result (ec : error_code)
    (s : SocketTarget TCPTarget) :=
  if negb (failed ec) then set_child (set_connected true (child s)) s
  else retry_after 5000 retry_async_connect s.

Definition tcp_wait (h : wait_handler) (s : SocketTarget TCPTarget) :=
  match h with
  | retry_perform_attempt => perform_attempt s
  | retry_async_connect => set_child (async_connect (child s)) s
  end.

Definition tcp_step (e : event) (s : SocketTarget TCPTarget)
    : option (SocketTarget TCPTarget) :=
  match e with
  | ev_tick d => if 0 <=? d then Some (set_now (now s + d) s) else None
  | ev_push b => Some (enqueue_push b s)
  | ev_call =>
      match calls s with
      | O => None
      | S n => Some (perform_attempt (set_calls n s))
      end
  | ev_timer => fire tcp_wait s
  | ev_sent ec =>
      match tcp_sending (child s) with
      | [] => None
      | _ :: r =>
          Some (tcp_sent ec
                  (set_child {| m_connected := m_connected (child s);
                                tcp_sending := r;
                                connecting := connecting (child s) |} s))
      end
  | ev_connected ec =>
      match connecting (child s) with
      | O => None
      | S n =>
          Some (handle_connect_result ec
                  (set_child {| m_connected := m_connected (child s);
                                tcp_sending := tcp_sending (child s);
                                connecting := n |} s))
      end
  end.

Fixpoint tcp_run (evs : list event) (s : SocketTarget TCPTarget)
    : option (SocketTarget TCPTarget) :=
  match evs with
  | [] => Some s
  | e :: r => match tcp_step e s with Some s1 => tcp_run r s1 | None => None end
  end.

(** The constructor starts a connect; [m_connected] is not initialised, so
    its first value is whatever [garbage] the memory held. *)
Definition tcp_init (garbage : bool) : SocketTarget TCPTarget :=
  init 0 {| m_connected := garbage; tcp_sending := []; connecting := 1 |}.


End Net.

(* ===================================================================== *)
(** * http_util.cpp: response codes, headers, URLs *)
(* ===================================================================== *)

Module http.

Inductive Method := GET | POST | PUT.

Module ResponseCode.

Inductive Type_ :=
  | INFORMATIONAL
  | SUCCESS
  | REDIRECTION
  | CLIENT_ERROR
  | SERVER_ERROR
  | UNKNOWN.

(** [unsigned char d[3]] *)
Record t := { d0 : Z; d1 : Z; d2 : Z }.

Definition type (c : t) : Type_ :=
  match d0 c with
  | 1 => INFORMATIONAL
  | 2 => SUCCESS
  | 3 => REDIRECTION
  | 4 => CLIENT_ERROR
  | 5 => SERVER_ERROR
  | _ => UNKNOWN
  end.

Definition as_int (c : t) : Z := 100 * d0 c + 10 * d1 c + d2 c.

Definition Type_eqb (a b : Type_) : bool :=
  match a, b with
  | INFORMATIONAL, INFORMATIONAL | SUCCESS, SUCCESS
  | REDIRECTION, REDIRECTION | CLIENT_ERROR, CLIENT_ERROR
  | SERVER_ERROR, SERVER_ERROR | UNKNOWN, UNKNOWN => true
  | _, _ => false
  end.

End ResponseCode.

Definition DEFAULT_USER_AGENT : string := "pdfw-httptarget/1.0".

Definition tolower (c : ascii) : ascii :=
  if (65 <=? code c) && (code c <=? 90)
  then ascii_of_N (Z.to_N (code c + 32)) else c.

Fixpoint lowercase (s : string) : string :=
  match s with
  | EmptyString => EmptyString
  | String c r => String (tolower c) (lowercase r)
  end.

(** [std::map<string, string>]: the entries in the order of their keys. *)
Fixpoint map_set (k v : string) (m : list (string * string))
    : list (string * string) :=
  match m with
  | [] => [(k, v)]
  | (k', v') :: r =>
      if String.eqb k k' then (k, v) :: r
      else if String.ltb k k' then (k, v) :: m
      else (k', v') :: map_set k v r
  end.

Fixpoint map_find (k : string) (m : list (string * string)) : option string :=
  match m with
  | [] => None
  | (k', v) :: r => if String.eqb k k' then Some v else map_find k r
  end.

Module Headers.

Record t := { m_map : list (string * string) }.

Definition new : t := {| m_map := map_set "user-agent" DEFAULT_USER_AGENT [] |}.

Definition set (header value : string) (h : t) : t :=
  {| m_map := map_set (lowercase header) value (m_map h) |}.

Definition get (header : string) (h : t) : option string :=
  map_find (lowercase header) (m_map h).

Definition get_all (h : t) : list (string * string) := m_map h.

(** [emplace] leaves a key that is present alone. *)
Definition augment (other : t) (h : t) : t :=
  {| m_map := fold_left
       (fun m kv => match map_find (fst kv) m with
                    | Some _ => m
                    | None => map_set (fst kv) (snd kv) m
                    end) (m_map other) (m_map h) |}.

End Headers.

Definition RESERVED_CHARS : string :=
  String "010" " !*'():;@&=+$,/?#[]".
Definition HEX_DIGITS : string := "0123456789ABCDEF".

Fixpoint mem_char (c : ascii) (s : string) : bool :=
  match s with
  | EmptyString => false
  | String c' r => Ascii.eqb c c' || mem_char c r
  end.

Definition hex_digit (n : Z) : ascii :=
  match String.get (Z.to_nat n) HEX_DIGITS with Some c => c | None => "0" end.

Fixpoint urlencode (s : string) : string :=
  match s with
  | EmptyString => EmptyString
  | String c r =>
      if mem_char c RESERVED_CHARS then
        String "%" (String (hex_digit (Z.land (Z.shiftr (code c) 4) 15))
          (String (hex_digit (Z.land (code c) 15)) (urlencode r)))
      else String c (urlencode r)
  end.

Module URL.

(** The query is kept either as text or as keys and values. *)
Inductive query_t :=
  | query_string (q : string)
  | query_map (kv : list (string * string)).

Record t := {
  m_scheme : string;
  m_host : string;
  m_port : option Z;
  m_path : option (list string);
  m_query : query_t;
  m_frag : option string
}.

Definition host (u : t) : string := m_host u.

Definition port_or_infer (u : t) : Z :=
  match m_port u with
  | Some p => p
  | None =>
      if String.eqb (m_scheme u) "http" then 80
      else if String.eqb (m_scheme u) "https" then 443
      else 80
  end.

Definition path (u : t) : string :=
  match m_path u with
  | Some parts => fold_left (fun r c => r +:+ "/" +:+ c) parts EmptyString
  | None => "/"
  end.

Fixpoint query_kv (first_elem : bool) (kv : list (string * string)) : string :=
  match kv with
  | [] => EmptyString
  | (k, v) :: r =>
      (if first_elem then "?" else "&") +:+ urlencode k +:+ "=" +:+
      urlencode v +:+ query_kv false r
  end.

Definition query (u : t) : string :=
  match m_query u with
  | query_string q => "?" +:+ q
  | query_map kv => query_kv true kv
  end.

Definition make_request_target (abs : bool) (u : t) : string :=
  if abs then m_scheme u +:+ "://" +:+ m_host u +:+ path u +:+ query u
  else path u +:+ query u.

Definition set_scheme (v : string) (u : t) : t :=
  {| m_scheme := v; m_host := m_host u; m_port := m_port u;
     m_path := m_path u; m_query := m_query u; m_frag := m_frag u |}.
Definition set_host (v : string) (u : t) : t :=
  {| m_scheme := m_scheme u; m_host := v; m_port := m_port u;
     m_path := m_path u; m_query := m_query u; m_frag := m_frag u |}.
Definition set_port (v : Z) (u : t) : t :=
  {| m_scheme := m_scheme u; m_host := m_host u; m_port := Some v;
     m_path := m_path u; m_query := m_query u; m_frag := m_frag u |}.
Definition set_path (v : option (list string)) (u : t) : t :=
  {| m_scheme := m_scheme u; m_host := m_host u; m_port := m_port u;
     m_path := v; m_query := m_query u; m_frag := m_frag u |}.
Definition set_query (v : string) (u : t) : t :=
  {| m_scheme := m_scheme u; m_host := m_host u; m_port := m_port u;
     m_path := m_path u; m_query := query_string v; m_frag := m_frag u |}.
Definition set_fragment (v : string) (u : t) : t :=
  {| m_scheme := m_scheme u; m_host := m_host u; m_port := m_port u;
     m_path := m_path u; m_query := m_query u; m_frag := Some v |}.

(** The loop of [path(string)]: the pieces that a slash closes, and what
    follows the last slash ([cur] is the piece being read). *)
Fixpoint split_slash (cur : string) (s : string) : list string * string :=
  match s with
  | EmptyString => ([], cur)
  | String c r =>
      if Ascii.eqb c "/" then
        let (ps, rest) := split_slash EmptyString r in (cur :: ps, rest)
      else split_slash (cur +:+ String c EmptyString) r
  end.

(** [path(string pth)].  After the loop [last] is where the rest starts;
    the rest is kept when [last < pth.size() - 1], a comparison of
    unsigned 64-bit numbers. *)
Definition path_string (pth : string) (u : t) : t :=
  let (parts, rest) := split_slash EmptyString pth in
  let size := Z.of_nat (String.length pth) in
  let last := size - Z.of_nat (String.length rest) in
  set_path
    (Some (if last <? (size - 1) mod 2 ^ 64 then parts ++ [rest] else parts))
    u.

(** [push] and [pop]; nothing is defined for [pop_back] on a list that is
    empty. *)
Definition push (part : string) (u : t) : t :=
  set_path (Some (default [] (m_path u) ++ [part])) u.

Definition pop (u : t) : outcome t :=
  match m_path u with
  | None => Returns u
  | Some [] => Undefined
  | Some parts =>
      match removelast parts with
      | [] => Returns (set_path None u)
      | l => Returns (set_path (Some l) u)
      end
  end.

Inductive UrlParseState :=
  | S_SCHEME | S_SLASH_1 | S_SLASH_2
  | S_HOST | S_PORT | S_PATH | S_QUERY | S_FRAG.

(** A URL whose members are as their default constructors leave them. *)
Definition blank : t :=
  {| m_scheme := EmptyString; m_host := EmptyString; m_port := None;
     m_path := None; m_query := query_string EmptyString; m_frag := None |}.

Definition is_space (c : ascii) : bool :=
  (code c =? 32) || ((9 <=? code c) && (code c <=? 13)).
Definition is_digit (c : ascii) : bool := (48 <=? code c) && (code c <=? 57).

Fixpoint skip_space (s : string) : string :=
  match s with
  | String c r => if is_space c then skip_space r else s
  | EmptyString => EmptyString
  end.

Fixpoint digits_value (acc : Z) (s : string) : Z :=
  match s with
  | String c r =>
      if is_digit c then digits_value (10 * acc + (code c - 48)) r else acc
  | EmptyString => acc
  end.

(** [atoi]: blanks, a sign, digits; nothing is defined for a value that
    does not fit an [int]. *)
Definition atoi (s : string) : outcome Z :=
  let s1 := skip_space s in
  let v :=
    match s1 with
    | String "-" r => - digits_value 0 r
    | String "+" r => digits_value 0 r
    | _ => digits_value 0 s1
    end in
  if (- 2 ^ 31 <=? v) && (v <? 2 ^ 31) then Returns v else Undefined.

Definition invalid {A} : outcome A := Throws "Invalid URL given".

(** One turn of the loop of [URL(string)]: the state, [top] and the URL
    under construction. *)
Definition feed (c : ascii) (st : UrlParseState * string * t)
    : outcome (UrlParseState * string * t) :=
  let '(state, top, u) := st in
  let more := top +:+ String c EmptyString in
  match state with
  | S_SCHEME =>
      if Ascii.eqb c ":" then Returns (S_SLASH_1, EmptyString, set_scheme top u)
      else Returns (S_SCHEME, more, u)
  | S_SLASH_1 =>
      if Ascii.eqb c "/" then Returns (S_SLASH_2, top, u) else invalid
  | S_SLASH_2 =>
      if Ascii.eqb c "/" then Returns (S_HOST, top, u) else invalid
  | S_HOST =>
      if Ascii.eqb c ":" then Returns (S_PORT, EmptyString, set_host top u)
      else if Ascii.eqb c "/" then Returns (S_PATH, "/", set_host top u)
      else Returns (S_HOST, more, u)
  | S_PORT =>
      if Ascii.eqb c "/" then
        p ← atoi top; Returns (S_PATH, EmptyString, set_port p u)
      else Returns (S_PORT, more, u)
  | S_PATH =>
      if Ascii.eqb c "?" then Returns (S_QUERY, EmptyString, path_string top u)
      else if Ascii.eqb c "#" then
        Returns (S_FRAG, EmptyString, path_string top u)
      else Returns (S_PATH, more, u)
  | S_QUERY =>
      if Ascii.eqb c "?" then Returns (S_FRAG, EmptyString, set_query top u)
      else Returns (S_QUERY, more, u)
  | S_FRAG => Returns (S_FRAG, more, u)
  end.

Fixpoint feed_all (s : string) (st : UrlParseState * string * t)
    : outcome (UrlParseState * string * t) :=
  match s with
  | EmptyString => Returns st
  | String c r => st1 ← feed c st; feed_all r st1
  end.

(** What the constructor does once the string is read. *)
Definition finalize (st : UrlParseState * string * t) : outcome t :=
  let '(state, top, u) := st in
  match state with
  | S_HOST => Returns (set_host top u)
  | S_PORT => p ← atoi top; Returns (set_port p u)
  | S_PATH => Returns (path_string top u)
  | S_QUERY => Returns (set_query top u)
  | S_FRAG => Returns (set_fragment top u)
  | _ => invalid
  end.

(** [URL(string s)] *)
Definition parse (s : string) : outcome t :=
  st ← feed_all s (S_SCHEME, EmptyString, blank); finalize st.

(** [URL(scheme, host, port)] *)
Definition make (scheme host : string) (port : Z) : t :=
  {| m_scheme := scheme; m_host := host; m_port := Some port;
     m_path := None; m_query := query_string EmptyString; m_frag := None |}.

End URL.

(* ===================================================================== *)
(** * http.cpp: requests and responses *)
(* ===================================================================== *)

Module Request.

Record t := {
  m_method : Method;
  m_url : URL.t;
  m_hdrs : Headers.t;
  m_follow_redirects : bool
}.

Definition new (m : Method) (url : URL.t) : t :=
  {| m_method := m; m_url := url; m_hdrs := Headers.new;
     m_follow_redirects := true |}.

Definition get (url : URL.t) : t := new GET url.
Definition post (url : URL.t) : t := new POST url.
Definition put (url : URL.t) : t := new PUT url.

Definition header (hdr value : string) (r : t) : t :=
  {| m_method := m_method r; m_url := m_url r;
     m_hdrs := Headers.set hdr value (m_hdrs r);
     m_follow_redirects := m_follow_redirects r |}.

End Request.

Module Response.

Record t := {
  m_request : Request.t;
  m_hdrs : Headers.t;
  m_code : ResponseCode.t;
  m_body : string
}.

(** The constructor: default headers and a fresh, empty body. *)
Definition new (r : Request.t) (c : ResponseCode.t) : t :=
  {| m_request := r; m_hdrs := Headers.new; m_code := c;
     m_body := EmptyString |}.

(** [operator bool] *)
Definition to_bool (r : t) : bool :=
  ResponseCode.Type_eqb (ResponseCode.type (m_code r)) ResponseCode.SUCCESS.

Definition set_headers (h : Headers.t) (r : t) : t :=
  {| m_request := m_request r; m_hdrs := h; m_code := m_code r;
     m_body := m_body r |}.

Definition set_body (b : string) (r : t) : t :=
  {| m_request := m_request r; m_hdrs := m_hdrs r; m_code := m_code r;
     m_body := b |}.

End Response.

(* ===================================================================== *)
(** * http.cpp: HTTPConnection *)
(* ===================================================================== *)

Module HTTPConnection.

Definition CR : ascii := "013".
Definition LF : ascii := "010".
Definition CRLF : string := String CR (String LF EmptyString).

(** A completion handler is known by a number; what it was called with is
    what matters. *)
Definition handler := nat.

(** The operation started on [m_sock], with the handler bound to it. *)
Inductive async_op :=
  | op_write
  | op_read_until
  | op_read_exactly (len : Z) (http_version : Z)
  | op_read_all (http_version : Z).

(** What the connection does to the outside. *)
Inductive act :=
  | a_send (data : string)
  | a_call (h : handler) (ec : Net.error_code) (r : option Response.t)
  | a_close
  | a_onclose.

Record t := {
  m_queue : list (Request.t * handler);
  m_pending : bool;
  m_work : option (Request.t * handler);
  m_temp_buffer : string;
  m_recv_buffer : string;
  m_response : option Response.t;
  ops : list async_op;
  trace : list act
}.

Definition new : t :=
  {| m_queue := []; m_pending := false; m_work := None;
     m_temp_buffer := EmptyString; m_recv_buffer := EmptyString;
     m_response := None; ops := []; trace := [] |}.

Definition emit (a : act) (s : t) : t :=
  {| m_queue := m_queue s; m_pending := m_pending s; m_work := m_work s;
     m_temp_buffer := m_temp_buffer s; m_recv_buffer := m_recv_buffer s;
     m_response := m_response s; ops := ops s; trace := trace s ++ [a] |}.

Definition start (op : async_op) (s : t) : t :=
  {| m_queue := m_queue s; m_pending := m_pending s; m_work := m_work s;
     m_temp_buffer := m_temp_buffer s; m_recv_buffer := m_recv_buffer s;
     m_response := m_response s; ops := ops s ++ [op]; trace := trace s |}.

Definition set_temp_buffer (b : string) (s : t) : t :=
  {| m_queue := m_queue s; m_pending := m_pending s; m_work := m_work s;
     m_temp_buffer := b; m_recv_buffer := m_recv_buffer s;
     m_response := m_response s; ops := ops s; trace := trace s |}.

Definition set_recv_buffer (b : string) (s : t) : t :=
  {| m_queue := m_queue s; m_pending := m_pending s; m_work := m_work s;
     m_temp_buffer := m_temp_buffer s; m_recv_buffer := b;
     m_response := m_response s; ops := ops s; trace := trace s |}.

Definition set_response (r : option Response.t) (s : t) : t :=
  {| m_queue := m_queue s; m_pending := m_pending s; m_work := m_work s;
     m_temp_buffer := m_temp_buffer s; m_recv_buffer := m_recv_buffer s;
     m_response := r; ops := ops s; trace := trace s |}.

(** [m_recv_buffer.consume(m_recv_buffer.size())] *)
Definition consume_all (s : t) : t := set_recv_buffer EmptyString s.

Definition method_token (m : Method) : string :=
  match m with POST => "POST " | PUT => "PUT " | GET => "GET " end.

Fixpoint header_lines (kvs : list (string * string)) : string :=
  match kvs with
  | [] => EmptyString
  | (k, v) :: r => k +:+ ": " +:+ v +:+ CRLF +:+ header_lines r
  end.

(** [encode_request]: what goes into [m_temp_buffer]. *)
Definition encode_request (r : Request.t) : string :=
  method_token (Request.m_method r) +:+
  URL.make_request_target false (Request.m_url r) +:+ " HTTP/1.1" +:+ CRLF +:+
  header_lines (Headers.get_all (Request.m_hdrs r)) +:+ CRLF.

Definition attempt_request (s : t) : t :=
  if m_pending s then s
  else
    match m_queue s with
    | [] => s
    | w :: rest =>
        let s1 :=
          {| m_queue := rest; m_pending := true; m_work := Some w;
             m_temp_buffer := encode_request (fst w);
             m_recv_buffer := m_recv_buffer s; m_response := m_response s;
             ops := ops s; trace := trace s |} in
        start op_write (emit (a_send (m_temp_buffer s1)) s1)
    end.

Definition async_request (req : Request.t) (h : handler) (s : t) : t :=
  attempt_request
    {| m_queue := m_queue s ++ [(req, h)]; m_pending := m_pending s;
       m_work := m_work s; m_temp_buffer := m_temp_buffer s;
       m_recv_buffer := m_recv_buffer s; m_response := m_response s;
       ops := ops s; trace := trace s |}.

Definition finish_request (s : t) : t :=
  attempt_request
    {| m_queue := m_queue s; m_pending := false; m_work := None;
       m_temp_buffer := EmptyString; m_recv_buffer := m_recv_buffer s;
       m_response := m_response s; ops := ops s; trace := trace s |}.

(** Every handler of the backlog is called with [ec] and no response; the
    backlog itself is left as it is. *)
Definition fail_backlog (ec : Net.error_code) (s : t) : t :=
  fold_left (fun s' w => emit (a_call (snd w) ec None) s') (m_queue s) s.

(** Calling an empty [std::function] throws. *)
Definition work (s : t) : outcome (Request.t * handler) :=
  match m_work s with
  | Some w => Returns w
  | None => Throws "bad_function_call"
  end.

Definition fail_request (ec : Net.error_code) (s : t) : outcome t :=
  match ec with
  | Net.connection_reset | Net.broken_pipe | Net.eof =>
      Returns (emit a_onclose (emit a_close (fail_backlog ec s)))
  | _ =>
      w ← work s;
      Returns (finish_request (emit (a_call (snd w) ec None) s))
  end.

(** The completion lambda of the write in [attempt_request]. *)
Definition on_written (ec : Net.error_code) (s : t) : outcome t :=
  if Net.failed ec then fail_request ec s
  else Returns (start op_read_until (consume_all s)).

(** The loop over [m_temp_buffer] that cuts lines at CR LF; [temp] starts
    out holding the bytes received.  Reading [*i] after a CR that ends the
    buffer is a read past the end. *)
Fixpoint split_lines (temp : string) (buf : list ascii) (lines : list string)
    : outcome (list string * string) :=
  match buf with
  | [] => Returns (lines, temp)
  | c :: r =>
      if Ascii.eqb c CR then
        match r with
        | [] => Undefined
        | c2 :: r2 =>
            if Ascii.eqb c2 LF then split_lines EmptyString r2 (lines ++ [temp])
            else split_lines (temp +:+ String c EmptyString) r lines
        end
      else split_lines (temp +:+ String c EmptyString) r lines
  end.

(** [s[i]]: the terminating zero at [i = size()], nothing defined beyond. *)
Definition char_at (s : string) (i : nat) : outcome ascii :=
  match String.get i s with
  | Some c => Returns c
  | None => if decide (i = String.length s) then Returns "000"%char
            else Undefined
  end.

(** [line.compare(0, n, lit) == 0] *)
Definition starts_with (n : nat) (lit line : string) : bool :=
  String.eqb (substring 0 n line) lit.

Fixpoint drop_spaces (s : string) : string :=
  match s with
  | String c r => if Ascii.eqb c " " then drop_spaces r else s
  | EmptyString => EmptyString
  end.

(** [l.find(':')] and the two pieces around it. *)
Fixpoint split_colon (l : string) : option (string * string) :=
  match l with
  | EmptyString => None
  | String c r =>
      if Ascii.eqb c ":" then Some (EmptyString, r)
      else match split_colon r with
           | Some (k, v) => Some (String c k, v)
           | None => None
           end
  end.

(** The header loop; [None] stands for a line without a colon. *)
Fixpoint process_headers (lines : list string) (hdrs : Headers.t)
    : option Headers.t :=
  match lines with
  | [] => Some hdrs
  | l :: rest =>
      if String.eqb l EmptyString then Some hdrs
      else
        match split_colon l with
        | None => None
        | Some (key, after) =>
            process_headers rest (Headers.set key (drop_spaces after) hdrs)
        end
  end.

(** [c_str()]: the characters before the first zero. *)
Fixpoint c_str (s : string) : string :=
  match s with
  | EmptyString => EmptyString
  | String c r => if Ascii.eqb c "000" then EmptyString else String c (c_str r)
  end.

Definition isspace (c : ascii) : bool :=
  (code c =? 32) || ((9 <=? code c) && (code c <=? 13)).
Definition isdigit (c : ascii) : bool := (48 <=? code c) && (code c <=? 57).

Fixpoint skip_spaces (s : string) : string :=
  match s with
  | String c r => if isspace c then skip_spaces r else s
  | EmptyString => EmptyString
  end.

(** The digits at the front of [s], their value so far, and what follows;
    [None] when there is no digit. *)
Fixpoint digits (acc : option Z) (s : string) : option Z * string :=
  match s with
  | String c r =>
      if isdigit c
      then digits (Some (10 * default 0 acc + (code c - 48))) r
      else (acc, s)
  | EmptyString => (acc, s)
  end.

Definition ULONG_MAX : Z := 2^64 - 1.

(** [strtoul(s, &p, 10)] on a 64-bit [unsigned long]: the value and the
    text [p] is left pointing at. *)
Definition strtoul (s : string) : Z * string :=
  let s1 := skip_spaces s in
  let '(neg, s2) :=
    match s1 with
    | String "-" r => (true, r)
    | String "+" r => (false, r)
    | _ => (false, s1)
    end in
  match digits None s2 with
  | (None, _) => (0, s)
  | (Some v, rest) =>
      if ULONG_MAX <? v then (ULONG_MAX, rest)
      else ((if neg then (2^64 - v) mod 2^64 else v), rest)
  end.

Definition on_header_recvd (ec : Net.error_code) (s : t) : outcome t :=
  if Net.failed ec then fail_request ec s
  else
    let temp := m_recv_buffer s in
    let s := consume_all s in
    '(lines, temp) ← split_lines temp (list_ascii_of_string (m_temp_buffer s)) [];
    let lines := if String.eqb temp EmptyString then lines else lines ++ [temp] in
    let s := set_temp_buffer EmptyString s in
    match lines with
    | [] => fail_request ec s
    | line0 :: lines =>
        (* [http_version] is assigned only inside the branch below that
           fails and returns; past it, it still holds its initial 0 *)
        let http_version := 0 in
        if negb (starts_with 9 "HTTP/1.1 " line0) &&
           negb (starts_with 9 "HTTP/1.0 " line0)
        then fail_request ec s
        else
          c0 ← char_at line0 9;
          c1 ← char_at line0 10;
          c2 ← char_at line0 11;
          let code_ :=
            {| ResponseCode.d0 := wrap_uchar (code c0 - 48);
               ResponseCode.d1 := wrap_uchar (code c1 - 48);
               ResponseCode.d2 := wrap_uchar (code c2 - 48) |} in
          if (9 <? ResponseCode.d0 code_) && (9 <? ResponseCode.d1 code_) &&
             (9 <? ResponseCode.d2 code_)
          then fail_request ec s
          else
            match process_headers lines Headers.new with
            | None => fail_request ec s
            | Some hdrs =>
                match m_work s with
                | None => Undefined
                | Some w =>
                    let s :=
                      set_response
                        (Some (Response.set_headers hdrs
                                 (Response.new (fst w) code_))) s in
                    match Headers.get "Content-Length" hdrs with
                    | Some ct_len =>
                        let (len, p) := strtoul (c_str ct_len) in
                        if negb (String.eqb p EmptyString)
                        then fail_request ec s
                        else Returns (start (op_read_exactly len http_version) s)
                    | None => Returns (start (op_read_all http_version) s)
                    end
                end
            end
    end.

(** [asio::buffer_copy(asio::buffer(dst), src)]: as many bytes as the
    smaller of the two holds, written over the front of [dst]. *)
Definition buffer_copy (dst src : string) : string :=
  let n := Nat.min (String.length dst) (String.length src) in
  substring 0 n src +:+ substring n (String.length dst - n) dst.

(** The socket is closed, the backlog failed and the owner told. *)
Definition close_connection (s : t) : t :=
  emit a_onclose (fail_backlog Net.eof (emit a_close s)).

Definition on_body_recvd (http_version : Z) (ec : Net.error_code) (s : t)
    : outcome t :=
  if Net.failed ec then fail_request ec (consume_all s)
  else
    match m_response s with
    | None => Undefined
    | Some resp =>
        (* [reserve] leaves the size of the body as it is *)
        let bodyv := buffer_copy (Response.m_body resp) (m_recv_buffer s) in
        let s := consume_all s in
        w ← work s;
        (* the response is moved into the call: [m_response] is null after *)
        let s := set_response None
                   (emit (a_call (snd w) ec
                            (Some (Response.set_body bodyv resp))) s) in
        if http_version =? 11 then
          match m_response s with
          | None => Undefined
          | Some r =>
              if String.eqb
                   (default "close" (Headers.get "connection" (Response.m_hdrs r)))
                   "Keep-Alive"
              then Returns (finish_request s)
              else Returns (close_connection s)
          end
        else Returns (close_connection s)
    end.

(** ** The connection driven by its socket *)

Definition DELIM : string := CRLF +:+ CRLF.

Definition contains (needle hay : string) : bool :=
  match String.index 0 needle hay with Some _ => true | None => false end.

(** What asio allows the oldest operation to complete with: [data] is what
    the operation moved into [m_recv_buffer].  A read up to the delimiter
    succeeds once the buffer holds it, and may have read beyond; a read of
    exactly [len] bytes succeeds with [len] bytes and fails with fewer; a
    read with no bound ends only with an error. *)
Definition allowed (op : async_op) (ec : Net.error_code) (data : string)
    (s : t) : bool :=
  match op with
  | op_write => String.eqb data EmptyString
  | op_read_until =>
      Net.failed ec || contains DELIM (m_recv_buffer s +:+ data)
  | op_read_exactly len _ =>
      if Net.failed ec then Z.of_nat (String.length data) <? len
      else Z.of_nat (String.length data) =? len
  | op_read_all _ => Net.failed ec
  end.

Definition complete (ec : Net.error_code) (data : string) (s : t)
    : option (outcome t) :=
  match ops s with
  | [] => None
  | op :: rest =>
      if allowed op ec data s then
        let s1 :=
          {| m_queue := m_queue s; m_pending := m_pending s;
             m_work := m_work s; m_temp_buffer := m_temp_buffer s;
             m_recv_buffer := m_recv_buffer s +:+ data;
             m_response := m_response s; ops := rest; trace := trace s |} in
        Some match op with
             | op_write => on_written ec s1
             | op_read_until => on_header_recvd ec s1
             | op_read_exactly _ v => on_body_recvd v ec s1
             | op_read_all v => on_body_recvd v ec s1
             end
      else None
  end.

Inductive event :=
  | ev_request (req : Request.t) (h : handler)
  | ev_complete (ec : Net.error_code) (data : string).

Definition step (e : event) (s : t) : option (outcome t) :=
  match e with
  | ev_request req h => Some (Returns (async_request req h s))
  | ev_complete ec data => complete ec data s
  end.

(** A run stops at the first event that does not return. *)
Fixpoint run (evs : list event) (s : t) : option (outcome t) :=
  match evs with
  | [] => Some (Returns s)
  | e :: r =>
      match step e s with
      | Some (Returns s1) => run r s1
      | other => other
      end
  end.

(** What [HTTPTarget::submit] wraps around the caller's handler. *)
Definition delivered (a : act) : option (handler * option Response.t) :=
  match a with
  | a_call h ec r => Some (h, if Net.failed ec then None else r)
  | _ => None
  end.

End HTTPConnection.

(* ===================================================================== *)
(** * http.cpp: HTTPTarget *)
(* ===================================================================== *)

Module HTTPTarget.

(** A connection object is known by a number (its identity). *)
Definition conn := nat.

(** What the target is waiting for: the resolver, or the connect of a
    connection; each carries what its completion lambda captured. *)
Inductive pending :=
  | resolving (c : conn) (key : string * Z) (req : Request.t)
      (h : HTTPConnection.handler)
  | connecting (c : conn) (key : string * Z) (req : Request.t)
      (h : HTTPConnection.handler).

Record t := {
  m_enable_keepalive : bool;
  m_conns : gmap (string * Z) conn;
  m_active_conns : list conn;
  objects : gmap conn ((string * Z) * HTTPConnection.t);
  fresh : conn;
  outstanding : list pending;
  called : list (HTTPConnection.handler * option Response.t)
}.

Definition new (keepalive : bool) : t :=
  {| m_enable_keepalive := keepalive; m_conns := ∅; m_active_conns := [];
     objects := ∅; fresh := O; outstanding := []; called := [] |}.

Definition dispose_conn (key : string * Z) (c : conn) (s : t) : t :=
  {| m_enable_keepalive := m_enable_keepalive s;
     m_conns := if m_enable_keepalive s then delete key (m_conns s)
                else m_conns s;
     m_active_conns := if m_enable_keepalive s then m_active_conns s
                       else filter (λ c', c' ≠ c) (m_active_conns s);
     objects := objects s; fresh := fresh s;
     outstanding := outstanding s; called := called s |}.

Definition call_handler (h : HTTPConnection.handler)
    (r : option Response.t) (s : t) : t :=
  {| m_enable_keepalive := m_enable_keepalive s; m_conns := m_conns s;
     m_active_conns := m_active_conns s; objects := objects s;
     fresh := fresh s; outstanding := outstanding s;
     called := called s ++ [(h, r)] |}.

Definition set_object (c : conn) (key : string * Z) (o : HTTPConnection.t)
    (s : t) : t :=
  {| m_enable_keepalive := m_enable_keepalive s; m_conns := m_conns s;
     m_active_conns := m_active_conns s;
     objects := <[c := (key, o)]> (objects s);
     fresh := fresh s; outstanding := outstanding s; called := called s |}.

Definition set_outstanding (l : list pending) (s : t) : t :=
  {| m_enable_keepalive := m_enable_keepalive s; m_conns := m_conns s;
     m_active_conns := m_active_conns s; objects := objects s;
     fresh := fresh s; outstanding := l; called := called s |}.

(** What the connection did reaches the target: a handler call goes
    through the wrapper of [submit], a close through [dispose_conn]. *)
Definition react (c : conn) (key : string * Z) (a : HTTPConnection.act)
    (s : t) : t :=
  match a with
  | HTTPConnection.a_call h ec r =>
      call_handler h (if Net.failed ec then None else r) s
  | HTTPConnection.a_onclose => dispose_conn key c s
  | _ => s
  end.

(** The connection [c] goes from [o] to [o1]. *)
Definition update (c : conn) (key : string * Z) (o o1 : HTTPConnection.t)
    (s : t) : t :=
  fold_left (λ s' a, react c key a s')
    (drop (length (HTTPConnection.trace o)) (HTTPConnection.trace o1))
    (set_object c key o1 s).

(** The lambda [submit] gives to [get_conn]. *)
Definition on_conn (req : Request.t) (h : HTTPConnection.handler)
    (e : Net.error_code) (c : option conn) (s : t) : outcome t :=
  if Net.failed e then Returns (call_handler h None s)
  else
    match c ≫= (λ c, pair c <$> objects s !! c) with
    | None => Undefined
    | Some (c, (key, o)) =>
        Returns (update c key o (HTTPConnection.async_request req h o) s)
    end.

(** [submit], which is [get_conn] with that lambda. *)
Definition submit (req : Request.t) (h : HTTPConnection.handler) (s : t)
    : outcome t :=
  let u := Request.m_url req in
  let key := (URL.host u, URL.port_or_infer u) in
  match (if m_enable_keepalive s then m_conns s !! key else None) with
  | Some c => on_conn req h Net.success (Some c) s
  | None =>
      let c := fresh s in
      Returns
        {| m_enable_keepalive := m_enable_keepalive s;
           m_conns := if m_enable_keepalive s then <[key := c]> (m_conns s)
                      else m_conns s;
           m_active_conns := if m_enable_keepalive s then m_active_conns s
                             else m_active_conns s ++ [c];
           objects := <[c := (key, HTTPConnection.new)]> (objects s);
           fresh := S c;
           outstanding := outstanding s ++ [resolving c key req h];
           called := called s |}
  end.

(** The completion lambda of [async_resolve]. *)
Definition on_resolved (c : conn) (key : string * Z) (req : Request.t)
    (h : HTTPConnection.handler) (ec : Net.error_code) (s : t) : outcome t :=
  if Net.failed ec then Returns (dispose_conn key c s)
  else Returns (set_outstanding (outstanding s ++ [connecting c key req h]) s).

(** The completion lambda of the connection's [async_connect]. *)
Definition on_connected (c : conn) (key : string * Z) (req : Request.t)
    (h : HTTPConnection.handler) (e : Net.error_code) (s : t) : outcome t :=
  if Net.failed e then
    s1 ← on_conn req h e None s; Returns (dispose_conn key c s1)
  else on_conn req h e (Some c) s.

Inductive event :=
  | ev_submit (req : Request.t) (h : HTTPConnection.handler)
  | ev_done (i : nat) (ec : Net.error_code)
  | ev_socket (c : conn) (ec : Net.error_code) (data : string).

Definition step (e : event) (s : t) : option (outcome t) :=
  match e with
  | ev_submit req h => Some (submit req h s)
  | ev_done i ec =>
      match outstanding s !! i with
      | None => None
      | Some p =>
          let s1 := set_outstanding (delete i (outstanding s)) s in
          Some match p with
               | resolving c key req h => on_resolved c key req h ec s1
               | connecting c key req h => on_connected c key req h ec s1
               end
      end
  | ev_socket c ec data =>
      match objects s !! c with
      | None => None
      | Some (key, o) =>
          match HTTPConnection.complete ec data o with
          | None => None
          | Some (Returns o1) => Some (Returns (update c key o o1 s))
          | Some AssertionFailure => Some AssertionFailure
          | Some (Throws what) => Some (Throws what)
          | Some Undefined => Some Undefined
          end
      end
  end.

Fixpoint run (evs : list event) (s : t) : option (outcome t) :=
  match evs with
  | [] => Some (Returns s)
  | e :: r =>
      match step e s with
      | Some (Returns s1) => run r s1
      | other => other
      end
  end.

End HTTPTarget.

(** ** POSTTarget *)

Module POSTTarget.

(** The target posts to [m_url]; its base is built without keep-alive. *)
Record t := { m_url : URL.t; base : HTTPTarget.t }.

Definition new (url : URL.t) : t :=
  {| m_url := url; base := HTTPTarget.new false |}.

(** [POSTTarget(std::string url)]: the URL is read from the text. *)
Definition make (url : string) : outcome t :=
  u ← URL.parse url; Returns (new u).

(** [write(data)]: a POST request for [m_url] is submitted; [h] stands for
    the lambda that prints the result. *)
Definition write (h : HTTPConnection.handler) (data : string) (p : t)
    : outcome t :=
  b ← HTTPTarget.submit (Request.post (m_url p)) h (base p);
  Returns {| m_url := m_url p; base := b |}.

End POSTTarget.

End http.

(* ===================================================================== *)
(** * The stream's rendering of a double *)
(* ===================================================================== *)

(** [m_out << val] for a [double] on a stream left at its defaults: six
    significant digits, fixed or scientific by the size of the exponent,
    trailing zeros dropped (the [%g] conversion).  It belongs to the C++
    library and not to this program; it is spelled out here so that the
    document of a frame can be computed on binary64 values. *)
Module Stream.

(** [n / d] rounded to the nearest integer, ties to even; [0 < d]. *)
Definition round_div (n d : Z) : Z :=
  let q := n / d in
  let r := n mod d in
  if 2 * r <? d then q
  else if d <? 2 * r then q + 1
  else if Z.even q then q else q + 1.

(** The decimal exponent of [n / d]: the [e] with [10^e <= n/d < 10^(e+1)],
    searched from [e] on, for [0 < n] and [0 < d]. *)
Fixpoint exponent (fuel : nat) (n d e : Z) : Z :=
  match fuel with
  | O => e
  | S k =>
      if 10 * d <=? n then exponent k n (10 * d) (e + 1)
      else if n <? d then exponent k (10 * n) d (e - 1)
      else e
  end.

Fixpoint strip_zeros (rev_digits : list ascii) : list ascii :=
  match rev_digits with
  | c :: r => if Ascii.eqb c "0" then strip_zeros r else rev_digits
  | [] => []
  end.

(** The digits after the point, without trailing zeros, with the point in
    front unless nothing is left. *)
Definition fraction (ds : list ascii) : string :=
  match rev (strip_zeros (rev ds)) with
  | [] => EmptyString
  | l => String "." (string_of_list_ascii l)
  end.

Definition two_digits (e : Z) : string :=
  if e <? 10 then "0" +:+ show_int e else show_int e.

Definition show_finite (neg : bool) (n d : Z) : string :=
  let e := exponent 700 n d 0 in
  let scaled :=
    if e <=? 5 then round_div (n * 10 ^ (5 - e)) d
    else round_div n (d * 10 ^ (e - 5)) in
  let '(digits, e) :=
    if scaled =? 1000000 then (100000, e + 1) else (scaled, e) in
  let ds := list_ascii_of_string (show_int digits) in
  let body :=
    if (e <? -4) || (6 <=? e) then
      string_of_list_ascii (take 1 ds) +:+ fraction (drop 1 ds) +:+ "e" +:+
      (if e <? 0 then "-" else "+") +:+ two_digits (Z.abs e)
    else if 0 <=? e then
      string_of_list_ascii (take (Z.to_nat (e + 1)) ds) +:+
      fraction (drop (Z.to_nat (e + 1)) ds)
    else
      "0" +:+ fraction (replicate (Z.to_nat (- e - 1)) "0"%char ++ ds) in
  if neg then "-" +:+ body else body.

Definition show_double (f : float) : string :=
  match Prim2SF f with
  | S754_zero neg => if neg then "-0" else "0"
  | S754_infinity neg => if neg then "-inf" else "inf"
  | S754_nan => "nan"
  | S754_finite neg m e =>
      if 0 <=? e then show_finite neg (Z.pos m * 2 ^ e) 1
      else show_finite neg (Z.pos m) (2 ^ (- e))
  end.

End Stream.

(* ===================================================================== *)
(** * Inputs used in the statements below *)
(* ===================================================================== *)

(** Calls of [end()] and calls that open a container, in a sequence. *)
Definition ends {double} (cs : list (@JSON.call double)) : nat :=
  length (List.filter JSON.is_end cs).
Definition opened {double} (cs : list (@JSON.call double)) : nat :=
  length (List.filter JSON.opens cs).

(** A box without identity or tag, from (10,20) to (50,80). *)
Definition plain_box : ml.BoundingBox :=
  {| ml.id := 0; ml.tag := 0;
     ml.bounds := {| ml.x := 10; ml.y := 20; ml.width := 40; ml.height := 60 |} |}.

(** 14.8 as the nearest binary64 value. *)
Definition fps_14_8 : float := 0x1.d99999999999ap+3%float.

(** The buffers queued by a sequence of events, in order. *)
Definition pushed (evs : list Net.event) : list Net.buffer :=
  flat_map (λ e, match e with Net.ev_push b => [b] | _ => [] end) evs.

(** The event is not a send reported as failed. *)
Definition succeeds (e : Net.event) : bool :=
  match e with Net.ev_sent ec => negb (Net.failed ec) | _ => true end.

(** The event is not a send reported as done. *)
Definition no_success (e : Net.event) : bool :=
  match e with Net.ev_sent ec => Net.failed ec | _ => true end.


(** Nothing to do and nothing under way. *)
Definition udp_quiet (s : Net.SocketTarget Net.UDPTarget) : Prop :=
  Net.calls s = O ∧ Net.udp_sending (Net.child s) = [].

(** What holds of a datagram sender after any events among which no send
    failed, [P] being the buffers queued so far: the attempts made and the
    buffers still to be tried make up [P]; an attempt is under way exactly
    when the flag is set, and it is of the front of the queue; a queue left
    waiting without the flag has a call of [perform_attempt] coming; the
    timer was never used. *)
Definition queue_inv (P : list Net.buffer)
    (s : Net.SocketTarget Net.UDPTarget) : Prop :=
  (Net.at_buf <$> Net.attempts s) ++
    (if Net.m_pending s then tail (Net.m_queue s) else Net.m_queue s) = P ∧
  Forall (λ a, Net.at_ok a = true) (Net.attempts s) ∧
  (if Net.m_pending s
   then ∃ b q, Net.m_queue s = b :: q ∧ Net.udp_sending (Net.child s) = [b]
   else Net.udp_sending (Net.child s) = []) ∧
  (Net.m_pending s = false → Net.m_queue s ≠ [] → Net.calls s ≠ O) ∧
  Net.waiting (Net.m_retry_timer s) = [] ∧ Net.aborted s = [].

(** Three buffers and a schedule that queues them while sends complete. *)
Definition buf_a : Net.buffer := [Byte.x61; Byte.x0a].
Definition buf_b : Net.buffer := [Byte.x62; Byte.x0a].
Definition buf_c : Net.buffer := [Byte.x63; Byte.x0a].

Definition three_sends : list Net.event :=
  [Net.ev_push buf_a; Net.ev_push buf_b; Net.ev_call; Net.ev_call;
   Net.ev_tick 3; Net.ev_sent Net.success; Net.ev_push buf_c; Net.ev_call;
   Net.ev_call; Net.ev_sent Net.success; Net.ev_call;
   Net.ev_sent Net.success; Net.ev_call].




(** The send fails, and the retry timer is left to run. *)
Definition fail_then_wait : list Net.event :=
  [Net.ev_sent Net.other_error; Net.ev_tick 250; Net.ev_timer].







(** ** Requests and responses *)

Definition collector : http.URL.t :=
  {| http.URL.m_scheme := "http"; http.URL.m_host := "collector";
     http.URL.m_port := Some 8080; http.URL.m_path := Some ["frames"];
     http.URL.m_query := http.URL.query_string EmptyString;
     http.URL.m_frag := None |}.

(** The request [POSTTarget::write] submits. *)
Definition plain_post : http.Request.t := http.Request.post collector.

(** The same request announcing an empty body, and one announcing five
    bytes. *)
Definition post_length_0 : http.Request.t :=
  http.Request.header "Content-Length" "0" plain_post.
Definition post_length_5 : http.Request.t :=
  http.Request.header "Content-Length" "5" plain_post.

Definition lines (ls : list string) : string :=
  fold_right (λ l r, l +:+ http.HTTPConnection.CRLF +:+ r) EmptyString ls.

(** Header blocks a server may answer with. *)
Definition ok_length_5 : string :=
  lines ["HTTP/1.1 200 OK"; "Content-Length: 5"; EmptyString].
Definition ok_close : string :=
  lines ["HTTP/1.1 200 OK"; "Connection: close"; EmptyString].
Definition ok_keep_alive : string :=
  lines ["HTTP/1.1 200 OK"; "Connection: Keep-Alive"; "Content-Length: 0";
         EmptyString].
Definition status_2x0 : string :=
  lines ["HTTP/1.1 2x0 OK"; "Content-Length: 0"; EmptyString].

Definition status_abc : string :=
  lines ["HTTP/1.1 abc OK"; "Content-Length: 0"; EmptyString].
Definition version_2 : string :=
  lines ["HTTP/2.0 200 OK"; "Content-Length: 0"; EmptyString].

(** The socket reports the request written. *)
Definition written : http.HTTPConnection.event :=
  http.HTTPConnection.ev_complete Net.success EmptyString.

(** The socket reports a read done, having moved [data] into the buffer. *)
Definition received (data : string) : http.HTTPConnection.event :=
  http.HTTPConnection.ev_complete Net.success data.

(** The peer closes: the read under way ends in end-of-file, having moved
    [data] into the buffer. *)
Definition closed_after (data : string) : http.HTTPConnection.event :=
  http.HTTPConnection.ev_complete Net.eof data.

(** The operations the connections of a target have under way. *)
Definition under_way (s : http.HTTPTarget.t) : list http.HTTPConnection.async_op :=
  mjoin ((λ o, http.HTTPConnection.ops (snd (snd o))) <$>
         map_to_list (http.HTTPTarget.objects s)).

(** What is called back is either no response or one with an empty body. *)
Definition empty_body (a : http.HTTPConnection.act) : Prop :=
  match a with
  | http.HTTPConnection.a_call _ _ (Some r) =>
      http.Response.m_body r = EmptyString
  | _ => True
  end.

Definition bodies_empty (s : http.HTTPConnection.t) : Prop :=
  (∀ r, http.HTTPConnection.m_response s = Some r →
        http.Response.m_body r = EmptyString) ∧
  Forall empty_body (http.HTTPConnection.trace s).

(** The calls made to handler [h], as its caller sees them. *)
Definition calls_of (h : http.HTTPConnection.handler)
    (s : http.HTTPConnection.t) : list (option http.Response.t) :=
  snd <$> filter (λ c, fst c = h)
            (omap http.HTTPConnection.delivered (http.HTTPConnection.trace s)).

Definition conn_after (evs : list http.HTTPConnection.event)
    : option http.HTTPConnection.t :=
  match http.HTTPConnection.run evs http.HTTPConnection.new with
  | Some (Returns s) => Some s
  | _ => None
  end.

Definition target_after (keepalive : bool) (evs : list http.HTTPTarget.event)
    : option http.HTTPTarget.t :=
  match http.HTTPTarget.run evs (http.HTTPTarget.new keepalive) with
  | Some (Returns s) => Some s
  | _ => None
  end.

(* ===================================================================== *)
(** * Notions used in the further properties *)
(* ===================================================================== *)

(** The characters that close the containers of a stack, innermost first. *)
Fixpoint closers (stack : list JSON.EnclosureType) : string :=
  match stack with
  | [] => EmptyString
  | JSON.OBJECT :: r => String "}" (closers r)
  | JSON.ARRAY :: r => String "]" (closers r)
  end.

Definition newline : string := String "010" EmptyString.

(** The calls that open a container of a kind as an array element. *)
Definition open_call {double} (t : JSON.EnclosureType) : @JSON.call double :=
  match t with JSON.OBJECT => JSON.c_object | JSON.ARRAY => JSON.c_array end.

Definition opener (t : JSON.EnclosureType) : string :=
  match t with JSON.OBJECT => "{" | JSON.ARRAY => "[" end.


(** The calls [write_boundboxes] makes for one box, for the boxes of a
    result, and for a result; the calls [accept] makes around them. *)
Definition box_calls {double} (box : ml.BoundingBox) : list (@JSON.call double) :=
  [JSON.c_object] ++
  (if negb (ml.id box =? 0) then [JSON.c_key_int "id" (ml.id box)] else []) ++
  (if negb (ml.tag box =? 0) then [JSON.c_key_int "tag" (ml.tag box)] else []) ++
  [JSON.c_object_key "topleft";
   JSON.c_key_int "x" (fst (ml.tl (ml.bounds box)));
   JSON.c_key_int "y" (snd (ml.tl (ml.bounds box)));
   JSON.c_end;
   JSON.c_object_key "btmright";
   JSON.c_key_int "x" (fst (ml.br (ml.bounds box)));
   JSON.c_key_int "y" (snd (ml.br (ml.bounds box)));
   JSON.c_end;
   JSON.c_key_int "area"
     (wrap_int (ml.width (ml.bounds box) * ml.height (ml.bounds box)));
   JSON.c_end].

Definition result_calls {double} (res : ml.AlgorithmResult)
    : list (@JSON.call double) :=
  match res with
  | ml.RT_BOUNDING_BOXES boxes =>
      [JSON.c_object; JSON.c_key_str "type" "bounding-boxes";
       JSON.c_array_key "boxes"] ++
      flat_map box_calls boxes ++ [JSON.c_end; JSON.c_end]
  | _ => []
  end.

Definition frame_calls {double} (res : list ml.AlgorithmResult) (fps : Z)
    (fpga : bool) (cpu_use framerate : double) (fr_time : Z)
    : list (@JSON.call double) :=
  [JSON.c_object_key "frame"; JSON.c_key_int "fps" fps;
   JSON.c_key_bool "fpga" fpga; JSON.c_object_key "perf";
   JSON.c_key_double "cpu_use" cpu_use; JSON.c_key_double "fps" framerate;
   JSON.c_key_int "fr_time" fr_time; JSON.c_end;
   JSON.c_array_key "results"] ++
  flat_map result_calls res ++ [JSON.c_end].

Definition is_boxes (res : ml.AlgorithmResult) : bool :=
  match res with ml.RT_BOUNDING_BOXES _ => true | _ => false end.

(** The sends reported done, in a sequence of events. *)
Definition successes (evs : list Net.event) : nat :=
  length (List.filter (λ e, negb (no_success e)) evs).

(** What holds of a sender after any events, [P] being the buffers queued
    so far and [k] the sends reported done: the first [k] of them are gone
    from the queue and the rest is the queue; a send is under way exactly
    when the flag is set, and it is of the front of the queue; only buffers
    that were queued have been attempted.  [sending] gives the sends under
    way in the state of the derived class. *)
Definition flow_inv {T} (sending : T → list Net.buffer)
    (P : list Net.buffer) (k : nat) (s : Net.SocketTarget T) : Prop :=
  (∃ done, P = done ++ Net.m_queue s ∧ length done = k) ∧
  (if Net.m_pending s
   then ∃ b q, Net.m_queue s = b :: q ∧ sending (Net.child s) = [b]
   else sending (Net.child s) = []) ∧
  Forall (λ a, Net.at_buf a ∈ P) (Net.attempts s).

(** A stream sender with the connection up, one write under way. *)
Definition tcp_three : list Net.event :=
  [Net.ev_push buf_a; Net.ev_call; Net.ev_connected Net.success;
   Net.ev_push buf_b; Net.ev_call; Net.ev_tick 1000; Net.ev_timer;
   Net.ev_sent Net.other_error; Net.ev_push buf_c; Net.ev_call;
   Net.ev_sent Net.success].

(** A datagram sender that saw a failure and a success. *)
Definition udp_mixed : list Net.event :=
  [Net.ev_push buf_a; Net.ev_call; Net.ev_push buf_b; Net.ev_call;
   Net.ev_sent Net.other_error; Net.ev_tick 250; Net.ev_timer;
   Net.ev_sent Net.success; Net.ev_call].

(** No character of [s] is one of [bad]. *)
Fixpoint free_of (bad s : string) : bool :=
  match s with
  | EmptyString => true
  | String c r => negb (http.mem_char c bad) && free_of bad r
  end.

(** The characters that end the part of a URL read in a state. *)
Definition stops (st : http.URL.UrlParseState) : string :=
  match st with
  | http.URL.S_SCHEME => ":"
  | http.URL.S_HOST => ":/"
  | http.URL.S_PORT => "/"
  | http.URL.S_PATH => "?#"
  | http.URL.S_QUERY => "?"
  | _ => EmptyString
  end.

(** The states in which characters are gathered. *)
Definition gathers (st : http.URL.UrlParseState) : bool :=
  match st with
  | http.URL.S_SLASH_1 | http.URL.S_SLASH_2 => false
  | _ => true
  end.

(** How many characters of [s] are reserved. *)
Fixpoint reserved_in (s : string) : nat :=
  match s with
  | EmptyString => 0
  | String c r =>
      ((if http.mem_char c http.RESERVED_CHARS then 1 else 0) + reserved_in r)%nat
  end.

(** The errors after which [fail_request] gives the connection up. *)
Definition fatal (ec : Net.error_code) : bool :=
  match ec with
  | Net.connection_reset | Net.broken_pipe | Net.eof => true
  | _ => false
  end.

(** The calls that fail a backlog. *)
Definition backlog_calls (ec : Net.error_code)
    (q : list (http.Request.t * http.HTTPConnection.handler))
    : list http.HTTPConnection.act :=
  map (λ w, http.HTTPConnection.a_call (snd w) ec None) q.

(** The operations a connection starts: a body read is bound to version 0. *)
Definition op_known (op : http.HTTPConnection.async_op) : Prop :=
  match op with
  | http.HTTPConnection.op_read_exactly _ v => v = 0
  | http.HTTPConnection.op_read_all v => v = 0
  | _ => True
  end.

(** What holds of a connection before it looks for work: at most one
    operation is under way, and none when no request is pending. *)
Definition conn_pre (s : http.HTTPConnection.t) : Prop :=
  (length (http.HTTPConnection.ops s) ≤ 1)%nat ∧
  (http.HTTPConnection.m_pending s = false →
     http.HTTPConnection.ops s = [] ∧ http.HTTPConnection.m_work s = None) ∧
  Forall op_known (http.HTTPConnection.ops s).

(** And after: with no request pending the queue is empty as well. *)
Definition conn_inv (s : http.HTTPConnection.t) : Prop :=
  conn_pre s ∧
  (http.HTTPConnection.m_pending s = false → http.HTTPConnection.m_queue s = []).

(** A connection that waits for nothing while a request is pending. *)
Definition stalled (s : http.HTTPConnection.t) : Prop :=
  http.HTTPConnection.m_pending s = true ∧ http.HTTPConnection.ops s = [].

(** Every request of the events is the POST for [url] that
    [POSTTarget::write] submits. *)
Definition posts (url : http.URL.t)
    (evs : list http.HTTPConnection.event) : Prop :=
  Forall (λ e, match e with
               | http.HTTPConnection.ev_request req _ =>
                   req = http.Request.post url
               | _ => True
               end) evs.

(** A call that hands over no response. *)
Definition no_response (a : http.HTTPConnection.act) : Prop :=
  match a with
  | http.HTTPConnection.a_call _ _ (Some _) => False
  | _ => True
  end.

Definition unbounded (op : http.HTTPConnection.async_op) : Prop :=
  match op with
  | http.HTTPConnection.op_read_exactly _ _ => False
  | _ => True
  end.

(** What holds of a connection that is only asked to post to [url]. *)
Definition post_inv (url : http.URL.t) (s : http.HTTPConnection.t) : Prop :=
  (http.HTTPConnection.m_temp_buffer s = EmptyString ∨
   http.HTTPConnection.m_temp_buffer s =
     http.HTTPConnection.encode_request (http.Request.post url)) ∧
  Forall (λ w, fst w = http.Request.post url) (http.HTTPConnection.m_queue s) ∧
  Forall unbounded (http.HTTPConnection.ops s) ∧
  Forall no_response (http.HTTPConnection.trace s).

(** The carriage return, as a set of characters. *)
Definition CR_only : string := String http.HTTPConnection.CR EmptyString.

(* ===================================================================== *)
(** * Properties: the JSON writer and the frame document *)
(* ===================================================================== *)

Lemma plain_box_corners :
  ml.tl (ml.bounds plain_box) = (10, 20) ∧ ml.br (ml.bounds plain_box) = (50, 80).
Proof. split; reflexivity. Qed.

(** C1.  [accept] called with fps 15, fpga false, cpu_use rendered as 12.5,
    framerate rendered as 14.8, fr_time 67 and one result holding the one
    box [plain_box] hands the target exactly one document; read back, it is
    an object whose frame.fps is 15 and frame.fpga is false, and the first
    box of frame.results[0].boxes has no id key, no tag key, and area 2400. *)
Theorem accept_plain_box_document :
  ∀ (double : Type) (show_double : double → string)
    (cpu_use framerate : double) (frame : Z),
    show_double cpu_use = "12.5" →
    show_double framerate = "14.8" →
    ∃ doc j fr box,
      Metadumper.accept show_double [ml.RT_BOUNDING_BOXES [plain_box]]
        15 frame false cpu_use framerate 67 {| Metadumper.m_tgt := [] |}
      = Returns {| Metadumper.m_tgt := [doc] |} ∧
      Reader.read doc = Some j ∧
      Reader.member "frame" j = Some fr ∧
      Reader.member "fps" fr = Some (Reader.JNum "15") ∧
      Reader.member "fpga" fr = Some (Reader.JBool false) ∧
      Reader.follow [Reader.key "results"; Reader.idx 0; Reader.key "boxes";
                     Reader.idx 0] fr = Some box ∧
      Reader.has_key "id" box = false ∧
      Reader.has_key "tag" box = false ∧
      Reader.member "area" box = Some (Reader.JNum "2400").
Proof.
  intros double show_double cpu_use framerate frame Hc Hf.
  cbv [Metadumper.accept Metadumper.build JSON.key_double].
  rewrite Hc, Hf.
  do 4 eexists.
  split; [vm_compute; reflexivity|].
  split; [vm_compute; reflexivity|].
  split; [vm_compute; reflexivity|].
  split; [vm_compute; reflexivity|].
  split; [vm_compute; reflexivity|].
  split; [vm_compute; reflexivity|].
  repeat split.
Qed.

Lemma accept_plain_box_document_witness :
  ∃ doc j fr box,
    Metadumper.accept Stream.show_double [ml.RT_BOUNDING_BOXES [plain_box]]
      15 0 false 12.5%float fps_14_8 67 {| Metadumper.m_tgt := [] |}
    = Returns {| Metadumper.m_tgt := [doc] |} ∧
    Reader.read doc = Some j ∧
    Reader.member "frame" j = Some fr ∧
    Reader.member "fps" fr = Some (Reader.JNum "15") ∧
    Reader.member "fpga" fr = Some (Reader.JBool false) ∧
    Reader.follow [Reader.key "results"; Reader.idx 0; Reader.key "boxes";
                   Reader.idx 0] fr = Some box ∧
    Reader.has_key "id" box = false ∧
    Reader.has_key "tag" box = false ∧
    Reader.member "area" box = Some (Reader.JNum "2400").
Proof.
  apply (accept_plain_box_document float Stream.show_double 12.5%float
           fps_14_8 0); vm_compute; reflexivity.
Defined.

(** ** Closing more often than opening *)

Lemma emit_begin_returns (w : JSON.JSONWriter) :
  JSON.m_first w ≠ [] →
  ∃ w1, JSON.emit_begin w = Returns w1 ∧
        JSON.m_stack w1 = JSON.m_stack w ∧ JSON.m_first w1 ≠ [].
Proof.
  intros Hne. unfold JSON.emit_begin.
  destruct (last (JSON.m_first w)) as [[|]|] eqn:E.
  - eexists; split; [reflexivity|]. split; [reflexivity|].
    simpl. intros Hnil. apply app_eq_nil in Hnil as [_ Hnil]. discriminate.
  - eexists; split; [reflexivity|]. split; [reflexivity|]. exact Hne.
  - apply last_None in E. contradiction.
Qed.

Lemma emit_key_returns (k : string) (w : JSON.JSONWriter) :
  JSON.m_first w ≠ [] →
  ∃ w1, JSON.emit_key k w = Returns w1 ∧
        JSON.m_stack w1 = JSON.m_stack w ∧ JSON.m_first w1 ≠ [].
Proof.
  intros Hne. unfold JSON.emit_key.
  destruct (emit_begin_returns w Hne) as (w1 & -> & Hs & Hf).
  eexists; split; [reflexivity|]. split; assumption.
Qed.

Lemma removelast_shorter {A} (l : list A) (x : A) :
  last l = Some x → S (length (removelast l)) = length l.
Proof.
  intros Hl. apply last_Some in Hl as [l' ->].
  rewrite removelast_last, length_app. simpl. lia.
Qed.

(** One call on a writer whose [m_first] is not empty: either it is
    [end()] on an empty stack, where anything may happen, or it returns and
    the depth moves by what the call opens and closes. *)
Lemma do_call_cases {double} (show_double : double → string)
    (c : JSON.call) (w : JSON.JSONWriter) :
  JSON.m_first w ≠ [] →
  (JSON.is_end c = true ∧ JSON.m_stack w = [] ∧
   JSON.do_call show_double c w = Undefined) ∨
  (∃ w1, JSON.do_call show_double c w = Returns w1 ∧
         JSON.m_first w1 ≠ [] ∧
         (length (JSON.m_stack w1) + (if JSON.is_end c then 1 else 0) =
          length (JSON.m_stack w) + (if JSON.opens c then 1 else 0))%nat).
Proof.
  intros Hne.
  pose proof (emit_begin_returns w Hne) as (wb & Eb & Sb & Fb).
  destruct c; simpl;
    try (pose proof (emit_key_returns k w Hne) as (wk & Ek & Sk & Fk)).
  all: try (right;
            unfold JSON.object, JSON.array, JSON.value_int, JSON.value_bool,
              JSON.value_str, JSON.value_double;
            rewrite Eb; simpl; eexists; split; [reflexivity|]; simpl;
            split;
            [ first [ exact Fb
                    | intros Hnil; apply app_eq_nil in Hnil as [_ Hnil];
                      discriminate ]
            | rewrite ?length_app; destruct JSON.OBJECT; simpl;
              rewrite ?length_app, ?Sb; simpl; lia ]).
  all: try (right;
            unfold JSON.object_key, JSON.array_key, JSON.key_int,
              JSON.key_bool, JSON.key_str, JSON.key_double;
            rewrite Ek; simpl; eexists; split; [reflexivity|]; simpl;
            split;
            [ first [ exact Fk
                    | intros Hnil; apply app_eq_nil in Hnil as [_ Hnil];
                      discriminate ]
            | rewrite ?length_app, ?Sk; simpl; lia ]).
  (* end() *)
  unfold JSON.end_.
  destruct (last (JSON.m_stack w)) as [t|] eqn:E.
  - right. eexists; split; [reflexivity|]. simpl.
    split; [destruct t; exact Hne|].
    pose proof (removelast_shorter _ _ E).
    destruct t; simpl; lia.
  - left. apply last_None in E. auto.
Qed.

Lemma ends_cons {double} (c : @JSON.call double) cs :
  ends (c :: cs) = ((if JSON.is_end c then 1 else 0) + ends cs)%nat.
Proof. unfold ends. simpl. destruct (JSON.is_end c); reflexivity. Qed.

Lemma opened_cons {double} (c : @JSON.call double) cs :
  opened (c :: cs) = ((if JSON.opens c then 1 else 0) + opened cs)%nat.
Proof. unfold opened. simpl. destruct (JSON.opens c); reflexivity. Qed.

Lemma too_many_ends {double} (show_double : double → string)
    (cs : list JSON.call) :
  ∀ w, JSON.m_first w ≠ [] →
       (length (JSON.m_stack w) + opened cs < ends cs)%nat →
       JSON.do_calls show_double cs w = Undefined.
Proof.
  induction cs as [|c cs IH]; intros w Hne Hlt.
  - unfold ends, opened in Hlt. simpl in Hlt. lia.
  - rewrite ends_cons, opened_cons in Hlt. simpl.
    destruct (do_call_cases show_double c w Hne)
      as [(_ & _ & ->) | (w1 & -> & Hne1 & Hlen)]; [reflexivity|].
    simpl. apply IH; [exact Hne1|].
    destruct (JSON.is_end c), (JSON.opens c); lia.
Qed.

(** C9, as the code has it.  In every call sequence that calls [end()]
    more often than containers were opened (the root, opened by the
    constructor, included), nothing is asserted: [end()] reads the back of
    the empty stack and the behaviour of the writer is undefined. *)
Theorem end_on_empty_stack_is_undefined :
  ∀ (double : Type) (show_double : double → string)
    (root : JSON.EnclosureType) (cs : list JSON.call),
    (1 + opened cs < ends cs)%nat →
    JSON.do_calls show_double cs (JSON.new root) = Undefined.
Proof.
  intros double show_double root cs Hlt.
  apply too_many_ends; [|destruct root; exact Hlt].
  destruct root; discriminate.
Qed.

Lemma end_on_empty_stack_is_undefined_witness :
  JSON.do_calls Stream.show_double [JSON.c_end; JSON.c_end]
    (JSON.new JSON.OBJECT) = Undefined.
Proof.
  apply (end_on_empty_stack_is_undefined float Stream.show_double JSON.OBJECT
           [JSON.c_end; JSON.c_end]).
  vm_compute. lia.
Defined.

(** C9 as stated fails: closing the root and calling [end()] once more is
    a sequence with more closes than opens, and it does not end in a failed
    assertion. *)
Lemma end_twice_no_assertion :
  (1 + opened (double := float) [JSON.c_end; JSON.c_end]
   < ends (double := float) [JSON.c_end; JSON.c_end])%nat ∧
  JSON.do_calls Stream.show_double [JSON.c_end; JSON.c_end]
    (JSON.new JSON.OBJECT) ≠ AssertionFailure.
Proof. split; [vm_compute; lia | vm_compute; discriminate]. Qed.

(* ===================================================================== *)
(** * Properties: response codes *)
(* ===================================================================== *)

Import http.

Lemma type_success_iff (c : ResponseCode.t) :
  ResponseCode.type c = ResponseCode.SUCCESS ↔ ResponseCode.d0 c = 2.
Proof.
  unfold ResponseCode.type.
  destruct (ResponseCode.d0 c) as [|p|p]; [split; discriminate| |split; discriminate].
  destruct p as [[[]|[]|]|[[]|[]|]|]; split; intros E;
    first [discriminate | reflexivity].
Qed.

(** C10.  A response is true in a boolean context exactly when the first
    digit of its code is 2, which is exactly when its class is SUCCESS; in
    every other class it is false. *)
Theorem response_bool_iff_success :
  ∀ r : Response.t,
    (Response.to_bool r = true ↔ ResponseCode.d0 (Response.m_code r) = 2) ∧
    (Response.to_bool r = true ↔
     ResponseCode.type (Response.m_code r) = ResponseCode.SUCCESS) ∧
    (ResponseCode.type (Response.m_code r) ≠ ResponseCode.SUCCESS ↔
     Response.to_bool r = false).
Proof.
  intros r.
  assert (Hb : Response.to_bool r = true ↔
               ResponseCode.type (Response.m_code r) = ResponseCode.SUCCESS).
  { unfold Response.to_bool.
    destruct (ResponseCode.type (Response.m_code r)); simpl;
      split; intros E; first [discriminate | reflexivity]. }
  split; [rewrite Hb; apply type_success_iff|].
  split; [exact Hb|].
  rewrite <- Hb. destruct (Response.to_bool r); split; intros E;
    first [reflexivity | discriminate | (exfalso; apply E; reflexivity)].
Qed.

(* ===================================================================== *)
(** * Properties: the queued sender when every send succeeds *)
(* ===================================================================== *)

Section QueueInvariant.
Import Net.

Lemma queue_inv_init : queue_inv [] udp_init.
Proof. repeat split; try reflexivity; [constructor | intros _ Hq; contradiction]. Qed.

Lemma queue_inv_step (P : list buffer) (e : event)
    (s s1 : SocketTarget UDPTarget) :
  queue_inv P s → succeeds e = true → udp_step e s = Some s1 →
  queue_inv (P ++ pushed [e]) s1.
Proof.
  intros (Hq & Hok & Hfl & Hcl & Hw & Ha) Hs Hstep.
  destruct s as [q p tm nw ab cl att ch]; simpl in *.
  destruct e as [d|b| | |ec|ec]; simpl in *; rewrite ?app_nil_r.
  - (* time passes *)
    destruct (0 <=? d); [|discriminate]. injection Hstep as <-.
    repeat split; assumption.
  - (* a buffer is queued *)
    injection Hstep as <-. simpl. subst ab.
    repeat split; simpl; try assumption; try reflexivity.
    + destruct p.
      * destruct Hfl as (b0 & q0 & -> & _). simpl in *.
        rewrite <- Hq. rewrite app_assoc. reflexivity.
      * rewrite <- Hq. rewrite app_assoc. reflexivity.
    + destruct p; [|assumption].
      destruct Hfl as (b0 & q0 & -> & Hsend). simpl. eauto.
    + intros _ _. discriminate.
  - (* the owed call of perform_attempt *)
    destruct cl as [|n]; [discriminate|]. injection Hstep as <-.
    unfold perform_attempt; simpl.
    destruct p; simpl.
    { repeat split; simpl; try assumption. intros Hp; discriminate. }
    destruct q as [|front q]; simpl.
    { repeat split; simpl; try assumption. intros _ Hne; contradiction. }
    unfold attempt_send, udp_transport; simpl.
    repeat split; simpl; try assumption.
    + rewrite fmap_app, <- app_assoc. simpl. exact Hq.
    + apply Forall_app; split; [assumption|]. repeat constructor.
    + exists front, q. split; [reflexivity|]. rewrite Hfl. reflexivity.
    + intros Hp; discriminate.
  - (* the timer has no handler to run *)
    unfold fire in Hstep; simpl in Hstep. subst ab. rewrite Hw in Hstep.
    destruct (expiry tm <=? nw); discriminate.
  - (* a send completes *)
    destruct (udp_sending ch) as [|b0 r] eqn:Es; [discriminate|].
    injection Hstep as <-.
    destruct p; [|discriminate].
    destruct Hfl as (b & q' & -> & Hsend). injection Hsend as -> ->.
    unfold udp_sent. apply negb_true_iff in Hs. rewrite Hs. simpl in *.
    repeat split; simpl; try assumption.
    intros _ _. discriminate.
  - discriminate.
Qed.

Lemma pushed_app (l1 l2 : list event) : pushed (l1 ++ l2) = pushed l1 ++ pushed l2.
Proof. unfold pushed. apply flat_map_app. Qed.

Lemma queue_inv_run (evs : list event) :
  ∀ P s s1, queue_inv P s → forallb succeeds evs = true →
            udp_run evs s = Some s1 → queue_inv (P ++ pushed evs) s1.
Proof.
  induction evs as [|e evs IH]; intros P s s1 Hinv Hall Hrun;
    simpl in Hall, Hrun.
  - injection Hrun as <-. simpl. rewrite app_nil_r. exact Hinv.
  - apply andb_true_iff in Hall as [He Hall].
    destruct (udp_step e s) as [s'|] eqn:Es; [|discriminate].
    change (e :: evs) with ([e] ++ evs). rewrite pushed_app, app_assoc.
    eapply IH; [|exact Hall|exact Hrun].
    eapply queue_inv_step; eassumption.
Qed.

(** From any such state the sender comes to rest, by the calls owed and
    the completions of the sends, all successful and with nothing queued in
    between. *)
Lemma queue_drains (n : nat) :
  ∀ P s, queue_inv P s → (2 * length (m_queue s) + calls s ≤ n)%nat →
    ∃ evs s1, pushed evs = [] ∧ forallb succeeds evs = true ∧
              udp_run evs s = Some s1 ∧ udp_quiet s1.
Proof.
  induction n as [|n IH]; intros P s Hinv Hn.
  - exists [], s. repeat split; try reflexivity.
    + lia.
    + destruct Hinv as (_ & _ & Hfl & _).
      destruct (m_pending s); [|assumption].
      destruct Hfl as (b & q & Hq & _). rewrite Hq in Hn. simpl in Hn. lia.
  - destruct (calls s) as [|c] eqn:Ec.
    + destruct (udp_sending (child s)) as [|b r] eqn:Es.
      * exists [], s. repeat split; try reflexivity; assumption.
      * destruct (udp_step (ev_sent success) s) as [s'|] eqn:Est;
          [|simpl in Est; rewrite Es in Est; discriminate].
        pose proof (queue_inv_step P (ev_sent success) _ _ Hinv eq_refl Est)
          as Hinv'.
        simpl in Hinv'. rewrite app_nil_r in Hinv'.
        destruct (IH P s' Hinv') as (evs & s1 & Hp & Hall & Hrun & Hquiet).
        { simpl in Est. rewrite Es in Est. injection Est as <-.
          destruct Hinv as (_ & _ & Hfl & _).
          destruct (m_pending s); [|congruence].
          destruct Hfl as (b0 & q & Hq & _).
          unfold udp_sent; simpl. rewrite Hq in *. simpl in *. lia. }
        exists (ev_sent success :: evs), s1.
        repeat split; try apply Hquiet; simpl; [exact Hp|exact Hall|].
        simpl in Est. rewrite Est. exact Hrun.
    + destruct (udp_step ev_call s) as [s'|] eqn:Est;
        [|simpl in Est; rewrite Ec in Est; discriminate].
      pose proof (queue_inv_step P ev_call _ _ Hinv eq_refl Est) as Hinv'.
      simpl in Hinv'. rewrite app_nil_r in Hinv'.
      destruct (IH P s' Hinv') as (evs & s1 & Hp & Hall & Hrun & Hquiet).
      { simpl in Est. rewrite Ec in Est. injection Est as <-.
        unfold perform_attempt; simpl.
        destruct (m_pending s); simpl; [lia|].
        destruct (m_queue s) eqn:Eq; simpl; rewrite ?Eq; simpl in *; lia. }
      exists (ev_call :: evs), s1.
      repeat split; try apply Hquiet; simpl; [exact Hp|exact Hall|].
      simpl in Est. rewrite Est. exact Hrun.
Qed.

Lemma quiet_all_sent (P : list buffer) (s : SocketTarget UDPTarget) :
  queue_inv P s → udp_quiet s → at_buf <$> attempts s = P ∧ m_queue s = [].
Proof.
  intros (Hq & _ & Hfl & Hcl & _) [Hc Hs].
  destruct (m_pending s).
  - destruct Hfl as (b & q & _ & Hsend). congruence.
  - destruct (m_queue s) as [|b q] eqn:Eq.
    + rewrite app_nil_r in Hq. auto.
    + exfalso. apply Hcl; [reflexivity|discriminate|exact Hc].
Qed.

(** C2.  After any events on a datagram sender among which no send is
    reported failed: at most one send is under way, and none while the
    pending flag is clear; every attempt was accepted; the buffers
    attempted are, in order, the first of those queued; at rest they are
    exactly the N buffers queued, each attempted once; and rest is always
    reached once the owed calls and the completions have happened. *)
Theorem sends_each_once_in_order :
  ∀ (evs : list event) (s : SocketTarget UDPTarget),
    forallb succeeds evs = true →
    udp_run evs udp_init = Some s →
    (length (udp_sending (child s)) ≤ 1)%nat ∧
    (m_pending s = false → udp_sending (child s) = []) ∧
    Forall (λ a, at_ok a = true) (attempts s) ∧
    at_buf <$> attempts s `prefix_of` pushed evs ∧
    (udp_quiet s →
       at_buf <$> attempts s = pushed evs ∧
       length (attempts s) = length (pushed evs) ∧ m_queue s = []) ∧
    ∃ evs' s',
      pushed evs' = [] ∧ forallb succeeds evs' = true ∧
      udp_run evs' s = Some s' ∧ udp_quiet s' ∧
      at_buf <$> attempts s' = pushed evs ∧
      length (attempts s') = length (pushed evs).
Proof.
  intros evs s Hall Hrun.
  pose proof (queue_inv_run evs [] _ _ queue_inv_init Hall Hrun) as Hinv.
  simpl in Hinv.
  pose proof Hinv as (Hq & Hok & Hfl & Hcl & _).
  split; [|split; [|split; [|split; [|split]]]].
  - destruct (m_pending s); [|rewrite Hfl; simpl; lia].
    destruct Hfl as (b & q & _ & ->). simpl. lia.
  - intros Hp. rewrite Hp in Hfl. exact Hfl.
  - exact Hok.
  - eexists. symmetry. exact Hq.
  - intros Hquiet.
    destruct (quiet_all_sent _ _ Hinv Hquiet) as [Ha Hqe].
    split; [exact Ha|]. split; [|exact Hqe].
    rewrite <- Ha, length_fmap. reflexivity.
  - destruct (queue_drains _ _ _ Hinv (le_n _))
      as (evs' & s' & Hp & Hall' & Hrun' & Hquiet).
    exists evs', s'.
    pose proof (queue_inv_run evs' _ _ _ Hinv Hall' Hrun') as Hinv'.
    rewrite Hp, app_nil_r in Hinv'.
    destruct (quiet_all_sent _ _ Hinv' Hquiet) as [Ha _].
    repeat split; try assumption; try apply Hquiet.
    rewrite <- Ha, length_fmap. reflexivity.
Qed.

End QueueInvariant.

Lemma sends_each_once_in_order_witness :
  forallb succeeds three_sends = true ∧
  ∃ s, Net.udp_run three_sends Net.udp_init = Some s ∧
    (length (Net.udp_sending (Net.child s)) ≤ 1)%nat ∧
    (Net.m_pending s = false → Net.udp_sending (Net.child s) = []) ∧
    Forall (λ a, Net.at_ok a = true) (Net.attempts s) ∧
    Net.at_buf <$> Net.attempts s `prefix_of` pushed three_sends ∧
    (udp_quiet s →
       Net.at_buf <$> Net.attempts s = pushed three_sends ∧
       length (Net.attempts s) = length (pushed three_sends) ∧
       Net.m_queue s = []) ∧
    ∃ evs' s',
      pushed evs' = [] ∧ forallb succeeds evs' = true ∧
      Net.udp_run evs' s = Some s' ∧ udp_quiet s' ∧
      Net.at_buf <$> Net.attempts s' = pushed three_sends ∧
      length (Net.attempts s') = length (pushed three_sends).
Proof.
  split; [reflexivity|].
  eexists. split; [vm_compute; reflexivity|].
  apply (sends_each_once_in_order three_sends); vm_compute; reflexivity.
Defined.

(* ===================================================================== *)
(** * Properties: the queued sender after a failed send *)
(* ===================================================================== *)

Section Retry.
Import Net.













End Retry.



(* ===================================================================== *)
(** * Properties: the stream sender across a lost connection *)
(* ===================================================================== *)

Section Reconnect.
Import Net.








End Reconnect.

(* ===================================================================== *)
(** * Properties: the HTTP connection *)
(* ===================================================================== *)

Section Bodies.
Import HTTPConnection.

Lemma bodies_empty_same (s s1 : t) :
  m_response s1 = m_response s → trace s1 = trace s →
  bodies_empty s → bodies_empty s1.
Proof. intros Hr Ht [H1 H2]. split; [rewrite Hr|rewrite Ht]; assumption. Qed.

Lemma bodies_empty_emit (a : act) (s : t) :
  empty_body a → bodies_empty s → bodies_empty (emit a s).
Proof.
  intros Ha [H1 H2]. split; [exact H1|]. simpl.
  apply Forall_app. split; [exact H2|]. constructor; [exact Ha|constructor].
Qed.

Lemma bodies_empty_attempt_request (s : t) :
  bodies_empty s → bodies_empty (attempt_request s).
Proof.
  intros H. unfold attempt_request.
  destruct (m_pending s); [exact H|].
  destruct (m_queue s) as [|w rest]; [exact H|].
  eapply bodies_empty_same; [reflexivity|reflexivity|].
  apply bodies_empty_emit; [exact I|].
  eapply bodies_empty_same; [| |exact H]; reflexivity.
Qed.

Lemma bodies_empty_finish_request (s : t) :
  bodies_empty s → bodies_empty (finish_request s).
Proof.
  intros H. apply bodies_empty_attempt_request.
  eapply bodies_empty_same; [| |exact H]; reflexivity.
Qed.

Lemma bodies_empty_fail_backlog (ec : Net.error_code) (s : t) :
  bodies_empty s → bodies_empty (fail_backlog ec s).
Proof.
  unfold fail_backlog. generalize (m_queue s) as q. intros q. revert s.
  induction q as [|w q IH]; intros s H; simpl; [exact H|].
  apply IH. apply bodies_empty_emit; [exact I|exact H].
Qed.

Lemma bodies_empty_fail_request (ec : Net.error_code) (s s1 : t) :
  bodies_empty s → fail_request ec s = Returns s1 → bodies_empty s1.
Proof.
  intros H. unfold fail_request, work.
  assert (Hclose : Returns (emit a_onclose (emit a_close (fail_backlog ec s)))
                   = Returns s1 → bodies_empty s1).
  { intros E. injection E as <-.
    repeat (apply bodies_empty_emit; [exact I|]).
    apply bodies_empty_fail_backlog. exact H. }
  destruct ec; try exact Hclose;
    (destruct (m_work s) as [w|]; simpl; [|discriminate]);
    intros E; injection E as <-;
    apply bodies_empty_finish_request;
    (apply bodies_empty_emit; [exact I|exact H]).
Qed.

Lemma bodies_empty_on_written (ec : Net.error_code) (s s1 : t) :
  bodies_empty s → on_written ec s = Returns s1 → bodies_empty s1.
Proof.
  intros H. unfold on_written.
  destruct (Net.failed ec); [apply bodies_empty_fail_request; exact H|].
  intros E. injection E as <-.
  eapply bodies_empty_same; [| |exact H]; reflexivity.
Qed.

Lemma bodies_empty_on_header_recvd (ec : Net.error_code) (s s1 : t) :
  bodies_empty s → on_header_recvd ec s = Returns s1 → bodies_empty s1.
Proof.
  intros H. unfold on_header_recvd.
  destruct (Net.failed ec); [apply bodies_empty_fail_request; exact H|].
  assert (H0 : bodies_empty (set_temp_buffer EmptyString (consume_all s))).
  { eapply bodies_empty_same; [| |exact H]; reflexivity. }
  revert H0. generalize (set_temp_buffer EmptyString (consume_all s)) as s0.
  intros s0 H0.
  destruct (split_lines _ _ _) as [[ls temp]| | |]; simpl; try discriminate.
  destruct (if String.eqb temp EmptyString then ls else ls ++ [temp])
    as [|line0 rest]; [apply bodies_empty_fail_request; exact H0|].
  destruct (_ && _); [apply bodies_empty_fail_request; exact H0|].
  destruct (char_at line0 9) as [c0| | |]; simpl; try discriminate.
  destruct (char_at line0 10) as [c1| | |]; simpl; try discriminate.
  destruct (char_at line0 11) as [c2| | |]; simpl; try discriminate.
  destruct (_ && _); [apply bodies_empty_fail_request; exact H0|].
  destruct (process_headers rest Headers.new) as [hdrs|];
    [|apply bodies_empty_fail_request; exact H0].
  destruct (m_work s0) as [w|]; [|discriminate].
  match goal with
  | |- context [set_response ?r s0] =>
      assert (H1 : bodies_empty (set_response r s0))
        by (split; [intros r0 E; injection E as <-; reflexivity|apply H0])
  end.
  destruct (Headers.get "Content-Length" hdrs) as [ct_len|].
  - destruct (strtoul (c_str ct_len)) as [len p].
    destruct (negb _); [apply bodies_empty_fail_request; exact H1|].
    intros E. injection E as <-.
    eapply bodies_empty_same; [| |exact H1]; reflexivity.
  - intros E. injection E as <-.
    eapply bodies_empty_same; [| |exact H1]; reflexivity.
Qed.

(** The copy into a body that was only given capacity copies nothing. *)
Lemma buffer_copy_empty (src : string) : buffer_copy EmptyString src = EmptyString.
Proof. unfold buffer_copy. simpl. destruct src; reflexivity. Qed.

Lemma bodies_empty_close_connection (s : t) :
  bodies_empty s → bodies_empty (close_connection s).
Proof.
  intros H. unfold close_connection.
  apply bodies_empty_emit; [exact I|].
  apply bodies_empty_fail_backlog.
  apply bodies_empty_emit; [exact I|exact H].
Qed.

Lemma bodies_empty_on_body_recvd (v : Z) (ec : Net.error_code) (s s1 : t) :
  bodies_empty s → on_body_recvd v ec s = Returns s1 → bodies_empty s1.
Proof.
  intros H. unfold on_body_recvd.
  destruct (Net.failed ec).
  { apply bodies_empty_fail_request.
    eapply bodies_empty_same; [| |exact H]; reflexivity. }
  destruct (m_response s) as [resp|] eqn:Er; [|discriminate].
  unfold work. simpl.
  destruct (m_work s) as [w|]; simpl; [|discriminate].
  destruct (v =? 11); [discriminate|].
  intros E. injection E as <-.
  apply bodies_empty_close_connection.
  split; [intros r0 E; discriminate|]. simpl.
  apply Forall_app. split; [apply H|].
  constructor; [|constructor]. simpl.
  rewrite (proj1 H resp Er). apply buffer_copy_empty.
Qed.

Lemma bodies_empty_step (e : event) (s s1 : t) :
  bodies_empty s → step e s = Some (Returns s1) → bodies_empty s1.
Proof.
  intros H. destruct e as [req h|ec data]; simpl.
  - intros E. injection E as <-. unfold async_request.
    apply bodies_empty_attempt_request.
    eapply bodies_empty_same; [| |exact H]; reflexivity.
  - unfold complete.
    destruct (ops s) as [|op rest]; [discriminate|].
    destruct (allowed op ec data s); [|discriminate].
    intros E. injection E as E. revert E.
    match goal with
    | |- context [on_written ec ?x] =>
        assert (H0 : bodies_empty x)
          by (eapply bodies_empty_same; [| |exact H]; reflexivity);
        revert H0; generalize x
    end.
    intros s0 H0.
    destruct op; eauto using bodies_empty_on_written,
      bodies_empty_on_header_recvd, bodies_empty_on_body_recvd.
Qed.

(** Whatever a connection is asked and whatever its socket delivers, every
    response it hands to a handler has an empty body. *)
Lemma delivered_bodies_empty (evs : list event) :
  ∀ s s1, bodies_empty s → run evs s = Some (Returns s1) → bodies_empty s1.
Proof.
  induction evs as [|e evs IH]; intros s s1 H; simpl.
  - intros E. injection E as <-. exact H.
  - destruct (step e s) as [[s0| | |]|] eqn:Es; try discriminate.
    apply IH. eapply bodies_empty_step; eassumption.
Qed.

(** The body read that [on_header_recvd] starts is always bound to HTTP
    version 0. *)
Lemma body_read_version (ec : Net.error_code) (s s1 : t) :
  on_header_recvd ec s = Returns s1 →
  ∀ op, op ∈ ops s1 → op ∈ ops s ∨ op = op_write ∨
        (∃ len, op = op_read_exactly len 0) ∨ op = op_read_all 0.
Proof.
  assert (Hatt : ∀ s0 op, op ∈ ops (attempt_request s0) →
                          op ∈ ops s0 ∨ op = op_write).
  { intros s0 op. unfold attempt_request.
    destruct (m_pending s0); [auto|].
    destruct (m_queue s0); [auto|]. simpl.
    rewrite elem_of_app, list_elem_of_singleton. auto. }
  assert (Hbl : ∀ e s0, ops (fail_backlog e s0) = ops s0).
  { intros e s0. unfold fail_backlog. generalize (m_queue s0) as q.
    intros q. revert s0. induction q as [|w q IH]; intros s0; simpl;
      [reflexivity|]. rewrite IH. reflexivity. }
  assert (Hfail : ∀ e s0 s2, fail_request e s0 = Returns s2 →
            ∀ op, op ∈ ops s2 → op ∈ ops s0 ∨ op = op_write).
  { intros e s0 s2. unfold fail_request, work.
    assert (Hc : Returns (emit a_onclose (emit a_close (fail_backlog e s0)))
                 = Returns s2 → ∀ op, op ∈ ops s2 → op ∈ ops s0 ∨ op = op_write).
    { intros E. injection E as <-. simpl. rewrite Hbl. auto. }
    destruct e; try exact Hc;
      (destruct (m_work s0); simpl; [|discriminate]);
      intros E; injection E as <-; intros op Hop;
      apply Hatt in Hop; exact Hop. }
  unfold on_header_recvd.
  destruct (Net.failed ec); [intros E op Hop; destruct (Hfail _ _ _ E op Hop); auto|].
  remember (set_temp_buffer EmptyString (consume_all s)) as s0 eqn:Es0.
  assert (Hops : ops s0 = ops s) by (subst s0; reflexivity).
  clear Es0.
  assert (Hfail0 : ∀ s2, fail_request ec s0 = Returns s2 →
            ∀ op, op ∈ ops s2 → op ∈ ops s ∨ op = op_write ∨
              (∃ len, op = op_read_exactly len 0) ∨ op = op_read_all 0).
  { intros s2 E op Hop. destruct (Hfail _ _ _ E op Hop); [rewrite <- Hops|]; auto. }
  destruct (split_lines _ _ _) as [[ls temp]| | |]; simpl; try discriminate.
  destruct (if String.eqb temp EmptyString then ls else ls ++ [temp])
    as [|line0 rest]; [apply Hfail0|].
  destruct (_ && _); [apply Hfail0|].
  destruct (char_at line0 9) as [c0| | |]; simpl; try discriminate.
  destruct (char_at line0 10) as [c1| | |]; simpl; try discriminate.
  destruct (char_at line0 11) as [c2| | |]; simpl; try discriminate.
  destruct (_ && _); [apply Hfail0|].
  destruct (process_headers rest Headers.new) as [hdrs|]; [|apply Hfail0].
  destruct (m_work s0) as [w|]; [|discriminate].
  destruct (Headers.get "Content-Length" hdrs) as [ct_len|].
  - destruct (strtoul (c_str ct_len)) as [len p].
    destruct (negb _).
    + intros E op Hop. destruct (Hfail _ _ _ E op Hop) as [Hin|]; [|auto].
      simpl in Hin. rewrite <- Hops. auto.
    + intros E. injection E as <-. simpl. intros op.
      rewrite elem_of_app, list_elem_of_singleton, <- Hops.
      intros [Hin | ->]; eauto.
  - intros E. injection E as <-. simpl. intros op.
    rewrite elem_of_app, list_elem_of_singleton, <- Hops.
    intros [Hin | ->]; eauto.
Qed.

(** With that version, a body received without error always ends in the
    socket being closed and the owner told. *)
Lemma body_read_closes (ec : Net.error_code) (s s1 : t) :
  Net.failed ec = false → on_body_recvd 0 ec s = Returns s1 →
  ∃ pre, trace s1 = pre ++ [a_onclose] ∧ a_close ∈ pre ∧
         m_pending s1 = m_pending s.
Proof.
  intros Hok. unfold on_body_recvd. rewrite Hok.
  destruct (m_response s) as [resp|]; [|discriminate].
  unfold work. simpl. destruct (m_work s) as [w|]; simpl; [|discriminate].
  intros E. injection E as <-. unfold close_connection.
  eexists. split; [reflexivity|].
  assert (Hbl : ∀ e s0, a_close ∈ trace s0 →
            a_close ∈ trace (fail_backlog e s0) ∧
            m_pending (fail_backlog e s0) = m_pending s0).
  { intros e s0. unfold fail_backlog. generalize (m_queue s0) as q.
    intros q. revert s0. induction q as [|x q IH]; intros s0 Hin; simpl;
      [auto|].
    destruct (IH (emit (a_call (snd x) e None) s0)) as [H1 H2];
      [simpl; apply elem_of_app; auto|]. auto. }
  match goal with
  | |- a_close ∈ trace (fail_backlog ?e ?x) ∧ _ =>
      destruct (Hbl e x) as [H1 H2]
  end.
  { simpl. apply elem_of_app. right. apply list_elem_of_singleton.
    reflexivity. }
  split; [exact H1|]. simpl. rewrite H2. reflexivity.
Qed.

End Bodies.

Section Responses.
Import HTTPConnection.

(** C4, at inputs where the code departs from it.  The request of
    [POSTTarget::write] is answered with [Content-Length: 5] and the body
    [hello]: the headers are cut out of the request that was sent, so the
    length is not seen and a read to the end of the stream is started, the
    body bytes that came with the headers are thrown away, and when the
    peer closes nothing is handed to the handler; the same when headers and
    body come in separate reads, and the same for a close-terminated body.
    When the request itself carries [Content-Length: 5], five bytes are
    read and a response is handed over, with an empty body. *)
Theorem declared_length_body_is_lost :
  (∃ s, conn_after [ev_request plain_post 7%nat; written;
                    received (ok_length_5 +:+ "hello")] = Some s ∧
        ops s = [op_read_all 0] ∧ m_recv_buffer s = EmptyString ∧
        calls_of 7%nat s = []) ∧
  (∃ s, conn_after [ev_request plain_post 7%nat; written;
                    received (ok_length_5 +:+ "hello");
                    closed_after EmptyString] = Some s ∧
        ops s = [] ∧ calls_of 7%nat s = []) ∧
  (∃ s, conn_after [ev_request plain_post 7%nat; written;
                    received ok_length_5; closed_after "hello"] = Some s ∧
        ops s = [] ∧ calls_of 7%nat s = []) ∧
  (∃ s, conn_after [ev_request plain_post 7%nat; written;
                    received ok_close; closed_after "all the bytes"] = Some s ∧
        ops s = [] ∧ calls_of 7%nat s = []) ∧
  (∃ s r, conn_after [ev_request post_length_5 7%nat; written;
                      received ok_length_5; received "hello"] = Some s ∧
          calls_of 7%nat s = [Some r] ∧
          Response.m_body r = EmptyString ∧
          String.length (Response.m_body r) ≠ 5%nat).
Proof.
  repeat split.
  - eexists. split; [vm_compute; reflexivity|]. repeat split.
  - eexists. split; [vm_compute; reflexivity|]. repeat split.
  - eexists. split; [vm_compute; reflexivity|]. repeat split.
  - eexists. split; [vm_compute; reflexivity|]. repeat split.
  - eexists. eexists. split; [vm_compute; reflexivity|].
    split; [vm_compute; reflexivity|]. split; [reflexivity|].
    vm_compute. discriminate.
Qed.

(** C5, at an input where the code departs from it.  A request is
    answered by an HTTP/1.1 response that asks to keep the connection
    alive, while a second request waits behind it: the response is handed
    over, and then the socket is closed, the waiting request is failed and
    the owner of the connection is told, instead of the waiting request
    being sent. *)
Theorem keep_alive_response_closes :
  ∃ s r,
    conn_after [ev_request post_length_0 7%nat; ev_request plain_post 8%nat;
                written; received ok_keep_alive; received EmptyString]
      = Some s ∧
    trace s = [a_send (encode_request post_length_0);
               a_call 7%nat Net.success (Some r);
               a_close;
               a_call 8%nat Net.eof None;
               a_onclose] ∧
    ResponseCode.as_int (Response.m_code r) = 200 ∧
    ops s = [].
Proof.
  eexists. eexists. split; [vm_compute; reflexivity|].
  split; [vm_compute; reflexivity|].
  split; [vm_compute; reflexivity|]. reflexivity.
Qed.

(** C7, at an input where the code departs from it.  A status line whose
    code is [2x0] is accepted: the request completes with a response that
    counts as a success.  Only a code none of whose three characters is a
    digit is rejected, as is another version. *)
Theorem non_numeric_status_accepted :
  (∃ s r, conn_after [ev_request post_length_0 7%nat; written;
                      received status_2x0; received EmptyString] = Some s ∧
          calls_of 7%nat s = [Some r] ∧
          Response.m_code r =
            {| ResponseCode.d0 := 2; ResponseCode.d1 := 72;
               ResponseCode.d2 := 0 |} ∧
          Response.to_bool r = true) ∧
  (∃ s, conn_after [ev_request post_length_0 7%nat; written;
                    received status_abc] = Some s ∧
        calls_of 7%nat s = [None]) ∧
  (∃ s, conn_after [ev_request post_length_0 7%nat; written;
                    received version_2] = Some s ∧
        calls_of 7%nat s = [None]).
Proof.
  repeat split.
  - eexists. eexists. split; [vm_compute; reflexivity|].
    split; [vm_compute; reflexivity|]. split; reflexivity.
  - eexists. split; [vm_compute; reflexivity|]. vm_compute; reflexivity.
  - eexists. split; [vm_compute; reflexivity|]. vm_compute; reflexivity.
Qed.

End Responses.

(* ===================================================================== *)
(** * Properties: the HTTP target *)
(* ===================================================================== *)

(** C6, at an input where the code departs from it.  A request is
    submitted and the resolver reports an error: the connection is dropped
    and the handler is not called, now or later, since nothing is left
    under way that could call it; with or without keep-alive.  When it is
    the connect that fails, the handler is called with no response. *)
Theorem resolve_failure_drops_handler :
  (∀ keepalive, ∃ s,
     target_after keepalive
       [HTTPTarget.ev_submit plain_post 7%nat;
        HTTPTarget.ev_done 0 Net.other_error] = Some s ∧
     HTTPTarget.called s = [] ∧
     HTTPTarget.outstanding s = [] ∧
     under_way s = []) ∧
  (∀ keepalive, ∃ s,
     target_after keepalive
       [HTTPTarget.ev_submit plain_post 7%nat;
        HTTPTarget.ev_done 0 Net.success;
        HTTPTarget.ev_done 0 Net.other_error] = Some s ∧
     HTTPTarget.called s = [(7%nat, None)] ∧
     HTTPTarget.outstanding s = [] ∧
     under_way s = []).
Proof.
  split; intros [|]; eexists;
    (split; [vm_compute; reflexivity|]); repeat split.
Qed.

(* ===================================================================== *)
(** * Further properties: the JSON writer *)
(* ===================================================================== *)

Lemma append_cons (x : ascii) (a b : string) :
  String x a +:+ b = String x (a +:+ b).
Proof. reflexivity. Qed.

Lemma append_assoc (a b c : string) : (a +:+ b) +:+ c = a +:+ (b +:+ c).
Proof.
  induction a as [|x a IH]; [reflexivity|].
  rewrite !append_cons. f_equal. exact IH.
Qed.

Lemma append_nil_r (a : string) : a +:+ EmptyString = a.
Proof.
  induction a as [|x a IH]; [reflexivity|].
  rewrite append_cons. f_equal. exact IH.
Qed.

Lemma append_length (a b : string) :
  String.length (a +:+ b) = (String.length a + String.length b)%nat.
Proof.
  induction a as [|x a IH]; [reflexivity|].
  rewrite append_cons. simpl. f_equal. exact IH.
Qed.

Lemma list_ascii_append (a b : string) :
  list_ascii_of_string (a +:+ b) =
  list_ascii_of_string a ++ list_ascii_of_string b.
Proof.
  induction a as [|x a IH]; [reflexivity|].
  rewrite append_cons. simpl. f_equal. exact IH.
Qed.




Section Depth.
Context {double : Type} (show_double : double → string).

Lemma emit_begin_first (w w1 : JSON.JSONWriter) :
  JSON.emit_begin w = Returns w1 →
  JSON.m_stack w1 = JSON.m_stack w ∧
  length (JSON.m_first w1) = length (JSON.m_first w).
Proof.
  unfold JSON.emit_begin.
  destruct (last (JSON.m_first w)) as [[|]|] eqn:E; intros H;
    try discriminate; injection H as <-; simpl; split; try reflexivity.
  rewrite length_app. simpl. pose proof (removelast_shorter _ _ E). lia.
Qed.

Lemma emit_key_first (k : string) (w w1 : JSON.JSONWriter) :
  JSON.emit_key k w = Returns w1 →
  JSON.m_stack w1 = JSON.m_stack w ∧
  length (JSON.m_first w1) = length (JSON.m_first w).
Proof.
  unfold JSON.emit_key.
  destruct (JSON.emit_begin w) as [w0| | |] eqn:E; simpl; try discriminate.
  intros H. injection H as <-. simpl. apply (emit_begin_first _ _ E).
Qed.

(** One call that returns: the depth moves by what the call opens and
    closes, and [m_first] grows by what it opens and never shrinks. *)
Lemma do_call_depth (c : JSON.call) (w w1 : JSON.JSONWriter) :
  JSON.do_call show_double c w = Returns w1 →
  (length (JSON.m_stack w1) + (if JSON.is_end c then 1 else 0) =
   length (JSON.m_stack w) + (if JSON.opens c then 1 else 0))%nat ∧
  length (JSON.m_first w1) =
    (length (JSON.m_first w) + (if JSON.opens c then 1 else 0))%nat.
Proof.
  destruct c; simpl;
    unfold JSON.object, JSON.array, JSON.value_int, JSON.value_bool,
      JSON.value_str, JSON.value_double, JSON.object_key, JSON.array_key,
      JSON.key_int, JSON.key_bool, JSON.key_str, JSON.key_double.
  all: try (destruct (JSON.emit_begin w) as [w0| | |] eqn:E; simpl;
            try discriminate; intros H; injection H as <-;
            destruct (emit_begin_first _ _ E) as [Hs Hf]; simpl;
            rewrite ?length_app, ?Hs, ?Hf; simpl; lia).
  all: try (destruct (JSON.emit_key k w) as [w0| | |] eqn:E; simpl;
            try discriminate; intros H; injection H as <-;
            destruct (emit_key_first _ _ _ E) as [Hs Hf]; simpl;
            rewrite ?length_app, ?Hs, ?Hf; simpl; lia).
  unfold JSON.end_.
  destruct (last (JSON.m_stack w)) as [t|] eqn:E; [|discriminate].
  intros H. injection H as <-. simpl.
  pose proof (removelast_shorter _ _ E).
  destruct t; simpl; lia.
Qed.

Lemma do_calls_depth (cs : list JSON.call) :
  ∀ w w1, JSON.do_calls show_double cs w = Returns w1 →
    (length (JSON.m_stack w1) + ends cs =
     length (JSON.m_stack w) + opened cs)%nat ∧
    length (JSON.m_first w1) = (length (JSON.m_first w) + opened cs)%nat.
Proof.
  induction cs as [|c cs IH]; intros w w1; simpl.
  - intros H. injection H as <-. unfold ends, opened. simpl. lia.
  - destruct (JSON.do_call show_double c w) as [w0| | |] eqn:E; simpl;
      try discriminate.
    intros H. destruct (IH _ _ H) as [H1 H2].
    destruct (do_call_depth _ _ _ E) as [H3 H4].
    rewrite ends_cons, opened_cons. lia.
Qed.

(** X2.  When a sequence of calls on a fresh writer returns, the depth of
    the container stack is one plus the containers opened minus the calls
    of [end()], while [m_first] holds one flag for the root and one for
    every container ever opened: [end()] never takes one away. *)
Theorem calls_keep_depth :
  ∀ (root : JSON.EnclosureType) (cs : list JSON.call) (w : JSON.JSONWriter),
    JSON.do_calls show_double cs (JSON.new root) = Returns w →
    (length (JSON.m_stack w) + ends cs = 1 + opened cs)%nat ∧
    length (JSON.m_first w) = (1 + opened cs)%nat.
Proof.
  intros root cs w H.
  destruct (do_calls_depth _ _ _ H) as [H1 H2].
  destruct root; simpl in *; lia.
Qed.

(** X3.  A container that is closed while still empty leaves its "first"
    flag set on top of [m_first], so the container opened next is written
    right behind it with no comma in between. *)
Theorem no_comma_after_empty_container :
  ∀ (t1 t2 : JSON.EnclosureType) (w : JSON.JSONWriter) (b : bool),
    last (JSON.m_first w) = Some b →
    ∃ w1,
      JSON.do_calls show_double [open_call t1; JSON.c_end; open_call t2] w
        = Returns w1 ∧
      JSON.m_out w1 =
        JSON.m_out w +:+ (if b then EmptyString else ",") +:+
        opener t1 +:+ closers [t1] +:+ opener t2.
Proof.
  intros t1 t2 w b Hb.
  assert (Hopen : ∀ t w0 w2, JSON.emit_begin w0 = Returns w2 →
            JSON.do_call show_double (open_call t) w0 =
            Returns (JSON.push t (JSON.emit_open t w2))).
  { intros t w0 w2 E. destruct t; simpl; unfold JSON.object, JSON.array;
      rewrite E; reflexivity. }
  assert (Hb1 : ∃ w2, JSON.emit_begin w = Returns w2 ∧
            JSON.m_out w2 = JSON.m_out w +:+ (if b then EmptyString else ",")).
  { unfold JSON.emit_begin. rewrite Hb.
    destruct b; eexists; (split; [reflexivity|]); simpl;
      [rewrite append_nil_r|]; reflexivity. }
  destruct Hb1 as (w2 & E2 & Hout2).
  cbn [JSON.do_calls]. rewrite (Hopen t1 w w2 E2).
  destruct t1, t2; simpl;
    unfold JSON.end_, JSON.object, JSON.array, JSON.emit_begin; simpl;
    rewrite !last_snoc; simpl; rewrite !last_snoc; simpl;
    (eexists; split; [reflexivity|]); simpl;
    rewrite Hout2, !append_assoc; reflexivity.
Qed.

End Depth.

Section Documents.
Context {double : Type} (show_double : double → string).

Lemma removelast_length {A} (l : list A) :
  length (removelast l) = pred (length l).
Proof.
  induction l as [|x l IH]; [reflexivity|].
  destruct l as [|y l]; [reflexivity|].
  simpl in *. rewrite IH. reflexivity.
Qed.

Lemma closers_app (l1 l2 : list JSON.EnclosureType) :
  closers (l1 ++ l2) = closers l1 +:+ closers l2.
Proof.
  induction l1 as [|t l1 IH]; [reflexivity|].
  destruct t; simpl; rewrite IH; reflexivity.
Qed.

Lemma close_all_closes (n : nat) :
  ∀ stack first out,
    length stack = n → (n ≤ length first)%nat →
    JSON.close_all stack first out n = Returns (out +:+ closers (rev stack)).
Proof.
  induction n as [|n IH]; intros stack first out Hn Hf.
  - destruct stack; [|discriminate]. simpl. rewrite append_nil_r. reflexivity.
  - destruct (last stack) as [t|] eqn:El.
    2:{ apply last_None in El. subst stack. discriminate. }
    pose proof El as Hl. apply last_Some in Hl as [l ->].
    cbn [JSON.close_all]. rewrite El.
    destruct first as [|f first]; [simpl in Hf; lia|].
    rewrite removelast_last.
    rewrite IH.
    + rewrite rev_app_distr. simpl rev. simpl app.
      destruct t; simpl; rewrite append_assoc; reflexivity.
    + rewrite length_app in Hn. simpl in Hn. lia.
    + rewrite removelast_length. simpl in *. lia.
Qed.

(** X4.  Whatever calls were made on a writer, its destructor closes the
    containers still open, innermost first, and ends the document with a
    newline. *)
Theorem destructor_closes_what_is_open :
  ∀ (root : JSON.EnclosureType) (cs : list JSON.call) (w : JSON.JSONWriter),
    JSON.do_calls show_double cs (JSON.new root) = Returns w →
    JSON.destroy w =
      Returns (JSON.m_out w +:+ closers (rev (JSON.m_stack w)) +:+ newline).
Proof.
  intros root cs w H.
  destruct (do_calls_depth _ _ _ _ H) as [H1 H2].
  assert (length (JSON.m_stack w) ≤ length (JSON.m_first w))%nat
    by (destruct root; simpl in *; lia).
  unfold JSON.destroy.
  rewrite (close_all_closes _ _ _ _ eq_refl); [|lia].
  simpl. rewrite append_assoc. reflexivity.
Qed.

Lemma bind_returns {A} (m : outcome A) : m ≫= (λ a, Returns a) = m.
Proof. destruct m; reflexivity. Qed.

Lemma do_calls_app (l1 l2 : list JSON.call) (w : JSON.JSONWriter) :
  JSON.do_calls show_double (l1 ++ l2) w =
  JSON.do_calls show_double l1 w ≫= JSON.do_calls show_double l2.
Proof.
  revert w. induction l1 as [|c l1 IH]; intros w; simpl; [reflexivity|].
  destruct (JSON.do_call show_double c w); simpl; [apply IH| | |]; reflexivity.
Qed.

(** The serialization of a box, of the boxes of a result and of the results
    is the sequence of calls it is written as. *)
Lemma write_box_calls (json : JSON.JSONWriter) (box : ml.BoundingBox) :
  Metadumper.write_box json box =
  JSON.do_calls show_double (box_calls box) json.
Proof.
  unfold Metadumper.write_box, box_calls.
  destruct (negb (ml.id box =? 0)), (negb (ml.tag box =? 0)); simpl;
    destruct (JSON.object json); simpl; try reflexivity;
    repeat match goal with
           | |- context [?m ≫= (λ a, Returns a)] => rewrite (bind_returns m)
           | |- (?m ≫= _) = (?m ≫= _) => destruct m; simpl; try reflexivity
           end;
    reflexivity.
Qed.

Lemma write_boxes_calls (boxes : list ml.BoundingBox) :
  ∀ json, Metadumper.write_boxes json boxes =
          JSON.do_calls show_double (flat_map box_calls boxes) json.
Proof.
  induction boxes as [|box boxes IH]; intros json; [reflexivity|].
  cbn [Metadumper.write_boxes flat_map].
  rewrite do_calls_app, write_box_calls.
  destruct (JSON.do_calls show_double (box_calls box) json); simpl;
    [apply IH| | |]; reflexivity.
Qed.

Lemma write_result_calls (res : ml.AlgorithmResult) (json : JSON.JSONWriter) :
  Metadumper.write_result json res =
  JSON.do_calls show_double (result_calls res) json.
Proof.
  destruct res as [boxes| |classes]; try reflexivity.
  unfold Metadumper.write_result, Metadumper.write_boundboxes, result_calls.
  simpl.
  destruct (JSON.object json) as [j1| | |]; simpl; try reflexivity.
  destruct (JSON.key_str "type" "bounding-boxes" j1) as [j2| | |]; simpl;
    try reflexivity.
  destruct (JSON.array_key "boxes" j2) as [j3| | |]; simpl; try reflexivity.
  rewrite do_calls_app, write_boxes_calls.
  destruct (JSON.do_calls show_double (flat_map box_calls boxes) j3)
    as [j4| | |]; simpl; try reflexivity.
  destruct (JSON.end_ j4); simpl; try reflexivity.
  rewrite bind_returns. reflexivity.
Qed.

Lemma write_results_calls (res : list ml.AlgorithmResult) :
  ∀ json, Metadumper.write_results json res =
          JSON.do_calls show_double (flat_map result_calls res) json.
Proof.
  induction res as [|r res IH]; intros json; [reflexivity|].
  cbn [Metadumper.write_results flat_map].
  rewrite do_calls_app, write_result_calls.
  destruct (JSON.do_calls show_double (result_calls r) json); simpl;
    [apply IH| | |]; reflexivity.
Qed.

Lemma build_calls (res : list ml.AlgorithmResult) (fps : Z) (fpga : bool)
    (cpu_use framerate : double) (fr_time : Z) :
  Metadumper.build show_double res fps fpga cpu_use framerate fr_time =
  JSON.do_calls show_double
    (frame_calls res fps fpga cpu_use framerate fr_time)
    (JSON.new JSON.OBJECT) ≫= JSON.destroy.
Proof.
  unfold Metadumper.build, frame_calls.
  change (?a :: ?b :: ?c :: ?d :: ?e :: ?f :: ?g :: ?h :: ?i :: [] ++ ?r)
    with ([a; b; c; d; e; f; g; h; i] ++ r).
  rewrite do_calls_app.
  cbn [JSON.do_calls JSON.do_call].
  do 9 (match goal with
        | |- (?m ≫= _) = _ => destruct m; simpl; try reflexivity
        end).
  rewrite do_calls_app, write_results_calls.
  match goal with
  | |- (?m ≫= _) = _ => destruct m; simpl; try reflexivity
  end.
  match goal with
  | |- (?m ≫= _) = _ => destruct m; simpl; try reflexivity
  end.
Qed.







End Documents.

Lemma calls_keep_depth_witness :
  ∃ w, JSON.do_calls Stream.show_double
         [JSON.c_array_key "a"; JSON.c_value_int 1; JSON.c_end;
          JSON.c_object_key "b"]
         (JSON.new JSON.OBJECT) = Returns w ∧
       (length (JSON.m_stack w) + 1 = 1 + 2)%nat ∧
       length (JSON.m_first w) = (1 + 2)%nat.
Proof.
  eexists. split; [vm_compute; reflexivity|].
  apply (calls_keep_depth Stream.show_double JSON.OBJECT
           [JSON.c_array_key "a"; JSON.c_value_int 1; JSON.c_end;
            JSON.c_object_key "b"]).
  reflexivity.
Defined.

Lemma no_comma_after_empty_container_witness :
  ∃ w1,
    JSON.do_calls Stream.show_double
      [open_call JSON.ARRAY; JSON.c_end; open_call JSON.OBJECT]
      (JSON.new JSON.ARRAY) = Returns w1 ∧
    JSON.m_out w1 = "[[]{".
Proof.
  destruct (no_comma_after_empty_container Stream.show_double
              JSON.ARRAY JSON.OBJECT
              (JSON.new JSON.ARRAY) true eq_refl) as (w1 & H1 & H2).
  exists w1. split; [exact H1|exact H2].
Defined.

Lemma destructor_closes_what_is_open_witness :
  JSON.destroy
    {| JSON.m_out := "{" +:+ String JSON.dquote "a" +:+ String JSON.dquote ":[";
       JSON.m_stack := [JSON.OBJECT; JSON.ARRAY];
       JSON.m_first := [false; true] |}
  = Returns ("{" +:+ String JSON.dquote "a" +:+ String JSON.dquote ":[" +:+
             "]}" +:+ newline).
Proof.
  apply (destructor_closes_what_is_open Stream.show_double JSON.OBJECT
           [JSON.c_array_key "a"]).
  reflexivity.
Defined.

Section Skipped.
Context {double : Type} (show_double : double → string).
Context {T : Type} `{DumpTarget T}.

Lemma result_calls_filter (res : list ml.AlgorithmResult) :
  flat_map (result_calls (double := double)) (List.filter is_boxes res) =
  flat_map result_calls res.
Proof.
  induction res as [|r res IH]; [reflexivity|].
  destruct r; simpl; rewrite IH; reflexivity.
Qed.

(** X6.  The document depends on the arguments of [accept] only through
    the bounding-box results and the metrics: results of any other kind
    are skipped, and the frame number is not written.  [accept] does to
    its target what it does when those results are taken out of the list
    and the frame number is another. *)
Theorem other_results_are_skipped :
  ∀ (res : list ml.AlgorithmResult) (fps frame frame1 : Z) (fpga : bool)
    (cpu_use framerate : double) (fr_time : Z) (m : Metadumper.Metadumper T),
    Metadumper.accept show_double res fps frame fpga cpu_use framerate
      fr_time m =
    Metadumper.accept show_double (List.filter is_boxes res) fps frame1 fpga
      cpu_use framerate fr_time m.
Proof.
  intros. unfold Metadumper.accept. rewrite !build_calls.
  unfold frame_calls. rewrite result_calls_filter. reflexivity.
Qed.

End Skipped.

(* ===================================================================== *)
(** * Further properties: the queued senders *)
(* ===================================================================== *)

Section Flow.
Import Net.

Lemma flow_inv_same {T} (sending : T → list buffer) (P : list buffer)
    (k : nat) (s s1 : SocketTarget T) :
  m_queue s1 = m_queue s → m_pending s1 = m_pending s →
  child s1 = child s → attempts s1 = attempts s →
  flow_inv sending P k s → flow_inv sending P k s1.
Proof.
  intros Hq Hp Hc Ha (H1 & H2 & H3).
  unfold flow_inv. rewrite Hq, Hp, Hc, Ha. auto.
Qed.

Lemma flow_inv_push {T} (sending : T → list buffer) (P : list buffer)
    (k : nat) (b : buffer) (s : SocketTarget T) :
  flow_inv sending P k s → flow_inv sending (P ++ [b]) k (enqueue_push b s).
Proof.
  intros ((done & HP & Hk) & Hfl & Hat). split; [|split]; simpl.
  - exists done. rewrite HP, app_assoc. auto.
  - destruct (m_pending s); [|exact Hfl].
    destruct Hfl as (b0 & q & Hq & Hs). rewrite Hq. simpl. eauto.
  - eapply Forall_impl; [exact Hat|]. intros a Ha. simpl in Ha.
    apply elem_of_app. auto.
Qed.

Lemma flow_inv_succeed {T} (sending : T → list buffer) (P : list buffer)
    (k : nat) (c : T) (s : SocketTarget T) :
  flow_inv sending P k s → m_pending s = true → sending c = [] →
  flow_inv sending P (S k) (on_transmit_succeed (set_child c s)).
Proof.
  intros ((done & HP & Hk) & Hfl & Hat) Hp Hc. rewrite Hp in Hfl.
  destruct Hfl as (b & q & Hq & _).
  split; [|split]; simpl; [|exact Hc|exact Hat].
  exists (done ++ [b]). rewrite Hq. simpl.
  rewrite HP, Hq, <- app_assoc, length_app. simpl. split; [reflexivity|lia].
Qed.

Lemma flow_inv_fail {T} (sending : T → list buffer) (P : list buffer)
    (k : nat) (s s1 : SocketTarget T) :
  flow_inv sending P k s → m_queue s1 = m_queue s →
  attempts s1 = attempts s → sending (child s1) = [] →
  flow_inv sending P k (on_transmit_fail s1).
Proof.
  intros (Hd & _ & Hat) Hq Ha Hc.
  unfold on_transmit_fail, retry_after, expires_from_now; simpl.
  destruct (_ <? 0); (split; [|split]); simpl; rewrite ?Hq, ?Ha;
    assumption.
Qed.

Lemma flow_inv_front {T} (sending : T → list buffer) (P : list buffer)
    (k : nat) (s : SocketTarget T) (front : buffer) (q : list buffer) :
  flow_inv sending P k s → m_queue s = front :: q → front ∈ P.
Proof.
  intros ((done & HP & _) & _) Hq. rewrite HP, Hq.
  apply elem_of_app. right. apply list_elem_of_here.
Qed.

Lemma udp_flow_perform_attempt (P : list buffer) (k : nat)
    (s : SocketTarget UDPTarget) :
  flow_inv udp_sending P k s → flow_inv udp_sending P k (perform_attempt s).
Proof.
  intros Hinv. pose proof Hinv as (Hd & Hfl & Hat).
  unfold perform_attempt.
  destruct (m_pending s) eqn:Hp; [exact Hinv|].
  destruct (m_queue s) as [|front q] eqn:Hq; [exact Hinv|].
  unfold attempt_send, udp_transport. simpl.
  split; [|split]; simpl.
  - rewrite Hq. exact Hd.
  - rewrite Hq, Hfl. simpl. eauto.
  - apply Forall_app. split; [exact Hat|].
    constructor; [|constructor]. simpl.
    eapply flow_inv_front; eassumption.
Qed.

Lemma udp_flow_step (P : list buffer) (k : nat) (e : event)
    (s s1 : SocketTarget UDPTarget) :
  flow_inv udp_sending P k s → udp_step e s = Some s1 →
  flow_inv udp_sending (P ++ pushed [e]) (k + successes [e]) s1.
Proof.
  intros Hinv Hstep.
  destruct e as [d|b| | |ec|ec]; simpl in Hstep; unfold successes; simpl;
    rewrite ?app_nil_r, ?Nat.add_0_r.
  - destruct (0 <=? d); [|discriminate]. injection Hstep as <-.
    eapply flow_inv_same; [| | | |exact Hinv]; reflexivity.
  - injection Hstep as <-. apply flow_inv_push. exact Hinv.
  - destruct (calls s); [discriminate|]. injection Hstep as <-.
    apply udp_flow_perform_attempt.
    eapply flow_inv_same; [| | | |exact Hinv]; reflexivity.
  - unfold fire in Hstep.
    destruct (aborted s) as [|h r].
    + destruct (_ <=? _); [|discriminate].
      destruct (waiting _) as [|h r]; [discriminate|].
      injection Hstep as <-.
      destruct h; simpl; [apply udp_flow_perform_attempt|];
        (eapply flow_inv_same; [| | | |exact Hinv]; reflexivity).
    + injection Hstep as <-.
      destruct h; simpl; [apply udp_flow_perform_attempt|];
        (eapply flow_inv_same; [| | | |exact Hinv]; reflexivity).
  - destruct (udp_sending (child s)) as [|b0 r] eqn:Es; [discriminate|].
    injection Hstep as <-.
    pose proof Hinv as (_ & Hfl & _).
    destruct (m_pending s) eqn:Hp; [|congruence].
    destruct Hfl as (b & q & Hq & Hs). rewrite Es in Hs. injection Hs as -> ->.
    unfold udp_sent. destruct (failed ec) eqn:Ef; simpl.
    + rewrite Nat.add_0_r.
      apply (flow_inv_fail udp_sending P k s); auto.
    + replace (k + 1)%nat with (S k) by lia.
      apply (flow_inv_succeed udp_sending); auto.
  - discriminate.
Qed.

Lemma successes_app (l1 l2 : list event) :
  successes (l1 ++ l2) = (successes l1 + successes l2)%nat.
Proof. unfold successes. rewrite List.filter_app, length_app. reflexivity. Qed.

Lemma udp_flow_run (evs : list event) :
  ∀ P k s s1, flow_inv udp_sending P k s → udp_run evs s = Some s1 →
    flow_inv udp_sending (P ++ pushed evs) (k + successes evs) s1.
Proof.
  induction evs as [|e evs IH]; intros P k s s1 Hinv Hrun; simpl in Hrun.
  - injection Hrun as <-. unfold successes. simpl.
    rewrite app_nil_r, Nat.add_0_r. exact Hinv.
  - destruct (udp_step e s) as [s0|] eqn:Es; [|discriminate].
    change (e :: evs) with ([e] ++ evs).
    rewrite pushed_app, successes_app, app_assoc, Nat.add_assoc.
    eapply IH; [|exact Hrun]. eapply udp_flow_step; eassumption.
Qed.

Lemma flow_inv_facts {T} (sending : T → list buffer) (P : list buffer)
    (k : nat) (s : SocketTarget T) :
  flow_inv sending P k s →
  (length (sending (child s)) ≤ 1)%nat ∧ (k ≤ length P)%nat ∧
  m_queue s = drop k P ∧ Forall (λ a, at_buf a ∈ P) (attempts s).
Proof.
  intros ((done & HP & Hk) & Hfl & Hat).
  split; [|split; [|split]].
  - destruct (m_pending s); [|rewrite Hfl; simpl; lia].
    destruct Hfl as (b & q & _ & ->). simpl. lia.
  - rewrite HP, length_app. lia.
  - rewrite HP, <- Hk. symmetry. apply drop_app_length.
  - exact Hat.
Qed.

(** X7.  After any events on a datagram sender, failures included: at most
    one send is under way; the queue is what was queued less as many
    buffers from its front as sends were reported done, so nothing is lost
    and nothing is taken out of turn; and only queued buffers were ever
    attempted. *)
Theorem datagram_queue_is_conserved :
  ∀ (evs : list event) (s : SocketTarget UDPTarget),
    udp_run evs udp_init = Some s →
    (length (udp_sending (child s)) ≤ 1)%nat ∧
    (successes evs ≤ length (pushed evs))%nat ∧
    m_queue s = drop (successes evs) (pushed evs) ∧
    Forall (λ a, at_buf a ∈ pushed evs) (attempts s).
Proof.
  intros evs s Hrun.
  apply (flow_inv_facts udp_sending (pushed evs) (successes evs)).
  apply (udp_flow_run evs [] 0%nat udp_init s); [|exact Hrun].
  split; [|split]; simpl; [exists []; auto|reflexivity|constructor].
Qed.

Lemma datagram_queue_is_conserved_witness :
  ∃ s, udp_run udp_mixed udp_init = Some s ∧
       m_queue s = [buf_b] ∧
       (length (udp_sending (child s)) ≤ 1)%nat.
Proof.
  eexists. split; [vm_compute; reflexivity|].
  match goal with
  | |- m_queue ?s = _ ∧ _ =>
      destruct (datagram_queue_is_conserved udp_mixed s eq_refl)
        as (H1 & _ & H3 & _)
  end.
  split; [exact H3|exact H1].
Defined.

Lemma tcp_flow_perform_attempt (P : list buffer) (k : nat)
    (s : SocketTarget TCPTarget) :
  flow_inv tcp_sending P k s → flow_inv tcp_sending P k (perform_attempt s).
Proof.
  intros Hinv. pose proof Hinv as (Hd & Hfl & Hat).
  unfold perform_attempt.
  destruct (m_pending s) eqn:Hp; [exact Hinv|].
  destruct (m_queue s) as [|front q] eqn:Hq; [exact Hinv|].
  assert (Hfront : front ∈ P) by (eapply flow_inv_front; eassumption).
  unfold attempt_send, tcp_transport.
  destruct (m_connected (child s)); simpl.
  - split; [|split]; simpl.
    + rewrite Hq. exact Hd.
    + rewrite Hq, Hfl. simpl. eauto.
    + apply Forall_app. split; [exact Hat|]. repeat constructor. exact Hfront.
  - unfold retry_after, expires_from_now; simpl.
    destruct (_ <? 0); (split; [|split]); simpl;
      rewrite ?Hq, ?Hp; try assumption;
      (apply Forall_app; split; [exact Hat|]; repeat constructor;
       exact Hfront).
Qed.

Lemma tcp_flow_step (P : list buffer) (k : nat) (e : event)
    (s s1 : SocketTarget TCPTarget) :
  flow_inv tcp_sending P k s → tcp_step e s = Some s1 →
  flow_inv tcp_sending (P ++ pushed [e]) (k + successes [e]) s1.
Proof.
  intros Hinv Hstep.
  destruct e as [d|b| | |ec|ec]; simpl in Hstep; unfold successes; simpl;
    rewrite ?app_nil_r, ?Nat.add_0_r.
  - destruct (0 <=? d); [|discriminate]. injection Hstep as <-.
    eapply flow_inv_same; [| | | |exact Hinv]; reflexivity.
  - injection Hstep as <-. apply flow_inv_push. exact Hinv.
  - destruct (calls s); [discriminate|]. injection Hstep as <-.
    apply tcp_flow_perform_attempt.
    eapply flow_inv_same; [| | | |exact Hinv]; reflexivity.
  - unfold fire in Hstep.
    destruct (aborted s) as [|h r].
    + destruct (_ <=? _); [|discriminate].
      destruct (waiting _) as [|h r]; [discriminate|].
      injection Hstep as <-.
      destruct h; simpl.
      * apply tcp_flow_perform_attempt.
        eapply flow_inv_same; [| | | |exact Hinv]; reflexivity.
      * destruct Hinv as (Hd & Hfl & Hat). split; [|split]; assumption.
    + injection Hstep as <-.
      destruct h; simpl.
      * apply tcp_flow_perform_attempt.
        eapply flow_inv_same; [| | | |exact Hinv]; reflexivity.
      * destruct Hinv as (Hd & Hfl & Hat). split; [|split]; assumption.
  - destruct (tcp_sending (child s)) as [|b0 r] eqn:Es; [discriminate|].
    injection Hstep as <-.
    pose proof Hinv as (_ & Hfl & _).
    destruct (m_pending s) eqn:Hp; [|congruence].
    destruct Hfl as (b & q & Hq & Hs). rewrite Es in Hs. injection Hs as -> ->.
    unfold tcp_sent. destruct (failed ec) eqn:Ef; simpl.
    + rewrite Nat.add_0_r.
      destruct ec; try discriminate;
        apply (flow_inv_fail tcp_sending P k s); auto.
    + replace (k + 1)%nat with (S k) by lia.
      apply (flow_inv_succeed tcp_sending); auto.
  - destruct (connecting (child s)); [discriminate|]. injection Hstep as <-.
    destruct Hinv as (Hd & Hfl & Hat).
    unfold handle_connect_result, retry_after, expires_from_now; simpl.
    destruct (failed ec); simpl; [destruct (_ <? 0)|];
      (split; [|split]); assumption.
Qed.

Lemma tcp_flow_run (evs : list event) :
  ∀ P k s s1, flow_inv tcp_sending P k s → tcp_run evs s = Some s1 →
    flow_inv tcp_sending (P ++ pushed evs) (k + successes evs) s1.
Proof.
  induction evs as [|e evs IH]; intros P k s s1 Hinv Hrun; simpl in Hrun.
  - injection Hrun as <-. unfold successes. simpl.
    rewrite app_nil_r, Nat.add_0_r. exact Hinv.
  - destruct (tcp_step e s) as [s0|] eqn:Es; [|discriminate].
    change (e :: evs) with ([e] ++ evs).
    rewrite pushed_app, successes_app, app_assoc, Nat.add_assoc.
    eapply IH; [|exact Hrun]. eapply tcp_flow_step; eassumption.
Qed.

(** X8.  The same of a stream sender, whatever the flag held at the start
    and across refused attempts, lost connections and reconnects: at most
    one write is under way, the queue is what was queued less the writes
    reported done, and only queued buffers were attempted. *)
Theorem stream_queue_is_conserved :
  ∀ (garbage : bool) (evs : list event) (s : SocketTarget TCPTarget),
    tcp_run evs (tcp_init garbage) = Some s →
    (length (tcp_sending (child s)) ≤ 1)%nat ∧
    (successes evs ≤ length (pushed evs))%nat ∧
    m_queue s = drop (successes evs) (pushed evs) ∧
    Forall (λ a, at_buf a ∈ pushed evs) (attempts s).
Proof.
  intros garbage evs s Hrun.
  apply (flow_inv_facts tcp_sending (pushed evs) (successes evs)).
  apply (tcp_flow_run evs [] 0%nat (tcp_init garbage) s); [|exact Hrun].
  split; [|split]; simpl; [exists []; auto|reflexivity|constructor].
Qed.

Lemma stream_queue_is_conserved_witness :
  ∃ s, tcp_run tcp_three (tcp_init false) = Some s ∧
       m_queue s = [buf_b; buf_c] ∧
       (length (tcp_sending (child s)) ≤ 1)%nat.
Proof.
  eexists. split; [vm_compute; reflexivity|].
  match goal with
  | |- m_queue ?s = _ ∧ _ =>
      destruct (stream_queue_is_conserved false tcp_three s eq_refl)
        as (H1 & _ & H3 & _)
  end.
  split; [exact H3|exact H1].
Defined.

End Flow.

Section Sending.
Context {double : Type} (show_double : double → string).
Import Net.


End Sending.

(* ===================================================================== *)
(** * Further properties: response codes, headers and URL encoding *)
(* ===================================================================== *)

Section HttpUtil.
Import http.

(** X10.  For a code whose second and third digits are decimal digits the
    class that [type] gives is the hundred that [as_int] falls in: 1xx
    informational, 2xx success, 3xx redirection, 4xx client error, 5xx
    server error, and unknown below 100 and from 600 on. *)
Theorem code_class_is_its_hundred :
  ∀ c : ResponseCode.t,
    0 ≤ ResponseCode.d0 c → 0 ≤ ResponseCode.d1 c ≤ 9 →
    0 ≤ ResponseCode.d2 c ≤ 9 →
    (ResponseCode.type c = ResponseCode.INFORMATIONAL ↔
       100 ≤ ResponseCode.as_int c < 200) ∧
    (ResponseCode.type c = ResponseCode.SUCCESS ↔
       200 ≤ ResponseCode.as_int c < 300) ∧
    (ResponseCode.type c = ResponseCode.REDIRECTION ↔
       300 ≤ ResponseCode.as_int c < 400) ∧
    (ResponseCode.type c = ResponseCode.CLIENT_ERROR ↔
       400 ≤ ResponseCode.as_int c < 500) ∧
    (ResponseCode.type c = ResponseCode.SERVER_ERROR ↔
       500 ≤ ResponseCode.as_int c < 600) ∧
    (ResponseCode.type c = ResponseCode.UNKNOWN ↔
       ResponseCode.as_int c < 100 ∨ 600 ≤ ResponseCode.as_int c).
Proof.
  intros [d0 d1 d2]. unfold ResponseCode.type, ResponseCode.as_int. simpl.
  intros H0 H1 H2.
  assert (Hd : d0 = 0 ∨ d0 = 1 ∨ d0 = 2 ∨ d0 = 3 ∨ d0 = 4 ∨ d0 = 5 ∨
               6 ≤ d0) by lia.
  destruct Hd as [->|[->|[->|[->|[->|[->|Hd]]]]]];
    [repeat split; intros; try discriminate; try lia; reflexivity ..|].
  destruct d0 as [|p|p]; [lia| |lia].
  destruct p as [[[]|[]|]|[[]|[]|]|]; try lia;
    repeat split; intros; try discriminate; try lia; reflexivity.
Qed.

Lemma code_class_is_its_hundred_witness :
  ResponseCode.type {| ResponseCode.d0 := 4; ResponseCode.d1 := 0;
                       ResponseCode.d2 := 4 |} = ResponseCode.CLIENT_ERROR ↔
  400 ≤ ResponseCode.as_int {| ResponseCode.d0 := 4; ResponseCode.d1 := 0;
                               ResponseCode.d2 := 4 |} < 500.
Proof.
  apply (code_class_is_its_hundred
           {| ResponseCode.d0 := 4; ResponseCode.d1 := 0;
              ResponseCode.d2 := 4 |}); simpl; lia.
Defined.

Lemma map_find_set (k k1 v : string) (m : list (string * string)) :
  map_find k (map_set k1 v m) =
  if String.eqb k k1 then Some v else map_find k m.
Proof.
  induction m as [|[k2 v2] m IH]; simpl; [reflexivity|].
  destruct (String.eqb k1 k2) eqn:E12.
  - apply String.eqb_eq in E12. subst k2. simpl.
    destruct (String.eqb k k1); reflexivity.
  - destruct (String.ltb k1 k2); simpl.
    + destruct (String.eqb k k1); reflexivity.
    + rewrite IH. destruct (String.eqb k k2) eqn:E2; [|reflexivity].
      apply String.eqb_eq in E2. subst k2.
      destruct (String.eqb k k1) eqn:E1; [|reflexivity].
      apply String.eqb_eq in E1. subst k1.
      rewrite String.eqb_refl in E12. discriminate.
Qed.

(** X11.  Header names are matched without regard to case: what [get]
    finds after a [set] is the value set when the two names agree once in
    lower case, and what it found before otherwise. *)
Theorem header_set_then_get :
  ∀ (name name1 value : string) (h : Headers.t),
    Headers.get name (Headers.set name1 value h) =
    if String.eqb (lowercase name) (lowercase name1) then Some value
    else Headers.get name h.
Proof.
  intros. unfold Headers.get, Headers.set. simpl. apply map_find_set.
Qed.

Lemma map_find_augment (k : string) (o m : list (string * string)) :
  map_find k
    (fold_left (fun m kv => match map_find (fst kv) m with
                            | Some _ => m
                            | None => map_set (fst kv) (snd kv) m
                            end) o m) =
  match map_find k m with
  | Some v => Some v
  | None => map_find k o
  end.
Proof.
  revert m. induction o as [|[k1 v1] o IH]; intros m; simpl.
  - destruct (map_find k m); reflexivity.
  - rewrite IH.
    destruct (map_find k1 m) as [v|] eqn:E1.
    + destruct (map_find k m) eqn:Ek; [reflexivity|].
      destruct (String.eqb k k1) eqn:E; [|reflexivity].
      apply String.eqb_eq in E. congruence.
    + rewrite map_find_set.
      destruct (String.eqb k k1) eqn:E.
      * apply String.eqb_eq in E. subst k1. rewrite E1. reflexivity.
      * reflexivity.
Qed.

(** X12.  [augment] only adds: a header that is present keeps its value,
    and one that is missing gets the value the other set has for it, if
    any. *)
Theorem augment_keeps_what_is_set :
  ∀ (name : string) (other h : Headers.t),
    Headers.get name (Headers.augment other h) =
    match Headers.get name h with
    | Some v => Some v
    | None => Headers.get name other
    end.
Proof.
  intros. unfold Headers.get, Headers.augment. simpl.
  apply map_find_augment.
Qed.

Lemma hex_digit_unreserved (n : Z) :
  mem_char (hex_digit (Z.land n 15)) RESERVED_CHARS = false.
Proof.
  assert (H : 0 ≤ Z.land n 15 < 16).
  { change 15 with (Z.ones 4). rewrite Z.land_ones by lia.
    apply Z.mod_pos_bound. lia. }
  remember (Z.land n 15) as d eqn:Ed. clear Ed.
  assert (Hd : d = 0 ∨ d = 1 ∨ d = 2 ∨ d = 3 ∨ d = 4 ∨ d = 5 ∨ d = 6 ∨
               d = 7 ∨ d = 8 ∨ d = 9 ∨ d = 10 ∨ d = 11 ∨ d = 12 ∨ d = 13 ∨
               d = 14 ∨ d = 15) by lia.
  repeat (destruct Hd as [->|Hd]; [reflexivity|]). subst d. reflexivity.
Qed.

(** X13.  What [urlencode] gives holds no reserved character; it is three
    characters for each reserved character of the string and one for each
    other; and a string with no reserved character is given back
    unchanged. *)
Theorem urlencode_leaves_nothing_reserved :
  ∀ s : string,
    free_of RESERVED_CHARS (urlencode s) = true ∧
    String.length (urlencode s) = (String.length s + 2 * reserved_in s)%nat ∧
    (free_of RESERVED_CHARS s = true → urlencode s = s).
Proof.
  induction s as [|c s (IH1 & IH2 & IH3)]; [repeat split|].
  cbn [urlencode reserved_in free_of].
  destruct (mem_char c RESERVED_CHARS) eqn:Ec.
  - split; [|split].
    + cbn [free_of]. rewrite !hex_digit_unreserved, IH1. reflexivity.
    + cbn [String.length]. rewrite IH2. lia.
    + discriminate.
  - split; [|split].
    + cbn [free_of]. rewrite Ec, IH1. reflexivity.
    + cbn [String.length]. rewrite IH2. lia.
    + simpl. intros H. rewrite (IH3 H). reflexivity.
Qed.

Lemma urlencode_leaves_nothing_reserved_witness :
  urlencode "frame_15" = "frame_15" ∧
  String.length (urlencode "a b&c") = 9%nat.
Proof.
  split.
  - apply (urlencode_leaves_nothing_reserved "frame_15"). reflexivity.
  - apply (urlencode_leaves_nothing_reserved "a b&c").
Defined.

End HttpUtil.

(* ===================================================================== *)
(** * Further properties: URLs *)
(* ===================================================================== *)

Section Urls.
Import http.

Lemma append_nil_l (a : string) : EmptyString +:+ a = a.
Proof. reflexivity. Qed.

Ltac str_norm :=
  repeat first [rewrite append_assoc | rewrite append_cons
               | rewrite append_nil_l | rewrite append_nil_r].

Lemma free_of_app (bad a b : string) :
  free_of bad (a +:+ b) = free_of bad a && free_of bad b.
Proof.
  induction a as [|c a IH]; [reflexivity|].
  rewrite append_cons. cbn [free_of]. rewrite IH, andb_assoc. reflexivity.
Qed.

Lemma split_slash_name (name : string) :
  free_of "/" name = true →
  ∀ cur, URL.split_slash cur name = ([], cur +:+ name).
Proof.
  induction name as [|c name IH]; intros Hf cur.
  - simpl. rewrite append_nil_r. reflexivity.
  - cbn [free_of mem_char] in Hf. rewrite orb_false_r in Hf.
    apply andb_true_iff in Hf as [Hc Hf]. apply negb_true_iff in Hc.
    cbn [URL.split_slash]. rewrite Hc, (IH Hf). str_norm. reflexivity.
Qed.

Lemma split_slash_dir (name : string) :
  free_of "/" name = true →
  ∀ dir cur, ∃ ps,
    URL.split_slash cur (dir +:+ "/" +:+ name) = (ps, name) ∧
    ∀ acc, fold_left (fun r c => r +:+ "/" +:+ c) ps acc =
           acc +:+ "/" +:+ cur +:+ dir.
Proof.
  intros Hf. induction dir as [|c dir IH]; intros cur.
  - exists [cur]. split.
    + str_norm. cbn [URL.split_slash]. simpl Ascii.eqb. cbv iota.
      rewrite (split_slash_name name Hf). reflexivity.
    + intros acc. simpl. str_norm. reflexivity.
  - rewrite append_cons. cbn [URL.split_slash].
    destruct (Ascii.eqb c "/") eqn:Ec.
    + apply Ascii.eqb_eq in Ec. subst c.
      destruct (IH EmptyString) as (ps & E & Hfold). rewrite E.
      exists (cur :: ps). split; [reflexivity|].
      intros acc. simpl. rewrite Hfold. str_norm. reflexivity.
    + destruct (IH (cur +:+ String c EmptyString)) as (ps & E & Hfold).
      exists ps. split; [exact E|].
      intros acc. rewrite Hfold. str_norm. reflexivity.
Qed.

(** X14.  A path given as text ending in a name of two characters or more
    is given back by [path()] with one more slash in front; when the name
    behind the last slash has one character or none, it is dropped, and
    the slash with it. *)
Theorem path_text_gains_a_slash :
  ∀ (dir name : string) (u : URL.t),
    free_of "/" name = true →
    Z.of_nat (String.length (dir +:+ "/" +:+ name)) < 2 ^ 64 →
    URL.path (URL.path_string (dir +:+ "/" +:+ name) u) =
    if (2 <=? String.length name)%nat
    then "/" +:+ dir +:+ "/" +:+ name else "/" +:+ dir.
Proof.
  intros dir name u Hf Hsize.
  unfold URL.path_string.
  destruct (split_slash_dir name Hf dir EmptyString) as (ps & E & Hfold).
  rewrite E.
  rewrite !append_length in *. cbn [String.length] in *.
  rewrite Z.mod_small by lia.
  destruct (2 <=? String.length name)%nat eqn:E2.
  - apply Nat.leb_le in E2.
    replace (_ <? _) with true by (symmetry; apply Z.ltb_lt; lia).
    unfold URL.path. simpl. rewrite fold_left_app, Hfold. simpl.
    str_norm. reflexivity.
  - apply Nat.leb_gt in E2.
    replace (_ <? _) with false by (symmetry; apply Z.ltb_ge; lia).
    unfold URL.path. simpl. rewrite Hfold. str_norm. reflexivity.
Qed.

Lemma path_text_gains_a_slash_witness :
  URL.path (URL.path_string ("/api" +:+ "/" +:+ "frames") URL.blank) =
    "//api/frames" ∧
  URL.path (URL.path_string ("/api" +:+ "/" +:+ "f") URL.blank) = "//api".
Proof.
  split.
  - apply (path_text_gains_a_slash "/api" "frames" URL.blank);
      [reflexivity | vm_compute; reflexivity].
  - apply (path_text_gains_a_slash "/api" "f" URL.blank);
      [reflexivity | vm_compute; reflexivity].
Defined.

Lemma path_without_slash (name : string) (u : URL.t) :
  free_of "/" name = true → Z.of_nat (String.length name) < 2 ^ 64 →
  URL.path (URL.path_string name u) =
  if (String.length name =? 1)%nat then EmptyString else "/" +:+ name.
Proof.
  intros Hf Hsize. unfold URL.path_string.
  rewrite (split_slash_name name Hf). rewrite append_nil_l.
  destruct name as [|c [|d name]].
  - reflexivity.
  - reflexivity.
  - cbn [String.length] in *.
    rewrite Z.mod_small by lia.
    replace (_ <? _) with true by (symmetry; apply Z.ltb_lt; lia).
    reflexivity.
Qed.

Lemma feed_stays (st : URL.UrlParseState) (c : ascii) (top : string)
    (u : URL.t) :
  gathers st = true → mem_char c (stops st) = false →
  URL.feed c (st, top, u) = Returns (st, top +:+ String c EmptyString, u).
Proof.
  intros Hg Hc. destruct st; try discriminate; simpl in Hc |- *;
    repeat match type of Hc with
           | _ || _ = false => apply orb_false_iff in Hc as [?H Hc]
           end;
    repeat match goal with H : Ascii.eqb _ _ = false |- _ =>
             rewrite H; clear H end;
    reflexivity.
Qed.

Lemma feed_all_stays (st : URL.UrlParseState) (s rest : string) :
  gathers st = true → free_of (stops st) s = true →
  ∀ top u, URL.feed_all (s +:+ rest) (st, top, u) =
           URL.feed_all rest (st, top +:+ s, u).
Proof.
  intros Hg. induction s as [|c s IH]; intros Hf top u.
  - str_norm. reflexivity.
  - cbn [free_of] in Hf. apply andb_true_iff in Hf as [Hc Hf].
    apply negb_true_iff in Hc.
    rewrite append_cons. cbn [URL.feed_all].
    rewrite (feed_stays st c top u Hg Hc). simpl mbind.
    rewrite (IH Hf). str_norm. reflexivity.
Qed.

Lemma feed_all_end (st : URL.UrlParseState) (s : string) :
  gathers st = true → free_of (stops st) s = true →
  ∀ top u, URL.feed_all s (st, top, u) = Returns (st, top +:+ s, u).
Proof.
  intros Hg Hf top u. rewrite <- (append_nil_r s) at 1.
  rewrite (feed_all_stays st s EmptyString Hg Hf). reflexivity.
Qed.

Lemma free_of_path (name : string) :
  free_of "/?#" name = true →
  free_of "/" name = true ∧ free_of "?#" name = true.
Proof.
  induction name as [|c name IH]; [split; reflexivity|].
  cbn [free_of mem_char]. intros H.
  apply andb_true_iff in H as [Hc H]. destruct (IH H) as [H1 H2].
  rewrite H1, H2.
  destruct (Ascii.eqb c "/"), (Ascii.eqb c "?"), (Ascii.eqb c "#");
    try discriminate; split; reflexivity.
Qed.

Lemma path_string_fields (pth : string) (u : URL.t) :
  URL.m_scheme (URL.path_string pth u) = URL.m_scheme u ∧
  URL.m_host (URL.path_string pth u) = URL.m_host u ∧
  URL.m_port (URL.path_string pth u) = URL.m_port u ∧
  URL.m_query (URL.path_string pth u) = URL.m_query u ∧
  URL.m_frag (URL.path_string pth u) = URL.m_frag u.
Proof.
  unfold URL.path_string. destruct (URL.split_slash _ _).
  repeat split; reflexivity.
Qed.

(** The part of a URL up to the host, read. *)
Lemma feed_all_to_host (scheme rest : string) :
  free_of ":" scheme = true →
  URL.feed_all (scheme +:+ "://" +:+ rest)
    (URL.S_SCHEME, EmptyString, URL.blank) =
  URL.feed_all rest
    (URL.S_HOST, EmptyString, URL.set_scheme scheme URL.blank).
Proof.
  intros Hs.
  rewrite (feed_all_stays URL.S_SCHEME scheme _ eq_refl Hs).
  str_norm. reflexivity.
Qed.

Lemma parse_host_name (scheme host name : string) :
  free_of ":" scheme = true → free_of ":/" host = true →
  free_of "?#" name = true →
  URL.parse (scheme +:+ "://" +:+ host +:+ "/" +:+ name) =
  Returns (URL.path_string ("/" +:+ name)
             (URL.set_host host (URL.set_scheme scheme URL.blank))).
Proof.
  intros Hs Hh Hn.
  unfold URL.parse. rewrite (feed_all_to_host scheme _ Hs).
  rewrite (feed_all_stays URL.S_HOST host _ eq_refl Hh).
  rewrite append_cons, append_nil_l. cbn [URL.feed_all]. simpl URL.feed.
  simpl mbind.
  rewrite (feed_all_end URL.S_PATH name eq_refl Hn). simpl mbind.
  rewrite !append_nil_l. reflexivity.
Qed.

Lemma target_of_host_name (name : string) (u : URL.t) :
  free_of "/" name = true →
  Z.of_nat (String.length name) < 2 ^ 64 - 1 →
  URL.m_query u = URL.query_string EmptyString →
  URL.make_request_target false (URL.path_string ("/" +:+ name) u) =
  if (2 <=? String.length name)%nat then "//" +:+ name +:+ "?" else "/?".
Proof.
  intros Hn Hsize Hq.
  destruct (path_string_fields ("/" +:+ name) u) as (_ & _ & _ & F4 & _).
  unfold URL.make_request_target, URL.query. rewrite F4, Hq.
  unfold URL.path_string. rewrite append_cons, append_nil_l.
  cbn [URL.split_slash]. simpl Ascii.eqb. cbv iota.
  rewrite (split_slash_name name Hn), append_nil_l.
  cbn [String.length].
  rewrite Z.mod_small by lia.
  destruct (2 <=? String.length name)%nat eqn:E2.
  - apply Nat.leb_le in E2.
    replace (_ <? _) with true by (symmetry; apply Z.ltb_lt; lia).
    unfold URL.path. simpl. str_norm. reflexivity.
  - apply Nat.leb_gt in E2.
    replace (_ <? _) with false by (symmetry; apply Z.ltb_ge; lia).
    unfold URL.path. simpl. str_norm. reflexivity.
Qed.

(** X15.  A URL that names a host and one path component, with no port,
    is read with an empty component in front of the one given: the
    request target made of it starts with two slashes.  A component of a
    single character is lost. *)
Theorem url_without_port_doubles_the_slash :
  ∀ scheme host name : string,
    free_of ":" scheme = true → free_of ":/" host = true →
    free_of "/?#" name = true →
    Z.of_nat (String.length name) < 2 ^ 64 - 1 →
    ∃ u,
      URL.parse (scheme +:+ "://" +:+ host +:+ "/" +:+ name) = Returns u ∧
      URL.m_scheme u = scheme ∧ URL.m_host u = host ∧ URL.m_port u = None ∧
      URL.make_request_target false u =
        if (2 <=? String.length name)%nat then "//" +:+ name +:+ "?"
        else "/?".
Proof.
  intros scheme host name Hs Hh Hn Hsize.
  destruct (free_of_path name Hn) as [Hn1 Hn2].
  rewrite (parse_host_name scheme host name Hs Hh Hn2).
  eexists. split; [reflexivity|].
  match goal with
  | |- context [URL.path_string ?pth ?v] =>
      destruct (path_string_fields pth v) as (F1 & F2 & F3 & F4 & F5)
  end.
  split; [rewrite F1; reflexivity|]. split; [rewrite F2; reflexivity|].
  split; [rewrite F3; reflexivity|].
  apply target_of_host_name; [exact Hn1|exact Hsize|reflexivity].
Qed.

Lemma url_without_port_doubles_the_slash_witness :
  ∃ u, URL.parse ("http" +:+ "://" +:+ "collector" +:+ "/" +:+ "frames")
       = Returns u ∧
       URL.make_request_target false u = "//frames?".
Proof.
  destruct (url_without_port_doubles_the_slash "http" "collector" "frames")
    as (u & H1 & _ & _ & _ & H2);
    [reflexivity | reflexivity | reflexivity | vm_compute; reflexivity|].
  exists u. split; [exact H1|exact H2].
Defined.

(** X16.  With a port the component is read as given, so the target has
    one slash; the port is what [atoi] makes of the text between the colon
    and the slash.  Here a component of a single character leaves a target
    with no path at all. *)
Theorem url_with_port_keeps_the_path :
  ∀ (scheme host port name : string) (p : Z),
    free_of ":" scheme = true → free_of ":/" host = true →
    free_of "/" port = true → URL.atoi port = Returns p →
    free_of "/?#" name = true →
    Z.of_nat (String.length name) < 2 ^ 64 →
    ∃ u,
      URL.parse (scheme +:+ "://" +:+ host +:+ ":" +:+ port +:+ "/" +:+ name)
        = Returns u ∧
      URL.m_host u = host ∧ URL.port_or_infer u = p ∧
      URL.make_request_target false u =
        if (String.length name =? 1)%nat then "?" else "/" +:+ name +:+ "?".
Proof.
  intros scheme host port name p Hs Hh Hp Hatoi Hn Hsize.
  destruct (free_of_path name Hn) as [Hn1 Hn2].
  unfold URL.parse. rewrite (feed_all_to_host scheme _ Hs).
  rewrite (feed_all_stays URL.S_HOST host _ eq_refl Hh).
  rewrite append_cons, append_nil_l. cbn [URL.feed_all]. simpl URL.feed.
  simpl mbind.
  rewrite (feed_all_stays URL.S_PORT port _ eq_refl Hp).
  rewrite append_cons, !append_nil_l. cbn [URL.feed_all]. simpl URL.feed.
  rewrite Hatoi. simpl mbind.
  rewrite (feed_all_end URL.S_PATH name eq_refl Hn2). simpl mbind.
  rewrite !append_nil_l.
  eexists. split; [reflexivity|].
  match goal with
  | |- context [URL.path_string ?pth ?v] =>
      destruct (path_string_fields pth v) as (F1 & F2 & F3 & F4 & F5)
  end.
  split; [rewrite F2; reflexivity|].
  split; [unfold URL.port_or_infer; rewrite F3; reflexivity|].
  unfold URL.make_request_target, URL.query. rewrite F4. simpl URL.m_query.
  rewrite (path_without_slash name _ Hn1 Hsize).
  destruct (String.length name =? 1)%nat; str_norm; reflexivity.
Qed.

Lemma url_with_port_keeps_the_path_witness :
  ∃ u, URL.parse ("http" +:+ "://" +:+ "collector" +:+ ":" +:+ "8080" +:+
                  "/" +:+ "frames") = Returns u ∧
       URL.port_or_infer u = 8080 ∧
       URL.make_request_target false u = "/frames?".
Proof.
  destruct (url_with_port_keeps_the_path "http" "collector" "8080" "frames"
              8080)
    as (u & H1 & _ & H2 & H3);
    [reflexivity | reflexivity | reflexivity | reflexivity | reflexivity
    | vm_compute; reflexivity|].
  exists u. split; [exact H1|]. split; [exact H2|exact H3].
Defined.

(** X17.  Behind the path a hash does not end the query: the query runs
    to the next question mark, and what follows that one is the
    fragment.  With no second question mark there is no fragment. *)
Theorem query_runs_to_a_question_mark :
  ∀ scheme host name q f : string,
    free_of ":" scheme = true → free_of ":/" host = true →
    free_of "?#" name = true → free_of "?" q = true →
    (∃ u, URL.parse (scheme +:+ "://" +:+ host +:+ "/" +:+ name +:+ "?" +:+ q)
          = Returns u ∧
          URL.m_query u = URL.query_string q ∧ URL.m_frag u = None) ∧
    (∃ u, URL.parse (scheme +:+ "://" +:+ host +:+ "/" +:+ name +:+ "?" +:+ q
                     +:+ "?" +:+ f) = Returns u ∧
          URL.m_query u = URL.query_string q ∧ URL.m_frag u = Some f).
Proof.
  intros scheme host name q f Hs Hh Hn Hq.
  split.
  - unfold URL.parse. rewrite (feed_all_to_host scheme _ Hs).
    rewrite (feed_all_stays URL.S_HOST host _ eq_refl Hh).
    rewrite append_cons, append_nil_l. cbn [URL.feed_all]. simpl URL.feed.
    simpl mbind.
    rewrite (feed_all_stays URL.S_PATH name _ eq_refl Hn).
    rewrite append_cons, append_nil_l. cbn [URL.feed_all]. simpl URL.feed.
    simpl mbind.
    rewrite (feed_all_end URL.S_QUERY q eq_refl Hq). simpl mbind.
    rewrite !append_nil_l.
    eexists. split; [reflexivity|].
    match goal with
    | |- context [URL.path_string ?pth ?v] =>
        destruct (path_string_fields pth v) as (F1 & F2 & F3 & F4 & F5)
    end.
    split; [reflexivity|]. simpl. rewrite F5. reflexivity.
  - unfold URL.parse. rewrite (feed_all_to_host scheme _ Hs).
    rewrite (feed_all_stays URL.S_HOST host _ eq_refl Hh).
    rewrite append_cons, append_nil_l. cbn [URL.feed_all]. simpl URL.feed.
    simpl mbind.
    rewrite (feed_all_stays URL.S_PATH name _ eq_refl Hn).
    rewrite append_cons, append_nil_l. cbn [URL.feed_all]. simpl URL.feed.
    simpl mbind.
    rewrite (feed_all_stays URL.S_QUERY q _ eq_refl Hq).
    rewrite append_cons, append_nil_l. cbn [URL.feed_all]. simpl URL.feed.
    simpl mbind.
    rewrite (feed_all_end URL.S_FRAG f eq_refl);
      [|clear; induction f; [reflexivity|simpl; assumption]].
    simpl mbind. rewrite !append_nil_l.
    eexists. split; [reflexivity|]. split; reflexivity.
Qed.

Lemma query_runs_to_a_question_mark_witness :
  ∃ u, URL.parse ("http" +:+ "://" +:+ "collector" +:+ "/" +:+ "frames" +:+
                  "?" +:+ "cam=1#top") = Returns u ∧
       URL.m_query u = URL.query_string "cam=1#top" ∧ URL.m_frag u = None.
Proof.
  apply (query_runs_to_a_question_mark "http" "collector" "frames"
           "cam=1#top" EmptyString); reflexivity.
Defined.

Lemma split_at_colon (s : string) :
  free_of ":" s = true ∨
  ∃ a b, s = a +:+ String ":" b ∧ free_of ":" a = true.
Proof.
  induction s as [|c s IH]; [left; reflexivity|].
  destruct (Ascii.eqb c ":") eqn:Ec.
  - apply Ascii.eqb_eq in Ec. subst c. right.
    exists EmptyString, s. split; reflexivity.
  - destruct IH as [IH|(a & b & -> & Ha)].
    + left. cbn [free_of mem_char]. rewrite Ec, IH. reflexivity.
    + right. exists (String c a), b. split; [reflexivity|].
      cbn [free_of mem_char]. rewrite Ec, Ha. reflexivity.
Qed.

Lemma feed_scheme (c : ascii) (st st1 : URL.UrlParseState)
    (top top1 : string) (u u1 : URL.t) :
  st ≠ URL.S_SCHEME →
  URL.feed c (st, top, u) = Returns (st1, top1, u1) →
  st1 ≠ URL.S_SCHEME ∧ URL.m_scheme u1 = URL.m_scheme u.
Proof.
  intros Hst H. destruct st; try contradiction; simpl in H;
    repeat match type of H with
           | context [Ascii.eqb ?a ?b] => destruct (Ascii.eqb a b)
           | context [URL.atoi ?x] => destruct (URL.atoi x); simpl in H
           end;
    try discriminate; injection H as <- <- <-;
    (split; [discriminate|]);
    first [reflexivity | apply path_string_fields].
Qed.

Lemma feed_all_scheme (s : string) :
  ∀ st st1 top top1 u u1,
    st ≠ URL.S_SCHEME →
    URL.feed_all s (st, top, u) = Returns (st1, top1, u1) →
    st1 ≠ URL.S_SCHEME ∧ URL.m_scheme u1 = URL.m_scheme u.
Proof.
  induction s as [|c s IH]; intros st st1 top top1 u u1 Hst H.
  - injection H as <- <- <-. split; [exact Hst|reflexivity].
  - cbn [URL.feed_all] in H.
    destruct (URL.feed c (st, top, u)) as [[[st2 top2] u2]| | |] eqn:E;
      try discriminate.
    simpl in H. destruct (feed_scheme _ _ _ _ _ _ _ Hst E) as [H1 H2].
    destruct (IH _ _ _ _ _ _ H1 H) as [H3 H4].
    split; [exact H3|congruence].
Qed.

Lemma finalize_scheme (st : URL.UrlParseState) (top : string)
    (u u1 : URL.t) :
  URL.finalize (st, top, u) = Returns u1 →
  URL.m_scheme u1 = URL.m_scheme u.
Proof.
  intros H. destruct st; simpl in H; try discriminate;
    try (destruct (URL.atoi top); simpl in H; try discriminate);
    injection H as <-; first [reflexivity | apply path_string_fields].
Qed.

(** X18.  The constructor accepts a string only if it is a scheme
    followed by a colon and two slashes; the scheme of the URL is then
    what stands before the first colon.  Any other string makes it throw
    (or, with a port that [atoi] cannot hold, leaves it undefined). *)
Theorem url_needs_scheme_and_slashes :
  ∀ (s : string) (u : URL.t),
    URL.parse s = Returns u →
    ∃ scheme rest,
      s = scheme +:+ "://" +:+ rest ∧ free_of ":" scheme = true ∧
      URL.m_scheme u = scheme.
Proof.
  intros s u H. unfold URL.parse in H.
  destruct (split_at_colon s) as [Hs|(a & b & -> & Ha)].
  - rewrite (feed_all_end URL.S_SCHEME s eq_refl Hs) in H. discriminate.
  - rewrite (feed_all_stays URL.S_SCHEME a _ eq_refl Ha) in H.
    rewrite append_nil_l in H. cbn [URL.feed_all] in H.
    simpl URL.feed in H. simpl mbind in H.
    destruct b as [|c1 b]; [discriminate|].
    cbn [URL.feed_all] in H. simpl URL.feed in H.
    destruct (Ascii.eqb c1 "/") eqn:E1; [|discriminate].
    apply Ascii.eqb_eq in E1. subst c1. simpl mbind in H.
    destruct b as [|c2 b]; [discriminate|].
    cbn [URL.feed_all] in H. simpl URL.feed in H.
    destruct (Ascii.eqb c2 "/") eqn:E2; [|discriminate].
    apply Ascii.eqb_eq in E2. subst c2. simpl mbind in H.
    exists a, b. split; [reflexivity|]. split; [exact Ha|].
    destruct (URL.feed_all b _) as [[[st1 top1] u1]| | |] eqn:E;
      try discriminate.
    simpl in H.
    assert (Hst : URL.S_HOST ≠ URL.S_SCHEME) by discriminate.
    destruct (feed_all_scheme _ _ _ _ _ _ _ Hst E) as [_ H1].
    rewrite (finalize_scheme _ _ _ _ H), H1. reflexivity.
Qed.

Lemma url_needs_scheme_and_slashes_witness :
  ∃ scheme rest,
    "http://collector/frames" = scheme +:+ "://" +:+ rest ∧
    free_of ":" scheme = true ∧ scheme = "http".
Proof.
  destruct (url_needs_scheme_and_slashes "http://collector/frames"
              (URL.path_string "/frames"
                 (URL.set_host "collector"
                    (URL.set_scheme "http" URL.blank))) eq_refl)
    as (scheme & rest & H1 & H2 & H3).
  exists scheme, rest. split; [exact H1|]. split; [exact H2|].
  symmetry. exact H3.
Defined.

(** X19.  [push] puts a component at the end of the path, and [pop] takes
    it away again: a URL is as it was before, unless it had a path of no
    components, which [pop] turns into no path. *)
Theorem pop_undoes_push :
  ∀ (part : string) (u : URL.t),
    URL.path (URL.push part u) =
      match URL.m_path u with
      | Some parts => URL.path u +:+ "/" +:+ part
      | None => "/" +:+ part
      end ∧
    URL.pop (URL.push part u) =
      Returns match URL.m_path u with
              | Some [] => URL.set_path None u
              | _ => u
              end.
Proof.
  intros part [sch h po pa q fr]. unfold URL.push, URL.pop, URL.path.
  simpl. split.
  - destruct pa as [parts|]; simpl; [|reflexivity].
    rewrite fold_left_app. reflexivity.
  - destruct (default [] pa ++ [part]) as [|x l] eqn:E.
    { destruct (default [] pa); discriminate. }
    rewrite <- E, removelast_last.
    destruct pa as [[|y parts]|]; reflexivity.
Qed.

End Urls.

(* ===================================================================== *)
(** * Further properties: the HTTP connection *)
(* ===================================================================== *)

Section Connection.
Import http HTTPConnection.

Lemma conn_after_run (evs : list event) (s : t) :
  conn_after evs = Some s → run evs new = Some (Returns s).
Proof.
  unfold conn_after. destruct (run evs new) as [[s0| | |]|]; try discriminate.
  intros E. injection E as <-. reflexivity.
Qed.

(** X20.  Whatever a connection is asked and whatever its socket
    delivers, a response that reaches a handler has an empty body. *)
Theorem no_response_carries_a_body :
  ∀ (evs : list event) (s : t) (h : handler) (r : Response.t),
    conn_after evs = Some s → Some r ∈ calls_of h s →
    Response.m_body r = EmptyString.
Proof.
  intros evs s h r Hs Hr. apply conn_after_run in Hs.
  assert (Hb : bodies_empty s).
  { eapply delivered_bodies_empty; [|exact Hs].
    split; [discriminate|constructor]. }
  destruct Hb as [_ Hb]. unfold calls_of in Hr.
  apply list_elem_of_fmap in Hr as ([h1 r1] & Hr1 & Hin). simpl in Hr1.
  subst r1. apply list_elem_of_filter in Hin as [_ Hin].
  apply list_elem_of_omap in Hin as (a & Ha & Hd).
  rewrite Forall_forall in Hb. specialize (Hb a Ha).
  destruct a as [d|h2 ec r2| |]; try discriminate. simpl in Hd.
  destruct (Net.failed ec); [congruence|].
  injection Hd as _ ->. exact Hb.
Qed.

Lemma no_response_carries_a_body_witness :
  ∃ s r, conn_after [ev_request post_length_5 7%nat; written;
                     received ok_length_5; received "hello"] = Some s ∧
         calls_of 7%nat s = [Some r] ∧ Response.m_body r = EmptyString.
Proof.
  eexists. eexists. split; [vm_compute; reflexivity|].
  split; [vm_compute; reflexivity|].
  eapply (no_response_carries_a_body
            [ev_request post_length_5 7%nat; written;
             received ok_length_5; received "hello"] _ 7%nat).
  - vm_compute. reflexivity.
  - vm_compute. left.
Defined.

Lemma fail_backlog_fields (ec : Net.error_code) (s : t) :
  trace (fail_backlog ec s) = trace s ++ backlog_calls ec (m_queue s) ∧
  m_queue (fail_backlog ec s) = m_queue s ∧
  m_pending (fail_backlog ec s) = m_pending s ∧
  m_work (fail_backlog ec s) = m_work s ∧
  ops (fail_backlog ec s) = ops s.
Proof.
  unfold fail_backlog.
  assert (H : ∀ q s0,
    let s1 := fold_left (fun s' w => emit (a_call (snd w) ec None) s') q s0 in
    trace s1 = trace s0 ++ backlog_calls ec q ∧ m_queue s1 = m_queue s0 ∧
    m_pending s1 = m_pending s0 ∧ m_work s1 = m_work s0 ∧ ops s1 = ops s0).
  { induction q as [|w q IH]; intros s0; simpl.
    - rewrite app_nil_r. repeat split.
    - destruct (IH (emit (a_call (snd w) ec None) s0))
        as (H1 & H2 & H3 & H4 & H5).
      simpl in *. rewrite H1, <- app_assoc. repeat split; assumption. }
  apply H.
Qed.

Lemma conn_inv_attempt_request (s : t) :
  conn_pre s → conn_inv (attempt_request s).
Proof.
  intros Hpre. pose proof Hpre as (Hlen & Hidle & Hops).
  unfold attempt_request.
  destruct (m_pending s) eqn:Hp.
  - split; [exact Hpre|]. rewrite Hp. discriminate.
  - destruct (Hidle eq_refl) as [Ho Hw].
    destruct (m_queue s) as [|w rest] eqn:Hq.
    + split; [exact Hpre|]. intros _. exact Hq.
    + split; [split; [|split]|]; simpl; try discriminate.
      * rewrite Ho. simpl. lia.
      * rewrite Ho. repeat constructor.
Qed.

Lemma conn_inv_fail_request (ec : Net.error_code) (s s1 : t) :
  stalled s → fail_request ec s = Returns s1 → conn_inv s1.
Proof.
  intros [Hp Ho]. unfold fail_request, work.
  assert (Hclose : Returns (emit a_onclose (emit a_close (fail_backlog ec s)))
                   = Returns s1 → conn_inv s1).
  { intros E. injection E as <-.
    destruct (fail_backlog_fields ec s) as (_ & _ & H3 & _ & H5).
    split; [split; [|split]|]; simpl; rewrite ?H3, ?H5, ?Hp, ?Ho;
      try discriminate; [simpl; lia|constructor]. }
  destruct ec; try exact Hclose;
    (destruct (m_work s) as [w|]; simpl; [|discriminate]);
    intros E; injection E as <-;
    apply conn_inv_attempt_request;
    (split; [|split]); simpl; rewrite ?Ho; auto; simpl; lia.
Qed.

Lemma conn_inv_on_header_recvd (ec : Net.error_code) (s s1 : t) :
  stalled s → on_header_recvd ec s = Returns s1 → conn_inv s1.
Proof.
  intros H. unfold on_header_recvd.
  destruct (Net.failed ec); [apply conn_inv_fail_request; exact H|].
  assert (H0 : stalled (set_temp_buffer EmptyString (consume_all s)))
    by exact H.
  revert H0. generalize (set_temp_buffer EmptyString (consume_all s)) as s0.
  intros s0 H0.
  destruct (split_lines _ _ _) as [[ls temp]| | |]; simpl; try discriminate.
  destruct (if String.eqb temp EmptyString then ls else ls ++ [temp])
    as [|line0 rest]; [apply conn_inv_fail_request; exact H0|].
  destruct (_ && _); [apply conn_inv_fail_request; exact H0|].
  destruct (char_at line0 9) as [c0| | |]; simpl; try discriminate.
  destruct (char_at line0 10) as [c1| | |]; simpl; try discriminate.
  destruct (char_at line0 11) as [c2| | |]; simpl; try discriminate.
  destruct (_ && _); [apply conn_inv_fail_request; exact H0|].
  destruct (process_headers rest Headers.new) as [hdrs|];
    [|apply conn_inv_fail_request; exact H0].
  destruct (m_work s0) as [w|]; [|discriminate].
  match goal with
  | |- context [set_response ?r s0] =>
      assert (H1 : stalled (set_response r s0)) by exact H0
  end.
  destruct H0 as [Hp Ho].
  assert (Hstart : ∀ op r, op_known op →
            conn_inv (start op (set_response r s0))).
  { intros op r Hop. split; [split; [|split]|]; simpl; rewrite ?Hp, ?Ho;
      try discriminate; [simpl; lia|repeat constructor; exact Hop]. }
  destruct (Headers.get "Content-Length" hdrs) as [ct_len|].
  - destruct (strtoul (c_str ct_len)) as [len p].
    destruct (negb _); [apply conn_inv_fail_request; exact H1|].
    intros E. injection E as <-. apply Hstart. reflexivity.
  - intros E. injection E as <-. apply Hstart. reflexivity.
Qed.

Lemma conn_inv_close_connection (s : t) :
  stalled s → conn_inv (close_connection s).
Proof.
  intros [Hp Ho]. unfold close_connection.
  destruct (fail_backlog_fields Net.eof (emit a_close s))
    as (_ & _ & H3 & _ & H5).
  split; [split; [|split]|]; simpl; rewrite ?H3, ?H5; simpl;
    rewrite ?Hp, ?Ho; try discriminate; [simpl; lia|constructor].
Qed.

Lemma conn_inv_on_body_recvd (ec : Net.error_code) (s s1 : t) :
  stalled s → on_body_recvd 0 ec s = Returns s1 → conn_inv s1.
Proof.
  intros H. unfold on_body_recvd.
  destruct (Net.failed ec); [apply conn_inv_fail_request; exact H|].
  destruct (m_response s) as [resp|]; [|discriminate].
  unfold work. simpl. destruct (m_work s) as [w|]; simpl; [|discriminate].
  intros E. injection E as <-. apply conn_inv_close_connection. exact H.
Qed.

Lemma conn_inv_step (e : event) (s s1 : t) :
  conn_inv s → step e s = Some (Returns s1) → conn_inv s1.
Proof.
  intros [(Hlen & Hidle & Hops) Hq]. destruct e as [req h|ec data]; simpl.
  - intros E. injection E as <-. unfold async_request.
    apply conn_inv_attempt_request.
    split; [|split]; simpl; assumption.
  - unfold complete.
    destruct (ops s) as [|op rest] eqn:Eo; [discriminate|].
    destruct (allowed op ec data s); [|discriminate].
    assert (Hp : m_pending s = true).
    { destruct (m_pending s); [reflexivity|].
      destruct (Hidle eq_refl); discriminate. }
    assert (rest = []) by (destruct rest; [reflexivity|simpl in Hlen; lia]).
    subst rest. inversion Hops as [|? ? Hop _]; subst.
    intros E. injection E as E. revert E.
    match goal with
    | |- context [on_written ec ?x] =>
        assert (H0 : stalled x) by (split; [exact Hp|reflexivity]);
        revert H0; generalize x
    end.
    intros s0 H0.
    destruct op; simpl in Hop; subst.
    + unfold on_written. destruct (Net.failed ec);
        [apply conn_inv_fail_request; exact H0|].
      intros E. injection E as <-. destruct H0 as [Hp0 Ho0].
      split; [split; [|split]|]; simpl; rewrite ?Hp0, ?Ho0;
        try discriminate; [simpl; lia|repeat constructor].
    + apply conn_inv_on_header_recvd. exact H0.
    + apply conn_inv_on_body_recvd. exact H0.
    + apply conn_inv_on_body_recvd. exact H0.
Qed.

Lemma conn_inv_run (evs : list event) :
  ∀ s s1, conn_inv s → run evs s = Some (Returns s1) → conn_inv s1.
Proof.
  induction evs as [|e evs IH]; intros s s1 H; simpl.
  - intros E. injection E as <-. exact H.
  - destruct (step e s) as [[s0| | |]|] eqn:Es; try discriminate.
    apply IH. eapply conn_inv_step; eassumption.
Qed.

Lemma conn_inv_new : conn_inv new.
Proof.
  split; [split; [|split]|]; simpl; auto; constructor.
Qed.

(** X21.  A connection has at most one operation under way on its socket,
    and then a request is pending; with no request pending it has no
    operation under way, holds no work and its queue is empty; and every
    read of a body is bound to HTTP version 0, whatever the status line
    said. *)
Theorem one_operation_at_a_time :
  ∀ (evs : list event) (s : t),
    conn_after evs = Some s →
    (length (ops s) ≤ 1)%nat ∧
    (ops s ≠ [] → m_pending s = true) ∧
    (m_pending s = false → m_queue s = [] ∧ m_work s = None) ∧
    (∀ len v, op_read_exactly len v ∈ ops s → v = 0) ∧
    (∀ v, op_read_all v ∈ ops s → v = 0).
Proof.
  intros evs s Hs. apply conn_after_run in Hs.
  destruct (conn_inv_run evs new s conn_inv_new Hs)
    as [(Hlen & Hidle & Hops) Hq].
  rewrite Forall_forall in Hops.
  split; [exact Hlen|]. split; [|split; [|split]].
  - intros Hne. destruct (m_pending s); [reflexivity|].
    destruct (Hidle eq_refl). contradiction.
  - intros Hp. split; [apply Hq; exact Hp|apply Hidle; exact Hp].
  - intros len v Hin. exact (Hops _ Hin).
  - intros v Hin. exact (Hops _ Hin).
Qed.

Lemma one_operation_at_a_time_witness :
  ∃ s, conn_after [ev_request post_length_5 7%nat;
                   ev_request plain_post 8%nat; written;
                   received ok_length_5] = Some s ∧
       (length (ops s) ≤ 1)%nat ∧
       (∀ len v, op_read_exactly len v ∈ ops s → v = 0).
Proof.
  eexists. split; [vm_compute; reflexivity|].
  match goal with
  | |- (length (ops ?s) ≤ _)%nat ∧ _ =>
      destruct (one_operation_at_a_time
                  [ev_request post_length_5 7%nat;
                   ev_request plain_post 8%nat; written;
                   received ok_length_5] s)
        as (H1 & _ & _ & H4 & _); [vm_compute; reflexivity|]
  end.
  split; [exact H1|exact H4].
Defined.

Lemma run_app (l1 l2 : list event) :
  ∀ s s2, run (l1 ++ l2) s = Some (Returns s2) →
    ∃ s1, run l1 s = Some (Returns s1) ∧ run l2 s1 = Some (Returns s2).
Proof.
  induction l1 as [|e l1 IH]; intros s s2 H; simpl in *.
  - exists s. split; [reflexivity|exact H].
  - destruct (step e s) as [[s0| | |]|]; try discriminate.
    apply IH. exact H.
Qed.

Lemma stalled_run (evs : list event) :
  ∀ s s1, stalled s → run evs s = Some (Returns s1) →
    trace s1 = trace s ∧ stalled s1.
Proof.
  induction evs as [|e evs IH]; intros s s1 [Hp Ho] H; simpl in H.
  - injection H as <-. split; [reflexivity|split; assumption].
  - destruct e as [req h|ec data]; simpl in H.
    + unfold async_request, attempt_request in H. simpl in H.
      rewrite Hp in H.
      match type of H with
      | run evs ?x = _ =>
          assert (Hx : stalled x) by (split; [reflexivity|exact Ho]);
          destruct (IH _ _ Hx H) as [H1 H2]
      end.
      split; [exact H1|exact H2].
    + unfold complete in H. rewrite Ho in H. discriminate.
Qed.

Lemma fail_request_fatal (ec : Net.error_code) (s : t) :
  fatal ec = true →
  fail_request ec s =
  Returns (emit a_onclose (emit a_close (fail_backlog ec s))).
Proof. destruct ec; try discriminate; reflexivity. Qed.

Lemma fatal_failed (ec : Net.error_code) :
  fatal ec = true → Net.failed ec = true.
Proof. destruct ec; try discriminate; reflexivity. Qed.

Lemma fatal_complete (ec : Net.error_code) (data : string) (s s1 : t) :
  fatal ec = true → complete ec data s = Some (Returns s1) →
  trace s1 = trace s ++ backlog_calls ec (m_queue s) ++ [a_close; a_onclose] ∧
  m_pending s1 = m_pending s ∧ ops s1 = tail (ops s).
Proof.
  intros Hf. unfold complete.
  destruct (ops s) as [|op rest]; [discriminate|].
  destruct (allowed op ec data s); [|discriminate].
  intros E. injection E as E. revert E.
  unfold on_written, on_header_recvd, on_body_recvd.
  rewrite (fatal_failed ec Hf).
  destruct op; rewrite (fail_request_fatal ec _ Hf);
    intros E; injection E as <-;
    match goal with
    | |- context [fail_backlog ec ?x] =>
        destruct (fail_backlog_fields ec x) as (H1 & _ & H3 & _ & H5)
    end;
    simpl; rewrite H1, H3, H5; simpl; rewrite <- !app_assoc;
    repeat split.
Qed.

(** X22.  When an operation ends in a reset connection, a broken pipe or
    the end of the stream, the handlers of the requests that wait are
    called with the error and the socket is closed; the handler of the
    request in flight is not called, and nothing that happens later makes
    up for it: the connection never acts again. *)
Theorem fatal_error_leaves_request_unanswered :
  ∀ (pre post : list event) (ec : Net.error_code) (data : string) (s s2 : t),
    fatal ec = true →
    conn_after pre = Some s →
    conn_after (pre ++ ev_complete ec data :: post) = Some s2 →
    trace s2 =
      trace s ++ backlog_calls ec (m_queue s) ++ [a_close; a_onclose].
Proof.
  intros pre post ec data s s2 Hf Hs Hs2.
  apply conn_after_run in Hs. apply conn_after_run in Hs2.
  destruct (run_app _ _ _ _ Hs2) as (s0 & Hs0 & Hrun).
  rewrite Hs in Hs0. injection Hs0 as <-.
  destruct (conn_inv_run pre new s conn_inv_new Hs)
    as [(Hlen & Hidle & _) _].
  simpl in Hrun.
  destruct (complete ec data s) as [[s1| | |]|] eqn:Ec; try discriminate.
  destruct (fatal_complete ec data s s1 Hf Ec) as (Ht & Hp & Ho).
  assert (Hst : stalled s1).
  { unfold complete in Ec.
    destruct (ops s) as [|op rest] eqn:Eo; [discriminate|].
    split.
    - rewrite Hp. destruct (m_pending s); [reflexivity|].
      destruct (Hidle eq_refl). discriminate.
    - rewrite Ho. simpl. destruct rest; [reflexivity|simpl in Hlen; lia]. }
  destruct (stalled_run post s1 s2 Hst Hrun) as [Ht2 _].
  rewrite Ht2. exact Ht.
Qed.

Lemma fatal_error_leaves_request_unanswered_witness :
  ∃ s s2,
    conn_after [ev_request plain_post 7%nat; ev_request plain_post 8%nat;
                written] = Some s ∧
    conn_after ([ev_request plain_post 7%nat; ev_request plain_post 8%nat;
                 written] ++
                closed_after EmptyString :: [ev_request plain_post 9%nat])
      = Some s2 ∧
    trace s2 = trace s ++ [a_call 8%nat Net.eof None; a_close; a_onclose].
Proof.
  eexists. eexists. split; [vm_compute; reflexivity|].
  split; [vm_compute; reflexivity|].
  apply (fatal_error_leaves_request_unanswered
           [ev_request plain_post 7%nat; ev_request plain_post 8%nat; written]
           [ev_request plain_post 9%nat] Net.eof EmptyString);
    [reflexivity | vm_compute; reflexivity | vm_compute; reflexivity].
Defined.

(** X23.  When the read of a body of known length is done, the response
    goes to the handler of the request in flight, and then the socket is
    closed and the requests that wait are failed with end-of-file,
    whatever the version and the headers of the response were; the
    connection never acts again. *)
Theorem every_response_ends_the_connection :
  ∀ (pre post : list event) (data : string) (len v : Z)
    (rest : list async_op) (s s2 : t),
    conn_after pre = Some s →
    ops s = op_read_exactly len v :: rest →
    conn_after (pre ++ received data :: post) = Some s2 →
    ∃ w r,
      m_work s = Some w ∧
      trace s2 =
        trace s ++ [a_call (snd w) Net.success (Some r); a_close] ++
        backlog_calls Net.eof (m_queue s) ++ [a_onclose].
Proof.
  intros pre post data len v rest s s2 Hs Hop Hs2.
  apply conn_after_run in Hs. apply conn_after_run in Hs2.
  destruct (run_app _ _ _ _ Hs2) as (s0 & Hs0 & Hrun).
  rewrite Hs in Hs0. injection Hs0 as <-.
  destruct (conn_inv_run pre new s conn_inv_new Hs)
    as [(Hlen & Hidle & Hops) _].
  rewrite Hop in Hops, Hlen. inversion Hops as [|? ? Hv _]; subst.
  simpl in Hv. subst v.
  assert (rest = []) by (destruct rest; [reflexivity|simpl in Hlen; lia]).
  subst rest.
  assert (Hp : m_pending s = true).
  { destruct (m_pending s); [reflexivity|].
    destruct (Hidle eq_refl). congruence. }
  simpl in Hrun. unfold complete in Hrun. rewrite Hop in Hrun.
  destruct (allowed _ _ _ _); [|discriminate].
  unfold on_body_recvd in Hrun. simpl in Hrun.
  destruct (m_response s) as [resp|]; [|discriminate].
  unfold work in Hrun. simpl in Hrun.
  destruct (m_work s) as [w|]; simpl in Hrun; [|discriminate].
  match type of Hrun with
  | run post (close_connection ?x) = _ =>
      assert (Hst : stalled (close_connection x));
      [|destruct (stalled_run post _ s2 Hst Hrun) as [Ht _];
        exists w; eexists; split; [reflexivity|];
        rewrite Ht; unfold close_connection;
        destruct (fail_backlog_fields Net.eof (emit a_close x))
          as (H1 & _)]
  end.
  - unfold close_connection.
    match goal with
    | |- context [fail_backlog Net.eof ?y] =>
        destruct (fail_backlog_fields Net.eof y) as (_ & _ & H3 & _ & H5)
    end.
    split; simpl; rewrite ?H3, ?H5; simpl; [exact Hp|reflexivity].
  - simpl. rewrite H1. simpl. rewrite <- !app_assoc. reflexivity.
Qed.

Lemma every_response_ends_the_connection_witness :
  ∃ s s2 w r,
    conn_after [ev_request post_length_0 7%nat; ev_request plain_post 8%nat;
                written; received ok_keep_alive] = Some s ∧
    conn_after ([ev_request post_length_0 7%nat; ev_request plain_post 8%nat;
                 written; received ok_keep_alive] ++
                received EmptyString :: []) = Some s2 ∧
    m_work s = Some w ∧
    trace s2 =
      trace s ++ [a_call (snd w) Net.success (Some r); a_close] ++
      backlog_calls Net.eof (m_queue s) ++ [a_onclose].
Proof.
  eexists. eexists.
  match goal with
  | |- ∃ w r, ?A = Some ?s ∧ ?B = Some ?s2 ∧ _ =>
      assert (H1 : A = Some s) by (vm_compute; reflexivity);
      assert (H2 : B = Some s2) by (vm_compute; reflexivity);
      destruct (every_response_ends_the_connection _ _ _ 0 0 [] _ _
                  H1 eq_refl H2) as (w & r & H3 & H4);
      exists w, r; split; [exact H1|]; split; [exact H2|];
      split; [exact H3|exact H4]
  end.
Defined.

Lemma split_lines_line (a : string) :
  free_of CR_only a = true →
  ∀ temp rest lines,
    split_lines temp (list_ascii_of_string a ++ CR :: LF :: rest) lines =
    split_lines EmptyString rest (lines ++ [temp +:+ a]).
Proof.
  induction a as [|c a IH]; intros Hf temp rest lines.
  - simpl. rewrite append_nil_r. reflexivity.
  - cbn [free_of mem_char CR_only] in Hf. rewrite orb_false_r in Hf.
    apply andb_true_iff in Hf as [Hc Hf]. apply negb_true_iff in Hc.
    cbn [list_ascii_of_string app split_lines]. rewrite Hc.
    rewrite (IH Hf). rewrite append_assoc, append_cons. reflexivity.
Qed.

Lemma encode_post (url : URL.t) :
  encode_request (Request.post url) =
  ("POST " +:+ URL.make_request_target false url +:+ " HTTP/1.1") +:+
  CRLF +:+ "user-agent: pdfw-httptarget/1.0" +:+ CRLF +:+ CRLF.
Proof.
  unfold encode_request. simpl. rewrite !append_assoc. reflexivity.
Qed.

(** The lines cut out of the request that was sent. *)
Lemma split_lines_post (url : URL.t) (data : string) :
  free_of CR_only (URL.make_request_target false url) = true →
  split_lines data
    (list_ascii_of_string (encode_request (Request.post url))) [] =
  Returns ([data +:+ "POST " +:+ URL.make_request_target false url +:+
            " HTTP/1.1";
            "user-agent: pdfw-httptarget/1.0"; EmptyString], EmptyString).
Proof.
  intros Hf. rewrite encode_post.
  rewrite list_ascii_append.
  change (list_ascii_of_string
            (CRLF +:+ "user-agent: pdfw-httptarget/1.0" +:+ CRLF +:+ CRLF))
    with (CR :: LF ::
          list_ascii_of_string "user-agent: pdfw-httptarget/1.0" ++
          CR :: LF :: list_ascii_of_string EmptyString ++ CR :: LF :: []).
  rewrite split_lines_line.
  2:{ rewrite !free_of_app, Hf. reflexivity. }
  rewrite split_lines_line by reflexivity.
  rewrite split_lines_line by reflexivity.
  simpl. rewrite !append_assoc. reflexivity.
Qed.

Lemma post_inv_emit (url : URL.t) (a : act) (s : t) :
  no_response a → post_inv url s → post_inv url (emit a s).
Proof.
  intros Ha (H1 & H2 & H3 & H4).
  split; [exact H1|]. split; [exact H2|]. split; [exact H3|].
  simpl. apply Forall_app. split; [exact H4|]. repeat constructor. exact Ha.
Qed.

Lemma post_inv_attempt_request (url : URL.t) (s : t) :
  post_inv url s → post_inv url (attempt_request s).
Proof.
  intros H. pose proof H as (H1 & H2 & H3 & H4). unfold attempt_request.
  destruct (m_pending s); [exact H|].
  destruct (m_queue s) as [|w rest]; [exact H|].
  inversion H2 as [|? ? Hw Hrest]; subst.
  split; [|split; [|split]]; simpl.
  - right. rewrite Hw. reflexivity.
  - exact Hrest.
  - apply Forall_app. split; [exact H3|]. repeat constructor.
  - apply Forall_app. split; [exact H4|]. repeat constructor.
Qed.

Lemma post_inv_fail_backlog (url : URL.t) (ec : Net.error_code) (s : t) :
  post_inv url s → post_inv url (fail_backlog ec s).
Proof.
  unfold fail_backlog. generalize (m_queue s) as q. intros q. revert s.
  induction q as [|w q IH]; intros s H; simpl; [exact H|].
  apply IH. apply post_inv_emit; [exact I|exact H].
Qed.

Lemma post_inv_fail_request (url : URL.t) (ec : Net.error_code) (s s1 : t) :
  post_inv url s → fail_request ec s = Returns s1 → post_inv url s1.
Proof.
  intros H. unfold fail_request, work.
  assert (Hclose : Returns (emit a_onclose (emit a_close (fail_backlog ec s)))
                   = Returns s1 → post_inv url s1).
  { intros E. injection E as <-.
    repeat (apply post_inv_emit; [exact I|]).
    apply post_inv_fail_backlog. exact H. }
  destruct ec; try exact Hclose;
    (destruct (m_work s) as [w|]; simpl; [|discriminate]);
    intros E; injection E as <-;
    unfold finish_request; apply post_inv_attempt_request;
    destruct H as (H1 & H2 & H3 & H4);
    (split; [left; reflexivity|]); (split; [exact H2|]);
    (split; [exact H3|]); simpl;
    (apply Forall_app; split; [exact H4|]; repeat constructor).
Qed.

Ltac header_tail H0 :=
  destruct (_ && _); [apply post_inv_fail_request; exact H0|];
  destruct (char_at _ 9) as [c0| | |]; simpl; try discriminate;
  destruct (char_at _ 10) as [c1| | |]; simpl; try discriminate;
  destruct (char_at _ 11) as [c2| | |]; simpl; try discriminate;
  destruct (_ && _); [apply post_inv_fail_request; exact H0|];
  try match goal with
  | |- context [process_headers ?r Headers.new] =>
      let v := eval vm_compute in (process_headers r Headers.new) in
      change (process_headers r Headers.new) with v
  end;
  cbv iota;
  match goal with
  | |- context [m_work ?s0] => destruct (m_work s0) as [w|]; [|discriminate]
  end;
  try match goal with
  | |- context [Headers.get ?k ?h] =>
      let v := eval vm_compute in (Headers.get k h) in
      change (Headers.get k h) with v
  end;
  cbv iota;
  let E := fresh "E" in
  intros E; injection E as <-;
  destruct H0 as (?H1 & ?H2 & ?H3 & ?H4);
  (split; [assumption|]); (split; [assumption|]);
  (split; [|assumption]); simpl;
  (apply Forall_app; split; [assumption|]; repeat constructor).

Lemma post_inv_on_header_recvd (url : URL.t) (ec : Net.error_code)
    (s s1 : t) :
  free_of CR_only (URL.make_request_target false url) = true →
  post_inv url s → on_header_recvd ec s = Returns s1 → post_inv url s1.
Proof.
  intros Hf H. unfold on_header_recvd.
  destruct (Net.failed ec); [apply post_inv_fail_request; exact H|].
  destruct H as (H1 & H2 & H3 & H4).
  assert (H0 : post_inv url (set_temp_buffer EmptyString (consume_all s))).
  { split; [left; reflexivity|]. split; [exact H2|]. split; assumption. }
  change (m_temp_buffer (consume_all s)) with (m_temp_buffer s).
  revert H0. generalize (set_temp_buffer EmptyString (consume_all s)) as s0.
  intros s0 H0.
  destruct H1 as [-> | ->].
  - simpl list_ascii_of_string. cbn [split_lines mbind outcome_bind].
    destruct (String.eqb (m_recv_buffer s) EmptyString);
      [apply post_inv_fail_request; exact H0|].
    cbn [app]. header_tail H0.
  - rewrite (split_lines_post url _ Hf). cbn [mbind outcome_bind].
    cbn [String.eqb]. header_tail H0.
Qed.

Lemma post_inv_step (url : URL.t) (e : event) (s s1 : t) :
  free_of CR_only (URL.make_request_target false url) = true →
  posts url [e] → post_inv url s → step e s = Some (Returns s1) →
  post_inv url s1.
Proof.
  intros Hf He H. destruct e as [req h|ec data]; simpl.
  - inversion He as [|? ? Hreq _]; subst.
    intros E. injection E as <-. unfold async_request.
    apply post_inv_attempt_request.
    destruct H as (H1 & H2 & H3 & H4).
    split; [exact H1|]. split; [|split; assumption]. simpl.
    apply Forall_app. split; [exact H2|]. repeat constructor.
  - unfold complete.
    destruct (ops s) as [|op rest] eqn:Eo; [discriminate|].
    destruct (allowed op ec data s) eqn:Ea; [|discriminate].
    intros E. injection E as E. revert E.
    destruct H as (H1 & H2 & H3 & H4). rewrite Eo in H3.
    inversion H3 as [|? ? Hop Hrest]; subst.
    match goal with
    | |- context [on_written ec ?x] =>
        assert (H0 : post_inv url x)
          by (split; [exact H1|]; split; [exact H2|]; split; assumption);
        revert H0; generalize x
    end.
    intros s0 H0.
    destruct op; simpl in Hop; try contradiction.
    + unfold on_written. destruct (Net.failed ec);
        [apply post_inv_fail_request; exact H0|].
      intros E. injection E as <-.
      destruct H0 as (H1' & H2' & H3' & H4').
      split; [exact H1'|]. split; [exact H2'|]. split; [|exact H4']. simpl.
      apply Forall_app. split; [exact H3'|]. repeat constructor.
    + apply post_inv_on_header_recvd; assumption.
    + simpl in Ea. unfold on_body_recvd. rewrite Ea.
      apply post_inv_fail_request.
      destruct H0 as (H1' & H2' & H3' & H4').
      split; [exact H1'|]. split; [exact H2'|]. split; assumption.
Qed.

Lemma post_inv_run (url : URL.t) (evs : list event) :
  free_of CR_only (URL.make_request_target false url) = true →
  ∀ s s1, posts url evs → post_inv url s →
    run evs s = Some (Returns s1) → post_inv url s1.
Proof.
  intros Hf. induction evs as [|e evs IH]; intros s s1 He H; simpl.
  - intros E. injection E as <-. exact H.
  - inversion He as [|? ? He1 He2]; subst.
    destruct (step e s) as [[s0| | |]|] eqn:Es; try discriminate.
    apply IH; [exact He2|].
    eapply post_inv_step; [exact Hf| |exact H|exact Es].
    constructor; [exact He1|constructor].
Qed.

(** X24.  The request that [POSTTarget::write] submits never brings a
    response back: whatever the socket delivers, the calls its handler
    gets hand over no response.  The headers read are those of the
    request itself, which names no length, so the body is read to the end
    of the stream, and that read only ends in an error. *)
Theorem post_never_sees_a_response :
  ∀ (url : URL.t) (evs : list event) (s : t) (h : handler)
    (r : option Response.t),
    free_of CR_only (URL.make_request_target false url) = true →
    posts url evs → conn_after evs = Some s →
    r ∈ calls_of h s → r = None.
Proof.
  intros url evs s h r Hf He Hs Hr. apply conn_after_run in Hs.
  assert (Hinv : post_inv url s).
  { eapply (post_inv_run url evs Hf new s He); [|exact Hs].
    split; [left; reflexivity|]. repeat split; constructor. }
  destruct Hinv as (_ & _ & _ & Ht). unfold calls_of in Hr.
  apply list_elem_of_fmap in Hr as ([h1 r1] & Hr1 & Hin). simpl in Hr1.
  subst r1. apply list_elem_of_filter in Hin as [_ Hin].
  apply list_elem_of_omap in Hin as (a & Ha & Hd).
  rewrite Forall_forall in Ht. specialize (Ht a Ha).
  destruct a as [d|h2 ec r2| |]; try discriminate. simpl in Hd.
  destruct r2 as [r2|]; [contradiction|].
  destruct (Net.failed ec); injection Hd as _ <-; reflexivity.
Qed.

Lemma post_never_sees_a_response_witness :
  ∃ s, conn_after [ev_request plain_post 7%nat; written;
                   received ok_length_5;
                   ev_complete Net.other_error "hello"] = Some s ∧
       calls_of 7%nat s = [None] ∧
       ∀ r, r ∈ calls_of 7%nat s → r = None.
Proof.
  eexists. split; [vm_compute; reflexivity|].
  split; [vm_compute; reflexivity|].
  intros r.
  apply (post_never_sees_a_response collector
           [ev_request plain_post 7%nat; written; received ok_length_5;
            ev_complete Net.other_error "hello"]).
  - reflexivity.
  - repeat constructor.
  - vm_compute. reflexivity.
Defined.

End Connection.

(* ===================================================================== *)
(** * Further properties: posting a document *)
(* ===================================================================== *)

Section Posting.
Import http.

(** X25.  [POSTTarget::write] makes no use of the document it is given:
    once the name is resolved and the connection made, what is written to
    the socket is a POST request for the URL of the target with the
    default header and no body, and nothing else. *)
Theorem post_sends_no_body :
  ∀ (url : URL.t) (h : HTTPConnection.handler) (data : string),
    ∃ p s o,
      POSTTarget.write h data (POSTTarget.new url) = Returns p ∧
      HTTPTarget.run [HTTPTarget.ev_done 0 Net.success;
                      HTTPTarget.ev_done 0 Net.success] (POSTTarget.base p)
        = Some (Returns s) ∧
      HTTPTarget.objects s !! 0%nat =
        Some ((URL.host url, URL.port_or_infer url), o) ∧
      HTTPConnection.trace o =
        [HTTPConnection.a_send
           ("POST " +:+ URL.make_request_target false url +:+ " HTTP/1.1" +:+
            HTTPConnection.CRLF +:+ "user-agent: pdfw-httptarget/1.0" +:+
            HTTPConnection.CRLF +:+ HTTPConnection.CRLF)] ∧
      HTTPConnection.ops o = [HTTPConnection.op_write] ∧
      HTTPTarget.called s = [].
Proof.
  intros url h data. eexists. eexists. eexists.
  split; [reflexivity|].
  split; [cbn; reflexivity|].
  unfold HTTPTarget.update. cbn.
  split; [apply lookup_insert_eq|].
  cbn. rewrite encode_post. unfold URL.make_request_target.
  rewrite !append_assoc. repeat split.
Qed.

Lemma submit_new (keepalive : bool) (req : Request.t)
    (h : HTTPConnection.handler) :
  HTTPTarget.submit req h (HTTPTarget.new keepalive) =
  Returns
    {| HTTPTarget.m_enable_keepalive := keepalive;
       HTTPTarget.m_conns :=
         if keepalive
         then {[ (URL.host (Request.m_url req),
                  URL.port_or_infer (Request.m_url req)) := 0%nat ]}
         else ∅;
       HTTPTarget.m_active_conns := if keepalive then [] else [0%nat];
       HTTPTarget.objects :=
         {[ 0%nat := ((URL.host (Request.m_url req),
                       URL.port_or_infer (Request.m_url req)),
                      HTTPConnection.new) ]};
       HTTPTarget.fresh := 1%nat;
       HTTPTarget.outstanding :=
         [HTTPTarget.resolving 0%nat
            (URL.host (Request.m_url req),
             URL.port_or_infer (Request.m_url req)) req h];
       HTTPTarget.called := [] |}.
Proof.
  unfold HTTPTarget.submit. cbn.
  destruct keepalive; [rewrite lookup_empty|]; reflexivity.
Qed.

(** X26.  With keep-alive a second request for the same host and port,
    submitted while the name of the first is still being resolved, is
    given the connection of the first and written to its socket at once,
    before that socket is connected and ahead of the first request.
    Without keep-alive it gets a connection of its own and waits for its
    own resolution. *)
Theorem keep_alive_writes_before_connecting :
  ∀ (req1 req2 : Request.t) (h1 h2 : HTTPConnection.handler),
    URL.host (Request.m_url req2) = URL.host (Request.m_url req1) →
    URL.port_or_infer (Request.m_url req2) =
      URL.port_or_infer (Request.m_url req1) →
    (∃ s o,
       target_after true [HTTPTarget.ev_submit req1 h1;
                          HTTPTarget.ev_submit req2 h2] = Some s ∧
       HTTPTarget.outstanding s =
         [HTTPTarget.resolving 0%nat
            (URL.host (Request.m_url req1),
             URL.port_or_infer (Request.m_url req1)) req1 h1] ∧
       HTTPTarget.objects s =
         {[ 0%nat := ((URL.host (Request.m_url req1),
                       URL.port_or_infer (Request.m_url req1)), o) ]} ∧
       HTTPConnection.trace o =
         [HTTPConnection.a_send (HTTPConnection.encode_request req2)]) ∧
    (∃ s,
       target_after false [HTTPTarget.ev_submit req1 h1;
                           HTTPTarget.ev_submit req2 h2] = Some s ∧
       HTTPTarget.outstanding s =
         [HTTPTarget.resolving 0%nat
            (URL.host (Request.m_url req1),
             URL.port_or_infer (Request.m_url req1)) req1 h1;
          HTTPTarget.resolving 1%nat
            (URL.host (Request.m_url req1),
             URL.port_or_infer (Request.m_url req1)) req2 h2] ∧
       HTTPTarget.objects s =
         {[ 0%nat := ((URL.host (Request.m_url req1),
                       URL.port_or_infer (Request.m_url req1)),
                      HTTPConnection.new);
            1%nat := ((URL.host (Request.m_url req1),
                       URL.port_or_infer (Request.m_url req1)),
                      HTTPConnection.new) ]}).
Proof.
  intros req1 req2 h1 h2 Hh Hp. split.
  - unfold target_after. cbn [HTTPTarget.run HTTPTarget.step].
    rewrite submit_new.
    unfold HTTPTarget.submit. cbn. rewrite Hh, Hp.
    repeat first [rewrite lookup_insert_eq | rewrite lookup_singleton_eq].
    cbn. repeat first [rewrite lookup_insert_eq | rewrite lookup_singleton_eq].
    cbn.
    eexists. eexists. split; [reflexivity|].
    unfold HTTPTarget.update. cbn.
    split; [reflexivity|]. split.
    { apply insert_singleton_eq. }
    reflexivity.
  - unfold target_after. cbn [HTTPTarget.run HTTPTarget.step].
    rewrite submit_new.
    unfold HTTPTarget.submit. cbn. rewrite Hh, Hp.
    eexists. split; [reflexivity|]. cbn.
    split; [reflexivity|].
    apply insert_singleton_ne. discriminate.
Qed.

Lemma keep_alive_writes_before_connecting_witness :
  ∃ s o,
    target_after true [HTTPTarget.ev_submit plain_post 7%nat;
                       HTTPTarget.ev_submit post_length_0 8%nat] = Some s ∧
    HTTPTarget.objects s =
      {[ 0%nat := ((URL.host (Request.m_url plain_post),
                    URL.port_or_infer (Request.m_url plain_post)), o) ]} ∧
    HTTPConnection.trace o =
      [HTTPConnection.a_send (HTTPConnection.encode_request post_length_0)].
Proof.
  destruct (keep_alive_writes_before_connecting plain_post post_length_0
              7%nat 8%nat eq_refl eq_refl)
    as [(s & o & H1 & _ & H3 & H4) _].
  exists s, o. split; [exact H1|]. split; [exact H3|exact H4].
Defined.

(** X27.  A target built from the text of a URL that names a host and one
    path component, with no port, posts to a path with a doubled slash:
    the request line it writes is [POST //name? HTTP/1.1], on a
    connection for the host and the port of the scheme. *)
Theorem post_target_doubles_the_slash :
  ∀ (scheme host name : string) (h : HTTPConnection.handler) (data : string),
    free_of ":" scheme = true → free_of ":/" host = true →
    free_of "/?#" name = true →
    (2 ≤ String.length name)%nat →
    Z.of_nat (String.length name) < 2 ^ 64 - 1 →
    ∃ p p1 s o,
      POSTTarget.make (scheme +:+ "://" +:+ host +:+ "/" +:+ name)
        = Returns p ∧
      POSTTarget.write h data p = Returns p1 ∧
      HTTPTarget.run [HTTPTarget.ev_done 0 Net.success;
                      HTTPTarget.ev_done 0 Net.success] (POSTTarget.base p1)
        = Some (Returns s) ∧
      HTTPTarget.objects s !! 0%nat =
        Some ((host, if String.eqb scheme "https" then 443 else 80), o) ∧
      HTTPConnection.trace o =
        [HTTPConnection.a_send
           ("POST //" +:+ name +:+ "? HTTP/1.1" +:+
            HTTPConnection.CRLF +:+ "user-agent: pdfw-httptarget/1.0" +:+
            HTTPConnection.CRLF +:+ HTTPConnection.CRLF)].
Proof.
  intros scheme host name h data Hs Hh Hn Hlen Hsize.
  destruct (free_of_path name Hn) as [Hn1 Hn2].
  unfold POSTTarget.make.
  rewrite (parse_host_name scheme host name Hs Hh Hn2).
  cbn [mbind outcome_bind].
  set (u := URL.path_string ("/" +:+ name)
              (URL.set_host host (URL.set_scheme scheme URL.blank))).
  assert (Ht : URL.make_request_target false u = "//" +:+ name +:+ "?").
  { unfold u. rewrite target_of_host_name;
      [|exact Hn1|exact Hsize|reflexivity].
    apply Nat.leb_le in Hlen. rewrite Hlen. reflexivity. }
  assert (Hhost : URL.host u = host).
  { unfold URL.host, u.
    destruct (path_string_fields ("/" +:+ name)
                (URL.set_host host (URL.set_scheme scheme URL.blank)))
      as (_ & F2 & _). rewrite F2. reflexivity. }
  assert (Hport : URL.port_or_infer u =
                  if String.eqb scheme "https" then 443 else 80).
  { unfold URL.port_or_infer, u.
    destruct (path_string_fields ("/" +:+ name)
                (URL.set_host host (URL.set_scheme scheme URL.blank)))
      as (F1 & _ & F3 & _). rewrite F1, F3. simpl.
    destruct (String.eqb scheme "http") eqn:E1;
      [apply String.eqb_eq in E1; subst scheme; reflexivity|].
    destruct (String.eqb scheme "https"); reflexivity. }
  eexists. eexists. eexists. eexists.
  split; [reflexivity|].
  split; [reflexivity|].
  split; [cbn; reflexivity|].
  unfold HTTPTarget.update. cbn.
  split; [rewrite lookup_insert_eq, Hhost, Hport; reflexivity|].
  cbn. rewrite encode_post, Ht, !append_assoc. reflexivity.
Qed.

Lemma post_target_doubles_the_slash_witness :
  ∃ p p1 s o,
    POSTTarget.make ("http" +:+ "://" +:+ "collector" +:+ "/" +:+ "frames")
      = Returns p ∧
    POSTTarget.write 7%nat "{}" p = Returns p1 ∧
    HTTPTarget.run [HTTPTarget.ev_done 0 Net.success;
                    HTTPTarget.ev_done 0 Net.success] (POSTTarget.base p1)
      = Some (Returns s) ∧
    HTTPTarget.objects s !! 0%nat = Some (("collector", 80), o) ∧
    HTTPConnection.trace o =
      [HTTPConnection.a_send
         ("POST //" +:+ "frames" +:+ "? HTTP/1.1" +:+
          HTTPConnection.CRLF +:+ "user-agent: pdfw-httptarget/1.0" +:+
          HTTPConnection.CRLF +:+ HTTPConnection.CRLF)].
Proof.
  apply (post_target_doubles_the_slash "http" "collector" "frames" 7%nat "{}");
    [reflexivity | reflexivity | reflexivity | simpl; lia
    | vm_compute; reflexivity].
Defined.

End Posting.
